(** * minidb: a paged heap file, a clock-sweep buffer pool and a B+-tree

    A shallow embedding of the Go sources of minidb (packages [disk],
    [buffer], [btree] and [table]) and the properties stated about them.

    Conventions of the embedding
    - Go's fixed-width integers are carried as [Z]; every conversion and
      every arithmetic operation that can wrap is written with [wrap16],
      [wrap64] (unsigned) or [wint] (the 64-bit signed [int]).
    - A byte slice is a [list byte].  All slices of the program reach to
      the end of their backing array, so capacity and length coincide.
    - A run-time panic (index or slice bounds out of range) is the error
      [Panic]; Go [error] values are the other constructors of [error].
    - A [*Buffer] handed out by the buffer pool manager is the index of
      its frame: the frame owns its buffer for the life of the pool. *)

From Stdlib Require Import ZArith List Lia Bool.
From Stdlib Require Import Init.Byte Strings.Byte Strings.String.
From stdpp Require Import base list gmap.

Local Open Scope Z_scope.

(** ** Results of fallible code *)

Inductive error : Type :=
| ErrDuplicateKey      (* btree.ErrDuplicateKey *)
| ErrNoFreeBuffer      (* buffer.ErrNoFreeBuffer *)
| ErrEOF               (* io.EOF: the page lies past the end of the heap file *)
| ErrSeek              (* Seek to a negative offset *)
| ErrInvalidNodeType   (* errors.New("invalid node type") *)
| Panic                (* run-time panic *)
| OutOfFuel.           (* the recursion bound of the embedding was hit *)

Inductive result (A : Type) : Type :=
| Ok (a : A)
| Err (e : error).
Arguments Ok {A} a.
Arguments Err {A} e.

Declare Scope result_scope.
Delimit Scope result_scope with result.
Notation "x <- c1 ;; c2" :=
  (match c1 with Ok x => c2 | Err e => Err e end)
  (at level 100, c1 at next level, right associativity) : result_scope.
Local Open Scope result_scope.

(** ** Machine integers *)

Definition wrap16 (z : Z) : Z := z mod 65536.
Definition wrap64 (z : Z) : Z := z mod 18446744073709551616.
(** Go's [int] on a 64-bit target. *)
Definition wint (z : Z) : Z :=
  (z + 9223372036854775808) mod 18446744073709551616 - 9223372036854775808.

(** ** Bytes and slices *)

Definition byte_to_Z (b : byte) : Z := Z.of_N (Byte.to_N b).
Definition byte_of_Z (z : Z) : byte :=
  match Byte.of_N (Z.to_N (z mod 256)) with
  | Some b => b
  | None => x00
  end.

Definition len {A} (s : list A) : Z := Z.of_nat (length s).

(** [make([]byte, n)] *)
Definition make (n : Z) : list byte := repeat x00 (Z.to_nat n).

(** [copy(dst, src)]: the first [min(len dst, len src)] bytes of [dst] are
    overwritten; the value is the new content of [dst]. *)
Definition copy {A} (dst src : list A) : list A :=
  take (length dst) src ++ drop (length src) dst.

(** [s[lo:hi]] and [s[lo:]] as values. *)
Definition slice {A} (s : list A) (lo hi : Z) : result (list A) :=
  if (0 <=? lo) && (lo <=? hi) && (hi <=? len s)
  then Ok (take (Z.to_nat (hi - lo)) (drop (Z.to_nat lo) s))
  else Err Panic.
Definition slice_from {A} (s : list A) (lo : Z) : result (list A) :=
  slice s lo (len s).

(** Writing through the view [s[lo:hi]] (resp. [s[lo:]]): [f] gets the view
    and returns its new content, which replaces that range of [s]. *)
Definition with_slice {A} (s : list A) (lo hi : Z)
    (f : list A -> result (list A)) : result (list A) :=
  v <- slice s lo hi ;;
  v' <- f v ;;
  Ok (take (Z.to_nat lo) s ++ v' ++ drop (Z.to_nat hi) s).
Definition with_slice_from {A} (s : list A) (lo : Z)
    (f : list A -> result (list A)) : result (list A) :=
  with_slice s lo (len s) f.

(** Little-endian integers, as [encoding/binary.LittleEndian] reads and
    writes them. *)
Fixpoint le_decode (bs : list byte) : Z :=
  match bs with
  | [] => 0
  | b :: bs' => byte_to_Z b + 256 * le_decode bs'
  end.
Fixpoint le_encode (n : nat) (v : Z) : list byte :=
  match n with
  | O => []
  | S n' => byte_of_Z v :: le_encode n' (v / 256)
  end.

(** [binary.LittleEndian.Uint16(b)]; panics when [len(b) < 2]. *)
Definition Uint16 (b : list byte) : result Z :=
  if 2 <=? len b then Ok (le_decode (take 2 b)) else Err Panic.
(** [binary.LittleEndian.PutUint16(b, v)]; the value is the new [b]. *)
Definition PutUint16 (b : list byte) (v : Z) : result (list byte) :=
  if 2 <=? len b then Ok (le_encode 2 v ++ drop 2 b) else Err Panic.
Definition Uint64 (b : list byte) : result Z :=
  if 8 <=? len b then Ok (le_decode (take 8 b)) else Err Panic.
Definition PutUint64 (b : list byte) (v : Z) : result (list byte) :=
  if 8 <=? len b then Ok (le_encode 8 v ++ drop 8 b) else Err Panic.

(** [bytes.Compare]: lexicographic on unsigned bytes, a proper prefix is
    smaller. *)
Fixpoint bytes_Compare (a b : list byte) : comparison :=
  match a, b with
  | [], [] => Eq
  | [], _ :: _ => Lt
  | _ :: _, [] => Gt
  | x :: a', y :: b' =>
      match byte_to_Z x ?= byte_to_Z y with
      | Eq => bytes_Compare a' b'
      | c => c
      end
  end.

(** ** Package btree: the pair codec (pair.go) *)

Module Pair.

Record t : Type := mk { Key : list byte; Value : list byte }.

(** [func (p *Pair) ToBytes() []byte] *)
Definition ToBytes (p : t) : result (list byte) :=
  let keyLen := len (Key p) in
  let valueLen := len (Value p) in
  let buf := make (4 + keyLen + valueLen) in
  buf <- with_slice buf 0 2 (fun s => PutUint16 s (wrap16 keyLen)) ;;
  buf <- with_slice buf 2 4 (fun s => PutUint16 s (wrap16 valueLen)) ;;
  buf <- with_slice buf 4 (4 + keyLen) (fun s => Ok (copy s (Key p))) ;;
  buf <- with_slice_from buf (4 + keyLen) (fun s => Ok (copy s (Value p))) ;;
  Ok buf.

(** [func PairFromBytes(data []byte) *Pair].  [keyLen] and [valueLen]
    are [uint16]; so is the sum [4+keyLen], which wraps, while the last
    bound is computed on [int]. *)
Definition PairFromBytes (data : list byte) : result t :=
  keyLen <- (s <- slice data 0 2 ;; Uint16 s) ;;
  valueLen <- (s <- slice data 2 4 ;; Uint16 s) ;;
  let key := make keyLen in
  let value := make valueLen in
  ks <- slice data 4 (wrap16 (4 + keyLen)) ;;
  let key := copy key ks in
  vs <- slice data (wrap16 (4 + keyLen)) (4 + keyLen + valueLen) ;;
  let value := copy value vs in
  Ok (mk key value).

(** [func PairSize(keyLen, valueLen int) int] *)
Definition PairSize (keyLen valueLen : Z) : Z := wint (4 + keyLen + valueLen).

End Pair.

(** ** Package table: tuples (tuple.go) *)

Module Tuple.

(** [type Tuple [][]byte] *)
Definition t : Type := list (list byte).

(** The second loop of [Encode]: one element at [offset]. *)
Fixpoint Encode_elems (elems : t) (buf : list byte) (offset : Z)
    : result (list byte) :=
  match elems with
  | [] => Ok buf
  | elem :: rest =>
      buf <- with_slice_from buf offset
               (fun s => PutUint16 s (wrap16 (len elem))) ;;
      let offset := offset + 2 in
      buf <- with_slice_from buf offset (fun s => Ok (copy s elem)) ;;
      let offset := offset + len elem in
      Encode_elems rest buf offset
  end.

(** [func (t Tuple) Encode() []byte] *)
Definition Encode (tuple : t) : result (list byte) :=
  let size := fold_left (fun size elem => size + (2 + len elem)) tuple 2 in
  let buf := make size in
  let offset := 0 in
  buf <- with_slice_from buf offset
           (fun s => PutUint16 s (wrap16 (len tuple))) ;;
  let offset := offset + 2 in
  Encode_elems tuple buf offset.

(** The loop of [DecodeTuple]; [n] counts the iterations left. *)
Fixpoint Decode_elems (n : nat) (data : list byte) (offset : Z)
    : result t :=
  match n with
  | O => Ok []
  | S n' =>
      elemLen <- (s <- slice_from data offset ;; Uint16 s) ;;
      let offset := offset + 2 in
      let elem := make elemLen in
      es <- slice data offset (offset + elemLen) ;;
      let elem := copy elem es in
      let offset := offset + elemLen in
      rest <- Decode_elems n' data offset ;;
      Ok (elem :: rest)
  end.

(** [func DecodeTuple(data []byte) Tuple] *)
Definition DecodeTuple (data : list byte) : result t :=
  numElems <- (s <- slice data 0 2 ;; Uint16 s) ;;
  Decode_elems (Z.to_nat numElems) data 2.

(** [func SplitTuple(tuple Tuple, numKeyElems int) (key, value Tuple)];
    a negative [numKeyElems] makes the slice expression panic. *)
Definition SplitTuple (tuple : t) (numKeyElems : Z) : result (t * t) :=
  let numKeyElems :=
    if len tuple <? numKeyElems then len tuple else numKeyElems in
  key <- slice tuple 0 numKeyElems ;;
  value <- slice_from tuple numKeyElems ;;
  Ok (key, value).

(** [func MergeTuple(key, value Tuple) Tuple] *)
Definition MergeTuple (key value : t) : result t :=
  let result := repeat ([] : list byte) (Z.to_nat (len key + len value)) in
  let result := copy result key in
  with_slice_from result (len key) (fun s => Ok (copy s value)).

End Tuple.

(** ** Package disk (disk.go) *)

Definition PageSize : Z := 4096.

Module DiskManager.

(** The heap file is a sequence of whole pages; [nextPageID] is a
    [uint64]. *)
Record t : Type := mk { heapFile : list (list byte); nextPageID : Z }.

(** [func NewDiskManager(heapFile *os.File)]: the next page id is the
    file size divided by the page size. *)
Definition NewDiskManager (file : list (list byte)) : t :=
  mk file (wrap64 (len file * PageSize / PageSize)).

(** [offset := int64(PageSize * pageID)]: the product is taken on
    [uint64], the conversion reinterprets it as signed. *)
Definition offset (pageID : Z) : Z := wint (wrap64 (PageSize * pageID)).

(** [func (d *DiskManager) ReadPageData(pageID PageID, data []byte) error];
    the value is the new content of [data]. *)
Definition ReadPageData (d : t) (pageID : Z) (data : list byte)
    : result (list byte) :=
  let offset := offset pageID in
  if offset <? 0 then Err ErrSeek
  else match heapFile d !! Z.to_nat (offset / PageSize) with
       | Some p => Ok (copy data p)
       | None => Err ErrEOF
       end.

(** [func (d *DiskManager) WritePageData(pageID PageID, data []byte) error];
    a write past the end grows the file, the gap reads as zero bytes.
    Failures of the operating system are outside the embedding. *)
Definition WritePageData (d : t) (pageID : Z) (data : list byte) : result t :=
  let offset := offset pageID in
  if offset <? 0 then Err ErrSeek
  else
    let i := Z.to_nat (offset / PageSize) in
    let file := heapFile d in
    Ok (mk (if decide (i < length file)%nat
            then <[i := data]> file
            else file ++ repeat (make PageSize) (i - length file) ++ [data])
           (nextPageID d)).

(** [func (d *DiskManager) AllocatePage() PageID] *)
Definition AllocatePage (d : t) : Z * t :=
  let pageID := nextPageID d in
  (pageID, mk (heapFile d) (wrap64 (nextPageID d + 1))).

(** [func (d *DiskManager) Sync() error] *)
Definition Sync (d : t) : result t := Ok d.

End DiskManager.

(** ** Package buffer (buffer.go) *)

Module Buffer.
Record t : Type := mk {
  PageID : Z;            (* disk.PageID, uint64 *)
  Page : list byte;      (* [PageSize]byte *)
  IsDirty : bool;
  refCount : Z;          (* int *)
  isValid : bool
}.
(** [&Buffer{}] *)
Definition zero : t := mk 0 (make PageSize) false 0 false.
Definition set_refCount (b : t) (n : Z) : t :=
  mk (PageID b) (Page b) (IsDirty b) n (isValid b).
Definition set_Page (b : t) (p : list byte) : t :=
  mk (PageID b) p (IsDirty b) (refCount b) (isValid b).
Definition set_IsDirty (b : t) (d : bool) : t :=
  mk (PageID b) (Page b) d (refCount b) (isValid b).
End Buffer.

Module Frame.
Record t : Type := mk { UsageCount : Z (* uint64 *); Buffer : Buffer.t }.
Definition set_UsageCount (f : t) (n : Z) : t := mk n (Buffer f).
End Frame.

Module BufferPool.

Record t : Type := mk { frames : list Frame.t; nextVictimID : Z (* BufferID *) }.

(** [func NewBufferPool(poolSize int) *BufferPool]; [make] panics on a
    negative size. *)
Definition NewBufferPool (poolSize : Z) : result t :=
  if poolSize <? 0 then Err Panic
  else Ok (mk (repeat (Frame.mk 0 Buffer.zero) (Z.to_nat poolSize)) 0).

(** [func (p *BufferPool) Size() int] *)
Definition Size (p : t) : Z := len (frames p).

(** [p.frames[i]], an index out of range panics. *)
Definition frame_at (p : t) (i : Z) : result Frame.t :=
  if i <? 0 then Err Panic
  else match frames p !! Z.to_nat i with
       | Some f => Ok f
       | None => Err Panic
       end.
Definition set_frame (p : t) (i : Z) (f : Frame.t) : t :=
  mk (<[Z.to_nat i := f]> (frames p)) (nextVictimID p).
Definition set_nextVictimID (p : t) (i : Z) : t := mk (frames p) i.

(** [func (p *BufferPool) incrementID(bufferID BufferID) BufferID];
    Go's [%] truncates, and panics on a zero divisor. *)
Definition incrementID (p : t) (bufferID : Z) : result Z :=
  if Size p =? 0 then Err Panic
  else Ok (wrap64 (Z.rem (wint (wint bufferID + 1)) (Size p))).

(** The [for] loop of [Evict]; [fuel] bounds the number of iterations. *)
Fixpoint Evict_loop (fuel : nat) (p : t) (consecutivePinned : Z)
    : result Z * t :=
  match fuel with
  | O => (Err OutOfFuel, p)
  | S fuel' =>
      let nextVictimID := nextVictimID p in
      match frame_at p nextVictimID with
      | Err e => (Err e, p)
      | Ok frame =>
          if Frame.UsageCount frame =? 0 then (Ok nextVictimID, p)
          else
            let '(p, consecutivePinned, failed) :=
              if Buffer.refCount (Frame.Buffer frame) =? 0 then
                (set_frame p nextVictimID
                   (Frame.set_UsageCount frame
                      (wrap64 (Frame.UsageCount frame - 1))),
                 0, false)
              else
                let consecutivePinned := wint (consecutivePinned + 1) in
                (p, consecutivePinned, Size p <=? consecutivePinned) in
            if failed then (Err ErrNoFreeBuffer, p)
            else
              match incrementID p (BufferPool.nextVictimID p) with
              | Err e => (Err e, p)
              | Ok next =>
                  Evict_loop fuel' (set_nextVictimID p next) consecutivePinned
              end
      end
  end.

(** A bound on the iterations of the loop: every iteration either
    lowers the usage count of an unpinned frame or lengthens a run of
    pinned frames, which stops at the pool size. *)
Definition unpinned_usage (f : Frame.t) : nat :=
  if Buffer.refCount (Frame.Buffer f) =? 0
  then Z.to_nat (Frame.UsageCount f) else 0%nat.
Definition sweep_bound (p : t) : nat :=
  (S (foldr (fun f n => (unpinned_usage f + n)%nat) 0%nat (frames p))
   * length (frames p))%nat.

(** [func (p *BufferPool) Evict() (BufferID, error)] *)
Definition Evict (p : t) : result Z * t :=
  Evict_loop (sweep_bound p) p 0.

End BufferPool.

Module BufferPoolManager.

Record t : Type := mk {
  disk : DiskManager.t;
  pool : BufferPool.t;
  pageTable : gmap Z Z     (* map[disk.PageID]BufferID *)
}.

(** [func NewBufferPoolManager(diskManager, pool)] *)
Definition NewBufferPoolManager (d : DiskManager.t) (p : BufferPool.t) : t :=
  mk d p ∅.

Definition set_pool (m : t) (p : BufferPool.t) : t :=
  mk (disk m) p (pageTable m).

(** The part [FetchPage] and [CreatePage] share: the victim's page is
    written back when it is valid and dirty. *)
Definition write_back (d : DiskManager.t) (frame : Frame.t)
    : result DiskManager.t :=
  let buf := Frame.Buffer frame in
  if Buffer.isValid buf && Buffer.IsDirty buf
  then DiskManager.WritePageData d (Buffer.PageID buf) (Buffer.Page buf)
  else Ok d.

(** [func (m *BufferPoolManager) FetchPage(pageID)], returning a buffer or an error;
    the buffer is returned as the index of its frame. *)
Definition FetchPage (pageID : Z) (m : t) : result Z * t :=
  match pageTable m !! pageID with
  | Some bufferID =>
      match BufferPool.frame_at (pool m) bufferID with
      | Err e => (Err e, m)
      | Ok frame =>
          let buf := Frame.Buffer frame in
          let frame :=
            Frame.mk (wrap64 (Frame.UsageCount frame + 1))
                     (Buffer.set_refCount buf (wint (Buffer.refCount buf + 1))) in
          (Ok bufferID, set_pool m (BufferPool.set_frame (pool m) bufferID frame))
      end
  | None =>
      match BufferPool.Evict (pool m) with
      | (Err e, p) => (Err e, set_pool m p)
      | (Ok bufferID, p) =>
          match BufferPool.frame_at p bufferID with
          | Err e => (Err e, set_pool m p)
          | Ok frame =>
              let buf := Frame.Buffer frame in
              let evictPageID := Buffer.PageID buf in
              let wasValid := Buffer.isValid buf in
              match write_back (disk m) frame with
              | Err e => (Err e, set_pool m p)
              | Ok d =>
                  let buf := Buffer.mk pageID (Buffer.Page buf) false
                               (Buffer.refCount buf) true in
                  match DiskManager.ReadPageData d pageID (Buffer.Page buf) with
                  | Err e =>
                      (Err e,
                       mk d (BufferPool.set_frame p bufferID
                               (Frame.mk (Frame.UsageCount frame) buf))
                          (pageTable m))
                  | Ok page =>
                      let buf := Buffer.set_refCount (Buffer.set_Page buf page) 1 in
                      let frame := Frame.mk 1 buf in
                      let pt := if wasValid then delete evictPageID (pageTable m)
                                else pageTable m in
                      (Ok bufferID,
                       mk d (BufferPool.set_frame p bufferID frame)
                          (<[pageID := bufferID]> pt))
                  end
              end
          end
      end
  end.

(** [func (m *BufferPoolManager) CreatePage()], returning a buffer or an error *)
Definition CreatePage (m : t) : result Z * t :=
  match BufferPool.Evict (pool m) with
  | (Err e, p) => (Err e, set_pool m p)
  | (Ok bufferID, p) =>
      match BufferPool.frame_at p bufferID with
      | Err e => (Err e, set_pool m p)
      | Ok frame =>
          let buf := Frame.Buffer frame in
          let evictPageID := Buffer.PageID buf in
          let wasValid := Buffer.isValid buf in
          match write_back (disk m) frame with
          | Err e => (Err e, set_pool m p)
          | Ok d =>
              let '(pageID, d) := DiskManager.AllocatePage d in
              let buf := Buffer.mk pageID (make PageSize) true 1 true in
              let frame := Frame.mk 1 buf in
              let pt := if wasValid then delete evictPageID (pageTable m)
                        else pageTable m in
              (Ok bufferID,
               mk d (BufferPool.set_frame p bufferID frame)
                  (<[pageID := bufferID]> pt))
          end
      end
  end.

(** One iteration of the loop of [Flush]. *)
Definition Flush_entry (m : t) (entry : Z * Z) : result t :=
  let '(pageID, bufferID) := entry in
  frame <- BufferPool.frame_at (pool m) bufferID ;;
  d <- DiskManager.WritePageData (disk m) pageID
         (Buffer.Page (Frame.Buffer frame)) ;;
  Ok (mk d (BufferPool.set_frame (pool m) bufferID
              (Frame.mk (Frame.UsageCount frame)
                 (Buffer.set_IsDirty (Frame.Buffer frame) false)))
         (pageTable m)).

Fixpoint Flush_entries (entries : list (Z * Z)) (m : t) : result unit * t :=
  match entries with
  | [] => (Ok tt, m)
  | entry :: rest =>
      match Flush_entry m entry with
      | Err e => (Err e, m)
      | Ok m => Flush_entries rest m
      end
  end.

(** [func (m *BufferPoolManager) Flush() error]; Go ranges over the map
    in an unspecified order, the embedding takes the order of
    [map_to_list]. *)
Definition Flush (m : t) : result unit * t :=
  match Flush_entries (map_to_list (pageTable m)) m with
  | (Err e, m) => (Err e, m)
  | (Ok _, m) =>
      match DiskManager.Sync (disk m) with
      | Err e => (Err e, m)
      | Ok d => (Ok tt, mk d (pool m) (pageTable m))
      end
  end.

End BufferPoolManager.

(** ** Code running against a buffer pool manager

    The B+-tree threads one [*BufferPoolManager] through every call and
    mutates pages in place through [*Buffer] pointers; both become explicit
    state here. *)

Definition M (A : Type) : Type :=
  BufferPoolManager.t -> result A * BufferPoolManager.t.

Definition retM {A} (a : A) : M A := fun m => (Ok a, m).
Definition failM {A} (e : error) : M A := fun m => (Err e, m).
Definition liftM {A} (r : result A) : M A := fun m => (r, m).
Definition bindM {A B} (c : M A) (k : A -> M B) : M B :=
  fun m => match c m with
           | (Ok a, m') => k a m'
           | (Err e, m') => (Err e, m')
           end.

Notation "x <~ c1 ;; c2" := (bindM c1 (fun x => c2))
  (at level 100, c1 at next level, right associativity) : result_scope.

(** Reading and writing the fields of the buffer behind a handle. *)
Definition buffer_of (b : Z) : M Buffer.t :=
  fun m => match BufferPool.frame_at (BufferPoolManager.pool m) b with
           | Ok f => (Ok (Frame.Buffer f), m)
           | Err e => (Err e, m)
           end.
Definition update_buffer (b : Z) (f : Buffer.t -> Buffer.t) : M unit :=
  fun m => match BufferPool.frame_at (BufferPoolManager.pool m) b with
           | Ok fr =>
               (Ok tt,
                BufferPoolManager.set_pool m
                  (BufferPool.set_frame (BufferPoolManager.pool m) b
                     (Frame.mk (Frame.UsageCount fr) (f (Frame.Buffer fr)))))
           | Err e => (Err e, m)
           end.
Definition Page_of (b : Z) : M (list byte) :=
  buf <~ buffer_of b ;; retM (Buffer.Page buf).
Definition PageID_of (b : Z) : M Z :=
  buf <~ buffer_of b ;; retM (Buffer.PageID buf).
(** [buf.IsDirty = true] *)
Definition mark_dirty (b : Z) : M unit :=
  update_buffer b (fun buf => Buffer.set_IsDirty buf true).
(** A write through the view [buf.Page[:]]. *)
Definition with_Page (b : Z) (f : list byte -> result (list byte)) : M unit :=
  page <~ Page_of b ;;
  page <~ liftM (f page) ;;
  update_buffer b (fun buf => Buffer.set_Page buf page).

(** ** Package btree: nodes (node.go) and the meta page (meta.go) *)

Module Node.

Definition NodeTypeLeaf : Z := 1.
Definition NodeTypeBranch : Z := 2.
Definition NodeHeaderSize : Z := 8.

(** [func NewNode(data []byte) *Node]: the header is the node type read
    from [data[0]]; the body is the view [data[NodeHeaderSize:]]. *)
Definition NewNode (data : list byte) : result Z :=
  match data with
  | b :: _ => _ <- slice_from data NodeHeaderSize ;; Ok (byte_to_Z b)
  | [] => Err Panic
  end.
Definition Body (data : list byte) : result (list byte) :=
  slice_from data NodeHeaderSize.

(** [func (n *Node) WriteHeader(data []byte)] *)
Definition WriteHeader (nodeType : Z) (data : list byte) : result (list byte) :=
  match data with
  | _ :: rest => Ok (byte_of_Z nodeType :: rest)
  | [] => Err Panic
  end.

End Node.

(** Reading from and writing through [buf.Page[NodeHeaderSize:]]. *)
Definition Body_of (b : Z) : M (list byte) :=
  page <~ Page_of b ;; liftM (Node.Body page).
Definition with_Body (b : Z) (f : list byte -> result (list byte)) : M unit :=
  with_Page b (fun page => with_slice_from page Node.NodeHeaderSize f).

Module Meta.

(** [func NewMeta(data []byte) *Meta]: the header holds [RootPageID]. *)
Definition NewMeta (data : list byte) : result Z :=
  s <- slice data 0 8 ;; Uint64 s.

(** [func (m *Meta) Sync()] *)
Definition Sync (RootPageID : Z) (data : list byte) : result (list byte) :=
  with_slice data 0 8 (fun s => PutUint64 s RootPageID).

End Meta.

(** ** Package btree: leaf nodes (leaf.go) *)

Module Leaf.

Definition LeafPrevPageIDOffset : Z := 0.
Definition LeafNextPageIDOffset : Z := 8.
Definition LeafNumPairsOffset : Z := 16.
Definition LeafFreeSpaceOffsetOffset : Z := 18.
Definition LeafHeaderSize : Z := 20.
Definition LeafSlotSize : Z := 2.

Definition InvalidPageID : Z := 18446744073709551615.

Definition readUint64 (l : list byte) (off : Z) : result Z :=
  s <- slice_from l off ;; Uint64 s.
Definition writeUint64 (l : list byte) (off v : Z) : result (list byte) :=
  with_slice_from l off (fun s => PutUint64 s v).
Definition readUint16 (l : list byte) (off : Z) : result Z :=
  s <- slice_from l off ;; Uint16 s.
Definition writeUint16 (l : list byte) (off v : Z) : result (list byte) :=
  with_slice_from l off (fun s => PutUint16 s v).

Definition setPrevPageID (l : list byte) (id : Z) :=
  writeUint64 l LeafPrevPageIDOffset id.
Definition setNextPageID (l : list byte) (id : Z) :=
  writeUint64 l LeafNextPageIDOffset id.
Definition setNumPairs (l : list byte) (n : Z) :=
  writeUint16 l LeafNumPairsOffset n.
Definition freeSpaceOffset (l : list byte) :=
  readUint16 l LeafFreeSpaceOffsetOffset.
Definition setFreeSpaceOffset (l : list byte) (offset : Z) :=
  writeUint16 l LeafFreeSpaceOffsetOffset offset.

(** [func (l *Leaf) Initialize()] *)
Definition Initialize (l : list byte) : result (list byte) :=
  l <- setPrevPageID l InvalidPageID ;;
  l <- setNextPageID l InvalidPageID ;;
  l <- setNumPairs l 0 ;;
  setFreeSpaceOffset l (wrap16 (len l)).

(** [func (l *Leaf) PrevPageID() *disk.PageID] *)
Definition PrevPageID (l : list byte) : result (option Z) :=
  id <- readUint64 l LeafPrevPageIDOffset ;;
  Ok (if id =? InvalidPageID then None else Some id).
(** [func (l *Leaf) NextPageID() *disk.PageID] *)
Definition NextPageID (l : list byte) : result (option Z) :=
  id <- readUint64 l LeafNextPageIDOffset ;;
  Ok (if id =? InvalidPageID then None else Some id).

(** [func (l *Leaf) SetPrevPageID(id *disk.PageID)] *)
Definition SetPrevPageID (l : list byte) (id : option Z) :=
  match id with
  | None => setPrevPageID l InvalidPageID
  | Some id => setPrevPageID l id
  end.
(** [func (l *Leaf) SetNextPageID(id *disk.PageID)] *)
Definition SetNextPageID (l : list byte) (id : option Z) :=
  match id with
  | None => setNextPageID l InvalidPageID
  | Some id => setNextPageID l id
  end.

(** [func (l *Leaf) NumPairs() int] *)
Definition NumPairs (l : list byte) : result Z :=
  readUint16 l LeafNumPairsOffset.

Definition slotOffset (slotID : Z) : Z :=
  wint (LeafHeaderSize + wint (slotID * LeafSlotSize)).
Definition getSlot (l : list byte) (slotID : Z) : result Z :=
  readUint16 l (slotOffset slotID).
Definition setSlot (l : list byte) (slotID offset : Z) :=
  writeUint16 l (slotOffset slotID) offset.

(** [func (l *Leaf) freeSpace() int] *)
Definition freeSpace (l : list byte) : result Z :=
  n <- NumPairs l ;;
  let slotsEnd := slotOffset n in
  fso <- freeSpaceOffset l ;;
  Ok (wint (fso - slotsEnd)).

(** [func (l *Leaf) PairAt(slotID int) *Pair] *)
Definition PairAt (l : list byte) (slotID : Z) : result Pair.t :=
  offset <- getSlot l slotID ;;
  s <- slice_from l offset ;;
  Pair.PairFromBytes s.

(** The binary search of [SearchSlotID]; every iteration shrinks
    [hi - lo], which bounds [fuel]. *)
Fixpoint SearchSlotID_loop (fuel : nat) (l key : list byte) (lo hi : Z)
    : result (Z * bool) :=
  if lo <? hi then
    match fuel with
    | O => Err OutOfFuel
    | S fuel' =>
        let mid := Z.quot (wint (lo + hi)) 2 in
        pair <- PairAt l mid ;;
        match bytes_Compare (Pair.Key pair) key with
        | Lt => SearchSlotID_loop fuel' l key (wint (mid + 1)) hi
        | Gt => SearchSlotID_loop fuel' l key lo mid
        | Eq => Ok (mid, true)
        end
    end
  else Ok (lo, false).

(** [func (l *Leaf) SearchSlotID(key []byte) (int, bool)] *)
Definition SearchSlotID (l key : list byte) : result (Z * bool) :=
  n <- NumPairs l ;;
  SearchSlotID_loop (Z.to_nat n) l key 0 n.

(** [for i := numPairs; i > slotID; i-- { l.setSlot(i, l.getSlot(i-1)) }],
    [n] iterations from [i] downwards. *)
Fixpoint shift_slots (n : nat) (l : list byte) (i : Z) : result (list byte) :=
  match n with
  | O => Ok l
  | S n' =>
      v <- getSlot l (wint (i - 1)) ;;
      l <- setSlot l i v ;;
      shift_slots n' l (wint (i - 1))
  end.

(** [func (l *Leaf) Insert(slotID int, key, value []byte) bool]; the
    value is the boolean and the new content of the leaf. *)
Definition Insert (l : list byte) (slotID : Z) (key value : list byte)
    : result (bool * list byte) :=
  pairBytes <- Pair.ToBytes (Pair.mk key value) ;;
  let pairLen := len pairBytes in
  fs <- freeSpace l ;;
  if fs <? wint (LeafSlotSize + pairLen) then Ok (false, l)
  else
    numPairs <- NumPairs l ;;
    l <- shift_slots (Z.to_nat (numPairs - slotID)) l numPairs ;;
    fso <- freeSpaceOffset l ;;
    let newOffset := wrap16 (fso - wrap16 pairLen) in
    l <- with_slice_from l newOffset (fun s => Ok (copy s pairBytes)) ;;
    l <- setSlot l slotID newOffset ;;
    l <- setFreeSpaceOffset l newOffset ;;
    l <- setNumPairs l (wrap16 (wint (numPairs + 1))) ;;
    Ok (true, l).

(** [for i := 0; i < l.NumPairs(); i++ { pairs[i] = l.PairAt(i) }] *)
Fixpoint collect_pairs (n : nat) (l : list byte) (i : Z) : result (list Pair.t) :=
  match n with
  | O => Ok []
  | S n' =>
      p <- PairAt l i ;;
      rest <- collect_pairs n' l (i + 1) ;;
      Ok (p :: rest)
  end.

(** [for insertPos < len(pairs) && bytes.Compare(pairs[insertPos].Key, key) < 0] *)
Fixpoint insert_pos (pairs : list Pair.t) (key : list byte) : nat :=
  match pairs with
  | [] => O
  | p :: rest =>
      match bytes_Compare (Pair.Key p) key with
      | Lt => S (insert_pos rest key)
      | _ => O
      end
  end.

(** [for ... { leaf.Insert(i, pairs[..].Key, pairs[..].Value) }]; the
    boolean of [Insert] is dropped, as in the source. *)
Fixpoint insert_all (l : list byte) (pairs : list Pair.t) (i : Z)
    : result (list byte) :=
  match pairs with
  | [] => Ok l
  | p :: rest =>
      r <- Insert l i (Pair.Key p) (Pair.Value p) ;;
      insert_all (snd r) rest (i + 1)
  end.

(** [func (l *Leaf) SplitInsert(newLeaf *Leaf, key, value []byte) []byte]
    for two leaves on distinct pages; the value is the new content of
    [l], of [newLeaf], and the overflow key. *)
Definition SplitInsert (l newLeaf : list byte) (key value : list byte)
    : result (list byte * list byte * list byte) :=
  n <- NumPairs l ;;
  pairs <- collect_pairs (Z.to_nat n) l 0 ;;
  let insertPos := insert_pos pairs key in
  let newPair := Pair.mk key value in
  let pairs := take insertPos pairs ++ [newPair] ++ drop insertPos pairs in
  let mid := Z.quot (len pairs) 2 in
  newLeaf <- Initialize newLeaf ;;
  newLeaf <- insert_all newLeaf (take (Z.to_nat mid) pairs) 0 ;;
  l <- Initialize l ;;
  l <- insert_all l (drop (Z.to_nat mid) pairs) 0 ;;
  if mid - 1 <? 0 then Err Panic
  else match pairs !! Z.to_nat (mid - 1) with
       | Some p => Ok (l, newLeaf, Pair.Key p)
       | None => Err Panic
       end.

End Leaf.

(** ** Package btree: branch nodes (branch.go) *)

Module Branch.

Definition BranchNumChildrenOffset : Z := 0.
Definition BranchFreeSpaceOffsetOffset : Z := 2.
Definition BranchHeaderSize : Z := 4.
Definition BranchSlotSize : Z := 2.
Definition BranchChildSize : Z := 8.

(** [func (b *Branch) NumChildren() int] *)
Definition NumChildren (b : list byte) : result Z :=
  Leaf.readUint16 b BranchNumChildrenOffset.
Definition setNumChildren (b : list byte) (n : Z) :=
  Leaf.writeUint16 b BranchNumChildrenOffset n.
Definition freeSpaceOffset (b : list byte) :=
  Leaf.readUint16 b BranchFreeSpaceOffsetOffset.
Definition setFreeSpaceOffset (b : list byte) (offset : Z) :=
  Leaf.writeUint16 b BranchFreeSpaceOffsetOffset offset.

(** [func (b *Branch) NumKeys() int] *)
Definition NumKeys (b : list byte) : result Z :=
  n <- NumChildren b ;;
  Ok (if n =? 0 then 0 else n - 1).

Definition maxKeys : Z := 100.
Definition keySlotOffset (idx : Z) : Z :=
  wint (BranchHeaderSize + wint (idx * BranchSlotSize)).
Definition childOffset (idx : Z) : Z :=
  wint (wint (BranchHeaderSize + wint (maxKeys * BranchSlotSize))
        + wint (idx * BranchChildSize)).

Definition getKeySlot (b : list byte) (idx : Z) : result Z :=
  Leaf.readUint16 b (keySlotOffset idx).
Definition setKeySlot (b : list byte) (idx offset : Z) :=
  Leaf.writeUint16 b (keySlotOffset idx) offset.
(** [func (b *Branch) ChildAt(idx int) disk.PageID] *)
Definition ChildAt (b : list byte) (idx : Z) : result Z :=
  Leaf.readUint64 b (childOffset idx).
Definition setChild (b : list byte) (idx pageID : Z) :=
  Leaf.writeUint64 b (childOffset idx) pageID.

(** [func (b *Branch) KeyAt(idx int) []byte]; [offset] and [keyLen] are
    [uint16], and so are the bounds of the slice. *)
Definition KeyAt (b : list byte) (idx : Z) : result (list byte) :=
  offset <- getKeySlot b idx ;;
  keyLen <- Leaf.readUint16 b offset ;;
  slice b (wrap16 (offset + 2)) (wrap16 (wrap16 (offset + 2) + keyLen)).

(** The four statements that store one key record below the free space
    offset and point slot [idx] at it. *)
Definition write_key (b : list byte) (idx : Z) (key : list byte)
    : result (list byte) :=
  let keyLen := len key in
  fso <- freeSpaceOffset b ;;
  let newOffset := wrap16 (fso - wrap16 (2 + keyLen)) in
  b <- with_slice_from b newOffset (fun s => PutUint16 s (wrap16 keyLen)) ;;
  b <- with_slice_from b (wrap16 (newOffset + 2)) (fun s => Ok (copy s key)) ;;
  b <- setKeySlot b idx newOffset ;;
  setFreeSpaceOffset b newOffset.

(** [func (b *Branch) Initialize(key []byte, leftChild, rightChild disk.PageID)] *)
Definition Initialize (b : list byte) (key : list byte)
    (leftChild rightChild : Z) : result (list byte) :=
  b <- setNumChildren b 2 ;;
  b <- setFreeSpaceOffset b (wrap16 (len b)) ;;
  b <- write_key b 0 key ;;
  b <- setChild b 0 leftChild ;;
  setChild b 1 rightChild.

(** The binary search of [SearchChildIdx]. *)
Fixpoint SearchChildIdx_loop (fuel : nat) (b key : list byte) (lo hi : Z)
    : result Z :=
  if lo <? hi then
    match fuel with
    | O => Err OutOfFuel
    | S fuel' =>
        let mid := Z.quot (wint (lo + hi)) 2 in
        midKey <- KeyAt b mid ;;
        match bytes_Compare midKey key with
        | Gt => SearchChildIdx_loop fuel' b key lo mid
        | _ => SearchChildIdx_loop fuel' b key (wint (mid + 1)) hi
        end
    end
  else Ok lo.

(** [func (b *Branch) SearchChildIdx(key []byte) int] *)
Definition SearchChildIdx (b key : list byte) : result Z :=
  n <- NumKeys b ;;
  SearchChildIdx_loop (Z.to_nat n) b key 0 n.

(** [func (b *Branch) SearchChild(key []byte) disk.PageID] *)
Definition SearchChild (b key : list byte) : result Z :=
  idx <- SearchChildIdx b key ;;
  ChildAt b idx.

(** [func (b *Branch) freeSpace() int] *)
Definition freeSpace (b : list byte) : result Z :=
  numChildren <- NumChildren b ;;
  let slotsEnd :=
    wint (wint (BranchHeaderSize + wint (maxKeys * BranchSlotSize))
          + wint (numChildren * BranchChildSize)) in
  fso <- freeSpaceOffset b ;;
  Ok (wint (fso - slotsEnd)).

(** [for i := numChildren; i > childIdx+1; i-- { b.setChild(i, b.ChildAt(i-1)) }] *)
Fixpoint shift_children (n : nat) (b : list byte) (i : Z) : result (list byte) :=
  match n with
  | O => Ok b
  | S n' =>
      c <- ChildAt b (wint (i - 1)) ;;
      b <- setChild b i c ;;
      shift_children n' b (wint (i - 1))
  end.
(** [for i := numKeys; i > childIdx; i-- { b.setKeySlot(i, b.getKeySlot(i-1)) }] *)
Fixpoint shift_keySlots (n : nat) (b : list byte) (i : Z) : result (list byte) :=
  match n with
  | O => Ok b
  | S n' =>
      s <- getKeySlot b (wint (i - 1)) ;;
      b <- setKeySlot b i s ;;
      shift_keySlots n' b (wint (i - 1))
  end.

(** [func (b *Branch) Insert(childIdx int, key []byte, newChildPageID disk.PageID) bool] *)
Definition Insert (b : list byte) (childIdx : Z) (key : list byte)
    (newChildPageID : Z) : result (bool * list byte) :=
  let keyLen := len key in
  let needed := wint (wint (2 + keyLen) + BranchChildSize) in
  fs <- freeSpace b ;;
  if fs <? needed then Ok (false, b)
  else
    numChildren <- NumChildren b ;;
    numKeys <- NumKeys b ;;
    b <- shift_children (Z.to_nat (numChildren - wint (childIdx + 1))) b numChildren ;;
    b <- setChild b (wint (childIdx + 1)) newChildPageID ;;
    b <- shift_keySlots (Z.to_nat (numKeys - childIdx)) b numKeys ;;
    b <- write_key b childIdx key ;;
    b <- setNumChildren b (wrap16 (wint (numChildren + 1))) ;;
    Ok (true, b).

Fixpoint collect_keys (n : nat) (b : list byte) (i : Z) : result (list (list byte)) :=
  match n with
  | O => Ok []
  | S n' =>
      k <- KeyAt b i ;;
      rest <- collect_keys n' b (i + 1) ;;
      Ok (k :: rest)
  end.
Fixpoint collect_children (n : nat) (b : list byte) (i : Z) : result (list Z) :=
  match n with
  | O => Ok []
  | S n' =>
      c <- ChildAt b i ;;
      rest <- collect_children n' b (i + 1) ;;
      Ok (c :: rest)
  end.

(** [for insertPos < len(keys) && bytes.Compare(keys[insertPos], key) <= 0] *)
Fixpoint insert_pos (keys : list (list byte)) (key : list byte) : nat :=
  match keys with
  | [] => O
  | k :: rest =>
      match bytes_Compare k key with
      | Gt => O
      | _ => S (insert_pos rest key)
      end
  end.

(** The loops that rebuild one half: key records into slots [i], [i+1],
    ..., and child ids into positions [i], [i+1], ... *)
Fixpoint write_keys (b : list byte) (keys : list (list byte)) (i : Z)
    : result (list byte) :=
  match keys with
  | [] => Ok b
  | k :: rest => b <- write_key b i k ;; write_keys b rest (i + 1)
  end.
Fixpoint write_children (b : list byte) (children : list Z) (i : Z)
    : result (list byte) :=
  match children with
  | [] => Ok b
  | c :: rest => b <- setChild b i c ;; write_children b rest (i + 1)
  end.

(** [func (b *Branch) SplitInsert(newBranch *Branch, key []byte,
    newChildPageID disk.PageID) []byte] for two branches on distinct
    pages; the value is the new content of [b], of [newBranch], and the
    overflow key. *)
Definition SplitInsert (b newBranch : list byte) (key : list byte)
    (newChildPageID : Z) : result (list byte * list byte * list byte) :=
  numKeys <- NumKeys b ;;
  keys <- collect_keys (Z.to_nat numKeys) b 0 ;;
  children <- collect_children (Z.to_nat (numKeys + 1)) b 0 ;;
  let insertPos := insert_pos keys key in
  let keys := take insertPos keys ++ [key] ++ drop insertPos keys in
  let children :=
    take (S insertPos) children ++ [newChildPageID] ++ drop (S insertPos) children in
  let mid := Z.quot (len keys) 2 in
  match keys !! Z.to_nat mid with
  | None => Err Panic
  | Some overflowKey =>
      newBranch <- setNumChildren newBranch (wrap16 (mid + 1)) ;;
      newBranch <- setFreeSpaceOffset newBranch (wrap16 (len newBranch)) ;;
      newBranch <- write_keys newBranch (take (Z.to_nat mid) keys) 0 ;;
      newBranch <- write_children newBranch (take (Z.to_nat (mid + 1)) children) 0 ;;
      b <- setNumChildren b (wrap16 (len keys - mid)) ;;
      b <- setFreeSpaceOffset b (wrap16 (len b)) ;;
      b <- write_keys b (drop (Z.to_nat (mid + 1)) keys) 0 ;;
      b <- write_children b (drop (Z.to_nat (mid + 1)) children) 0 ;;
      Ok (b, newBranch, overflowKey)
  end.

End Branch.

(** ** Package btree: the tree (btree.go) *)

Module Search.

Inductive SearchMode : Type := SearchModeStart | SearchModeKey.

Record t : Type := mk { Mode : SearchMode; Key : list byte }.

Definition NewSearchStart : t := mk SearchModeStart [].
Definition NewSearchKey (key : list byte) : t := mk SearchModeKey key.

(** [func (s *Search) childPageID(branch *Branch) disk.PageID] *)
Definition childPageID (s : t) (branch : list byte) : result Z :=
  match Mode s with
  | SearchModeStart => Branch.ChildAt branch 0
  | SearchModeKey => Branch.SearchChild branch (Key s)
  end.

(** [func (s *Search) tupleSlotID(leaf *Leaf) (int, bool)] *)
Definition tupleSlotID (s : t) (leaf : list byte) : result (Z * bool) :=
  match Mode s with
  | SearchModeStart => Ok (0, false)
  | SearchModeKey => Leaf.SearchSlotID leaf (Key s)
  end.

End Search.

Module Iter.

(** [buffer] is the handle of the leaf's buffer, [slotID] an [int]. *)
Record t : Type := mk { buffer : Z; slotID : Z }.

(** [func (it *Iter) get() *Pair] *)
Definition get (it : t) : M (option Pair.t) :=
  leaf <~ Body_of (buffer it) ;;
  n <~ liftM (Leaf.NumPairs leaf) ;;
  if slotID it <? n
  then p <~ liftM (Leaf.PairAt leaf (slotID it)) ;; retM (Some p)
  else retM None.

(** [func (it *Iter) advance(bufmgr) error]; the iterator is mutated
    also when an error is returned. *)
Definition advance (it : t) (m : BufferPoolManager.t)
    : result unit * t * BufferPoolManager.t :=
  let it := mk (buffer it) (wint (slotID it + 1)) in
  match (leaf <~ Body_of (buffer it) ;;
         n <~ liftM (Leaf.NumPairs leaf) ;;
         if slotID it <? n then retM None
         else nextPageID <~ liftM (Leaf.NextPageID leaf) ;;
              match nextPageID with
              | Some id => nextBuffer <~ BufferPoolManager.FetchPage id ;;
                           retM (Some nextBuffer)
              | None => retM None
              end) m with
  | (Err e, m) => (Err e, it, m)
  | (Ok None, m) => (Ok tt, it, m)
  | (Ok (Some nextBuffer), m) => (Ok tt, mk nextBuffer 0, m)
  end.

(** [func (it *Iter) Next(bufmgr) ], returning a pair or nil, and an error *)
Definition Next (it : t) (m : BufferPoolManager.t)
    : result (option Pair.t) * t * BufferPoolManager.t :=
  match get it m with
  | (Err e, m) => (Err e, it, m)
  | (Ok p, m) =>
      match advance it m with
      | (Err e, it, m) => (Err e, it, m)
      | (Ok _, it, m) => (Ok p, it, m)
      end
  end.

End Iter.

Module BTree.

Record t : Type := mk { MetaPageID : Z }.

(** [type overflow struct { key []byte; childPageID disk.PageID }] *)
Record overflow : Type := mk_overflow { key : list byte; childPageID : Z }.

(** [func Create(bufmgr *buffer.BufferPoolManager)] *)
Definition Create : M t :=
  metaBuffer <~ BufferPoolManager.CreatePage ;;
  metaRootPageID <~ (page <~ Page_of metaBuffer ;; liftM (Meta.NewMeta page)) ;;
  rootBuffer <~ BufferPoolManager.CreatePage ;;
  _ <~ (page <~ Page_of rootBuffer ;; liftM (Node.NewNode page)) ;;
  _ <~ with_Page rootBuffer (Node.WriteHeader Node.NodeTypeLeaf) ;;
  _ <~ with_Body rootBuffer Leaf.Initialize ;;
  rootPageID <~ PageID_of rootBuffer ;;
  _ <~ with_Page metaBuffer (Meta.Sync rootPageID) ;;
  _ <~ mark_dirty metaBuffer ;;
  _ <~ mark_dirty rootBuffer ;;
  metaPageID <~ PageID_of metaBuffer ;;
  retM (mk metaPageID).

(** [func NewBTree(metaPageID disk.PageID) *BTree] *)
Definition NewBTree (metaPageID : Z) : t := mk metaPageID.

(** [func (t *BTree) fetchRootPage(bufmgr)] *)
Definition fetchRootPage (tree : t) : M Z :=
  metaBuffer <~ BufferPoolManager.FetchPage (MetaPageID tree) ;;
  rootPageID <~ (page <~ Page_of metaBuffer ;; liftM (Meta.NewMeta page)) ;;
  BufferPoolManager.FetchPage rootPageID.

(** [func (t *BTree) searchInternal(bufmgr, nodeBuffer, search)]; the
    recursion follows child page ids, [fuel] bounds its depth. *)
Fixpoint searchInternal (fuel : nat) (nodeBuffer : Z) (search : Search.t)
    : M Iter.t :=
  match fuel with
  | O => failM OutOfFuel
  | S fuel' =>
      nodeType <~ (page <~ Page_of nodeBuffer ;; liftM (Node.NewNode page)) ;;
      if nodeType =? Node.NodeTypeLeaf then
        leaf <~ Body_of nodeBuffer ;;
        r <~ liftM (Search.tupleSlotID search leaf) ;;
        let slotID := fst r in
        n <~ liftM (Leaf.NumPairs leaf) ;;
        let isRightMost := n =? slotID in
        let iter := Iter.mk nodeBuffer slotID in
        if isRightMost then
          fun m => match Iter.advance iter m with
                   | (Err e, _, m) => (Err e, m)
                   | (Ok _, iter, m) => (Ok iter, m)
                   end
        else retM iter
      else if nodeType =? Node.NodeTypeBranch then
        branch <~ Body_of nodeBuffer ;;
        childPageID <~ liftM (Search.childPageID search branch) ;;
        childBuffer <~ BufferPoolManager.FetchPage childPageID ;;
        searchInternal fuel' childBuffer search
      else failM ErrInvalidNodeType
  end.

(** [func (t *BTree) Search(bufmgr, search)] *)
Definition Search (fuel : nat) (tree : t) (search : Search.t) : M Iter.t :=
  rootBuffer <~ fetchRootPage tree ;;
  searchInternal fuel rootBuffer search.

(** The leaf split of [insertInternal], from [prevPageID := leaf.PrevPageID()]
    on.  The new page is in a frame that [Evict] just returned, which is
    never a pinned frame such as the one of [nodeBuffer]: [SplitInsert]
    works on two distinct pages. *)
Definition split_leaf (nodeBuffer : Z) (key value : list byte)
    : M (option overflow) :=
  prevPageID <~ (leaf <~ Body_of nodeBuffer ;; liftM (Leaf.PrevPageID leaf)) ;;
  prevBuffer <~ match prevPageID with
                | Some id => b <~ BufferPoolManager.FetchPage id ;; retM (Some b)
                | None => retM None
                end ;;
  newLeafBuffer <~ BufferPoolManager.CreatePage ;;
  newLeafPageID <~ PageID_of newLeafBuffer ;;
  _ <~ match prevBuffer with
       | Some pb =>
           _ <~ (page <~ Page_of pb ;; liftM (Node.NewNode page)) ;;
           _ <~ with_Body pb (fun prevLeaf =>
                                Leaf.SetNextPageID prevLeaf (Some newLeafPageID)) ;;
           mark_dirty pb
       | None => retM tt
       end ;;
  _ <~ with_Body nodeBuffer (fun leaf => Leaf.SetPrevPageID leaf (Some newLeafPageID)) ;;
  _ <~ (page <~ Page_of newLeafBuffer ;; liftM (Node.NewNode page)) ;;
  _ <~ with_Page newLeafBuffer (Node.WriteHeader Node.NodeTypeLeaf) ;;
  _ <~ with_Body newLeafBuffer Leaf.Initialize ;;
  leaf <~ Body_of nodeBuffer ;;
  newLeaf <~ Body_of newLeafBuffer ;;
  r <~ liftM (Leaf.SplitInsert leaf newLeaf key value) ;;
  let '(leaf, newLeaf, overflowKey) := r in
  _ <~ with_Body newLeafBuffer (fun _ => Ok newLeaf) ;;
  _ <~ with_Body nodeBuffer (fun _ => Ok leaf) ;;
  nodePageID <~ PageID_of nodeBuffer ;;
  _ <~ with_Body newLeafBuffer (fun newLeaf =>
                                  Leaf.SetNextPageID newLeaf (Some nodePageID)) ;;
  _ <~ with_Body newLeafBuffer (fun newLeaf =>
                                  Leaf.SetPrevPageID newLeaf prevPageID) ;;
  _ <~ mark_dirty nodeBuffer ;;
  _ <~ mark_dirty newLeafBuffer ;;
  retM (Some (mk_overflow overflowKey newLeafPageID)).

(** The branch split of [insertInternal], from
    [newBranchBuffer, err := bufmgr.CreatePage()] on. *)
Definition split_branch (nodeBuffer : Z) (childOverflow : overflow)
    : M (option overflow) :=
  newBranchBuffer <~ BufferPoolManager.CreatePage ;;
  _ <~ (page <~ Page_of newBranchBuffer ;; liftM (Node.NewNode page)) ;;
  _ <~ with_Page newBranchBuffer (Node.WriteHeader Node.NodeTypeBranch) ;;
  branch <~ Body_of nodeBuffer ;;
  newBranch <~ Body_of newBranchBuffer ;;
  r <~ liftM (Branch.SplitInsert branch newBranch
                (key childOverflow) (childPageID childOverflow)) ;;
  let '(branch, newBranch, overflowKey) := r in
  _ <~ with_Body newBranchBuffer (fun _ => Ok newBranch) ;;
  _ <~ with_Body nodeBuffer (fun _ => Ok branch) ;;
  _ <~ mark_dirty nodeBuffer ;;
  _ <~ mark_dirty newBranchBuffer ;;
  newBranchPageID <~ PageID_of newBranchBuffer ;;
  retM (Some (mk_overflow overflowKey newBranchPageID)).

(** [func (t *BTree) insertInternal(bufmgr, nodeBuffer, key, value)
    returning an overflow or nil], with [nil] as [None]. *)
Fixpoint insertInternal (fuel : nat) (nodeBuffer : Z) (key value : list byte)
    : M (option overflow) :=
  match fuel with
  | O => failM OutOfFuel
  | S fuel' =>
      nodeType <~ (page <~ Page_of nodeBuffer ;; liftM (Node.NewNode page)) ;;
      if nodeType =? Node.NodeTypeLeaf then
        leaf <~ Body_of nodeBuffer ;;
        r <~ liftM (Leaf.SearchSlotID leaf key) ;;
        let '(slotID, found) := r in
        if found then failM ErrDuplicateKey
        else
          r <~ liftM (Leaf.Insert leaf slotID key value) ;;
          if fst r then
            _ <~ with_Body nodeBuffer (fun _ => Ok (snd r)) ;;
            _ <~ mark_dirty nodeBuffer ;;
            retM None
          else split_leaf nodeBuffer key value
      else if nodeType =? Node.NodeTypeBranch then
        branch <~ Body_of nodeBuffer ;;
        childIdx <~ liftM (Branch.SearchChildIdx branch key) ;;
        childPageID <~ liftM (Branch.ChildAt branch childIdx) ;;
        childBuffer <~ BufferPoolManager.FetchPage childPageID ;;
        childOverflow <~ insertInternal fuel' childBuffer key value ;;
        match childOverflow with
        | None => retM None
        | Some childOverflow =>
            branch <~ Body_of nodeBuffer ;;
            r <~ liftM (Branch.Insert branch childIdx (BTree.key childOverflow)
                          (BTree.childPageID childOverflow)) ;;
            if fst r then
              _ <~ with_Body nodeBuffer (fun _ => Ok (snd r)) ;;
              _ <~ mark_dirty nodeBuffer ;;
              retM None
            else split_branch nodeBuffer childOverflow
        end
      else failM ErrInvalidNodeType
  end.

(** [func (t *BTree) Insert(bufmgr, key, value []byte) error] *)
Definition Insert (fuel : nat) (tree : t) (key value : list byte) : M unit :=
  metaBuffer <~ BufferPoolManager.FetchPage (MetaPageID tree) ;;
  rootPageID <~ (page <~ Page_of metaBuffer ;; liftM (Meta.NewMeta page)) ;;
  rootBuffer <~ BufferPoolManager.FetchPage rootPageID ;;
  overflow <~ insertInternal fuel rootBuffer key value ;;
  match overflow with
  | None => retM tt
  | Some overflow =>
      newRootBuffer <~ BufferPoolManager.CreatePage ;;
      _ <~ (page <~ Page_of newRootBuffer ;; liftM (Node.NewNode page)) ;;
      _ <~ with_Page newRootBuffer (Node.WriteHeader Node.NodeTypeBranch) ;;
      _ <~ with_Body newRootBuffer
             (fun branch => Branch.Initialize branch (BTree.key overflow)
                              (BTree.childPageID overflow) rootPageID) ;;
      newRootPageID <~ PageID_of newRootBuffer ;;
      _ <~ with_Page metaBuffer (Meta.Sync newRootPageID) ;;
      _ <~ mark_dirty metaBuffer ;;
      _ <~ mark_dirty newRootBuffer ;;
      retM tt
  end.

End BTree.

Module TableIter.

(** [type TableIter struct { btreeIter *btree.Iter; numKeyElems int }] *)
Record t : Type := mk { btreeIter : Iter.t; numKeyElems : Z }.

(** [func (it *TableIter) Next(bufmgr)], returning a tuple or nil, and an
    error; the B-tree iterator behind the pointer is advanced also when
    decoding panics. *)
Definition Next (it : t) (m : BufferPoolManager.t)
    : result (option Tuple.t) * t * BufferPoolManager.t :=
  match Iter.Next (btreeIter it) m with
  | (Err e, btreeIter, m) => (Err e, mk btreeIter (numKeyElems it), m)
  | (Ok None, btreeIter, m) => (Ok None, mk btreeIter (numKeyElems it), m)
  | (Ok (Some p), btreeIter, m) =>
      (key <- Tuple.DecodeTuple (Pair.Key p) ;;
       value <- Tuple.DecodeTuple (Pair.Value p) ;;
       tuple <- Tuple.MergeTuple key value ;;
       Ok (Some tuple),
       mk btreeIter (numKeyElems it), m)
  end.

End TableIter.

Module SimpleTable.

(** [type SimpleTable struct { MetaPageID disk.PageID; NumKeyElems int }] *)
Record t : Type := mk { MetaPageID : Z; NumKeyElems : Z }.

(** [func Create(bufmgr, numKeyElems int)] *)
Definition Create (numKeyElems : Z) : M t :=
  tree <~ BTree.Create ;;
  retM (mk (BTree.MetaPageID tree) numKeyElems).

(** [func NewSimpleTable(metaPageID disk.PageID, numKeyElems int) *SimpleTable] *)
Definition NewSimpleTable (metaPageID numKeyElems : Z) : t :=
  mk metaPageID numKeyElems.

(** [func (t *SimpleTable) btree() *btree.BTree] *)
Definition btree (table : t) : BTree.t := BTree.NewBTree (MetaPageID table).

(** [func (t *SimpleTable) Insert(bufmgr, tuple Tuple) error] *)
Definition Insert (fuel : nat) (table : t) (tuple : Tuple.t) : M unit :=
  kv <~ liftM (Tuple.SplitTuple tuple (NumKeyElems table)) ;;
  keyBytes <~ liftM (Tuple.Encode (fst kv)) ;;
  valueBytes <~ liftM (Tuple.Encode (snd kv)) ;;
  BTree.Insert fuel (btree table) keyBytes valueBytes.

(** [func (t *SimpleTable) Scan(bufmgr)] *)
Definition Scan (fuel : nat) (table : t) : M TableIter.t :=
  iter <~ BTree.Search fuel (btree table) Search.NewSearchStart ;;
  retM (TableIter.mk iter (NumKeyElems table)).

(** [func (t *SimpleTable) ScanFrom(bufmgr, searchKey Tuple)] *)
Definition ScanFrom (fuel : nat) (table : t) (searchKey : Tuple.t)
    : M TableIter.t :=
  keyBytes <~ liftM (Tuple.Encode searchKey) ;;
  iter <~ BTree.Search fuel (btree table) (Search.NewSearchKey keyBytes) ;;
  retM (TableIter.mk iter (NumKeyElems table)).

End SimpleTable.

(** * Properties: the notions they are stated with *)

(** ** Encodings written out *)

Definition pair_bytes (p : Pair.t) : list byte :=
  le_encode 2 (wrap16 (len (Pair.Key p)))
  ++ le_encode 2 (wrap16 (len (Pair.Value p)))
  ++ Pair.Key p ++ Pair.Value p.

(** A pair with a key of 65532 bytes and an empty value. *)
Definition long_key_pair : Pair.t := Pair.mk (make 65532) [].

(** A row of the table of the package documentation, and a tuple with
    one element of 65536 bytes. *)
Definition alice : Tuple.t :=
  [list_byte_of_string "1"; list_byte_of_string "Alice"; list_byte_of_string "25"].
Definition long_tuple : Tuple.t := [make 65536].

Definition elem_bytes (e : list byte) : list byte :=
  le_encode 2 (wrap16 (len e)) ++ e.
Definition elems_bytes (es : Tuple.t) : list byte :=
  concat (map elem_bytes es).
Definition tuple_bytes (t : Tuple.t) : list byte :=
  le_encode 2 (wrap16 (len t)) ++ elems_bytes t.
Definition elems_size (es : Tuple.t) : Z :=
  foldr (fun e n => 2 + len e + n) 0 es.

(** ** Pools and executions of the manager *)

Definition max_int : Z := 9223372036854775807.

(** The [else] branch of the loop of [Evict]: the frame is in use and
    somebody holds it. *)
Definition pinned (f : Frame.t) : Prop :=
  Frame.UsageCount f <> 0 /\ Buffer.refCount (Frame.Buffer f) <> 0.

(** What every pool built by [NewBufferPool] and used through the
    manager satisfies: the cursor is an index of the pool, the pool size
    is an [int], usage counts are unsigned. *)
Definition wf_pool (p : BufferPool.t) : Prop :=
  0 <= BufferPool.nextVictimID p < BufferPool.Size p /\
  BufferPool.Size p <= max_int /\
  Forall (fun f => 0 <= Frame.UsageCount f) (BufferPool.frames p).

Definition unpinned_total (l : list Frame.t) : nat :=
  foldr (fun f n => (BufferPool.unpinned_usage f + n)%nat) 0%nat l.

Definition pinned_dec (f : Frame.t) : Decision (pinned f) :=
  ltac:(unfold pinned; apply _).
#[local] Existing Instance pinned_dec.

Inductive op : Type :=
| OpFetchPage (pageID : Z)
| OpCreatePage
| OpFlush.

Definition outcome {A} (r : result A) : option error :=
  match r with Ok _ => None | Err e => Some e end.

Definition run_op (o : op) (m : BufferPoolManager.t)
    : option error * BufferPoolManager.t :=
  match o with
  | OpFetchPage pageID =>
      let '(r, m) := BufferPoolManager.FetchPage pageID m in (outcome r, m)
  | OpCreatePage =>
      let '(r, m) := BufferPoolManager.CreatePage m in (outcome r, m)
  | OpFlush =>
      let '(r, m) := BufferPoolManager.Flush m in (outcome r, m)
  end.

(** The calls that need a frame: [CreatePage], and [FetchPage] of a page
    that is not in the page table. *)
Definition needs_frame (o : op) (m : BufferPoolManager.t) : bool :=
  match o with
  | OpFetchPage pageID =>
      bool_decide (BufferPoolManager.pageTable m !! pageID = None)
  | OpCreatePage => true
  | OpFlush => false
  end.

(** The page held by each frame. *)
Definition resident (m : BufferPoolManager.t) : list Z :=
  map (fun f => Buffer.PageID (Frame.Buffer f))
      (BufferPool.frames (BufferPoolManager.pool m)).

(** Along the execution of [ops] from [m], every call that needs a frame
    fails with [ErrNoFreeBuffer] and no frame changes its page. *)
Fixpoint starved (ops : list op) (m : BufferPoolManager.t) : Prop :=
  match ops with
  | [] => True
  | o :: rest =>
      (needs_frame o m = true -> fst (run_op o m) = Some ErrNoFreeBuffer) /\
      resident (snd (run_op o m)) = resident m /\
      starved rest (snd (run_op o m))
  end.

(** Calls made on a full pool: pages 5 and 7 are not in the page table,
    page 0 is. *)
Definition full_pool_calls : list op :=
  [OpCreatePage; OpFetchPage 7; OpFetchPage 0; OpFlush; OpFetchPage 5;
   OpCreatePage].

(** Every frame is in use and referenced, and [k] more increments fit the
    counters. *)
Definition held (k : Z) (m : BufferPoolManager.t) : Prop :=
  wf_pool (BufferPoolManager.pool m) /\
  Forall (fun f =>
            0 < Frame.UsageCount f /\
            Frame.UsageCount f + k < 18446744073709551616 /\
            0 < Buffer.refCount (Frame.Buffer f) /\
            Buffer.refCount (Frame.Buffer f) + k <= max_int)
         (BufferPool.frames (BufferPoolManager.pool m)).

(** ** Runs of the tree: creation, series of inserts, scans *)

(** A manager over a new, empty heap file. *)
Definition new_manager (poolSize : Z) : result BufferPoolManager.t :=
  pool <- BufferPool.NewBufferPool poolSize ;;
  Ok (BufferPoolManager.NewBufferPoolManager (DiskManager.NewDiskManager []) pool).

(** [tree.Insert] for each pair in turn, stopping at the first error. *)
Fixpoint insert_each (fuel : nat) (tree : BTree.t)
    (kvs : list (list byte * list byte)) : M unit :=
  match kvs with
  | [] => retM tt
  | kv :: rest =>
      _ <~ BTree.Insert fuel tree (fst kv) (snd kv) ;;
      insert_each fuel tree rest
  end.

(** [Create] on a new heap file with a pool of [poolSize] frames, then the
    inserts; [Ok] says that every call succeeded. *)
Definition tree_of (fuel : nat) (poolSize : Z) (kvs : list (list byte * list byte))
    : result (BTree.t * BufferPoolManager.t) :=
  m <- new_manager poolSize ;;
  match (tree <~ BTree.Create ;; _ <~ insert_each fuel tree kvs ;; retM tree) m with
  | (Ok tree, m) => Ok (tree, m)
  | (Err e, _) => Err e
  end.

(** [n] calls of [Next] in a row, with their results. *)
Fixpoint Nexts (n : nat) (it : Iter.t) (m : BufferPoolManager.t)
    : list (result (option Pair.t)) :=
  match n with
  | O => []
  | S n' =>
      let '(r, it, m) := Iter.Next it m in
      r :: Nexts n' it m
  end.

(** The loop of the callers: [Next] until it yields [nil], at most [n]
    times; the value is the list of pairs seen. *)
Fixpoint drain (n : nat) (it : Iter.t) (m : BufferPoolManager.t)
    : result (list Pair.t) :=
  match n with
  | O => Err OutOfFuel
  | S n' =>
      match Iter.Next it m with
      | (Err e, _, _) => Err e
      | (Ok None, _, _) => Ok []
      | (Ok (Some p), it, m) => rest <- drain n' it m ;; Ok (p :: rest)
      end
  end.

(** [tree.Search(search)] followed by the loop above. *)
Definition scan (fuel : nat) (search : Search.t)
    (tm : BTree.t * BufferPoolManager.t) : result (list Pair.t) :=
  match BTree.Search fuel (fst tm) search (snd tm) with
  | (Ok it, m) => drain 1000 it m
  | (Err e, _) => Err e
  end.

(** [tree.Search(search)] followed by one [Next]. *)
Definition lookup_first (fuel : nat) (search : Search.t)
    (tm : BTree.t * BufferPoolManager.t) : result (option Pair.t) :=
  match BTree.Search fuel (fst tm) search (snd tm) with
  | (Ok it, m) => fst (fst (Iter.Next it m))
  | (Err e, _) => Err e
  end.

(** For each key in turn, the key of the pair that [Search] with that key
    and one [Next] yield. *)
Fixpoint lookup_each (fuel : nat) (keys : list (list byte))
    (tm : BTree.t * BufferPoolManager.t) : result (list (option (list byte))) :=
  match keys with
  | [] => Ok []
  | k :: rest =>
      p <- lookup_first fuel (Search.NewSearchKey k) tm ;;
      ps <- lookup_each fuel rest tm ;;
      Ok (option_map Pair.Key p :: ps)
  end.

(** The content of a page as the tree sees it: the cached copy when the
    page is in the page table, the heap file otherwise. *)
Definition page_content (m : BufferPoolManager.t) (pageID : Z) : result (list byte) :=
  match BufferPoolManager.pageTable m !! pageID with
  | Some bufferID =>
      f <- BufferPool.frame_at (BufferPoolManager.pool m) bufferID ;;
      Ok (Buffer.Page (Frame.Buffer f))
  | None =>
      DiskManager.ReadPageData (BufferPoolManager.disk m) pageID (make PageSize)
  end.

(** The root page id stored in the meta page. *)
Definition root_of (tm : BTree.t * BufferPoolManager.t) : result Z :=
  page <- page_content (snd tm) (BTree.MetaPageID (fst tm)) ;;
  Meta.NewMeta page.

(** The keys stored in the subtree rooted at a page, left to right. *)
Fixpoint subtree_keys (fuel : nat) (m : BufferPoolManager.t) (pageID : Z)
    : result (list (list byte)) :=
  match fuel with
  | O => Err OutOfFuel
  | S fuel' =>
      page <- page_content m pageID ;;
      nodeType <- Node.NewNode page ;;
      body <- Node.Body page ;;
      if nodeType =? Node.NodeTypeLeaf then
        n <- Leaf.NumPairs body ;;
        pairs <- Leaf.collect_pairs (Z.to_nat n) body 0 ;;
        Ok (map Pair.Key pairs)
      else if nodeType =? Node.NodeTypeBranch then
        n <- Branch.NumKeys body ;;
        children <- Branch.collect_children (Z.to_nat (n + 1)) body 0 ;;
        (fix go (cs : list Z) : result (list (list byte)) :=
           match cs with
           | [] => Ok []
           | c :: cs' =>
               ks <- subtree_keys fuel' m c ;;
               rest <- go cs' ;;
               Ok (ks ++ rest)
           end) children
      else Err ErrInvalidNodeType
  end.

Definition key_lt (a b : list byte) : bool :=
  match bytes_Compare a b with Lt => true | _ => false end.
Definition key_le (a b : list byte) : bool :=
  match bytes_Compare a b with Gt => false | _ => true end.

(** The separator law at one branch page: with keys [k_0 .. k_(n-1)] and
    children [c_0 .. c_n], every key under [c_i] is below [k_i] (for
    [i < n]) and not below [k_(i-1)] (for [i > 0]). *)
Fixpoint separator_law_from (fuel : nat) (m : BufferPoolManager.t)
    (lower : option (list byte)) (keys : list (list byte)) (children : list Z)
    : result bool :=
  match children with
  | [] => Ok true
  | c :: children' =>
      ks <- subtree_keys fuel m c ;;
      let above := match lower with
                   | Some k => forallb (fun x => key_le k x) ks
                   | None => true
                   end in
      match keys with
      | [] => Ok above
      | k :: keys' =>
          rest <- separator_law_from fuel m (Some k) keys' children' ;;
          Ok (above && forallb (fun x => key_lt x k) ks && rest)
      end
  end.

Definition separator_law (fuel : nat) (m : BufferPoolManager.t) (pageID : Z)
    : result bool :=
  page <- page_content m pageID ;;
  body <- Node.Body page ;;
  n <- Branch.NumKeys body ;;
  keys <- Branch.collect_keys (Z.to_nat n) body 0 ;;
  children <- Branch.collect_children (Z.to_nat (n + 1)) body 0 ;;
  separator_law_from fuel m None keys children.

(** A branch page as the law reads it: its separator keys, and the keys
    under each of its children. *)
Definition branch_view (fuel : nat) (m : BufferPoolManager.t) (pageID : Z)
    : result (list (list byte) * list (list (list byte))) :=
  page <- page_content m pageID ;;
  body <- Node.Body page ;;
  n <- Branch.NumKeys body ;;
  keys <- Branch.collect_keys (Z.to_nat n) body 0 ;;
  children <- Branch.collect_children (Z.to_nat (n + 1)) body 0 ;;
  under <- (fix go (cs : list Z) : result (list (list (list byte))) :=
              match cs with
              | [] => Ok []
              | c :: cs' =>
                  ks <- subtree_keys fuel m c ;;
                  rest <- go cs' ;;
                  Ok (ks :: rest)
              end) children ;;
  Ok (keys, under).

(** The inputs of the scenarios. *)
Definition value_1000 : list byte := repeat "a"%byte 1000.
Definition kv (k : byte) : list byte * list byte := ([k], value_1000).

Definition five_pairs : list (list byte * list byte) :=
  [kv "1"; kv "2"; kv "3"; kv "4"; kv "5"]%byte.
Definition seven_pairs : list (list byte * list byte) :=
  five_pairs ++ [kv "6"; kv "7"]%byte.

(** The inputs of the repository's tests. *)
Definition bytes (s : string) : list byte := list_byte_of_string s.
Definition fruit : list (list byte * list byte) :=
  [(bytes "apple", bytes "1"); (bytes "banana", bytes "2");
   (bytes "cherry", bytes "3")].
Definition animals : list (list byte * list byte) :=
  map (fun k => (bytes k, bytes k ++ bytes "_value"))
      ["dog"; "cat"; "ant"; "bird"; "elephant"]%string.
Definition ten_keys : list (list byte * list byte) :=
  map (fun i => (bytes "key" ++ [byte_of_Z 48; byte_of_Z (48 + Z.of_nat i)],
                 bytes "value"))
      (seq 0 10).

(** [fmt.Sprintf("%05d", i)] for [0 <= i < 100000]. *)
Definition digits5 (i : Z) : list byte :=
  map (fun p => byte_of_Z (48 + (i / p) mod 10)) [10000; 1000; 100; 10; 1].
Definition key_value (i : nat) : list byte * list byte :=
  (list_byte_of_string "key" ++ digits5 (Z.of_nat i),
   list_byte_of_string "value" ++ digits5 (Z.of_nat i)).
Definition numbered_pairs (n : nat) : list (list byte * list byte) :=
  map key_value (seq 0 n).

(** What the root page is: its id and node type, how many pages were
    allocated and, read as a leaf, its number of pairs and free space. *)
Definition root_summary (tm : BTree.t * BufferPoolManager.t)
    : result (Z * Z * Z * Z * Z) :=
  root <- root_of tm ;;
  page <- page_content (snd tm) root ;;
  nodeType <- Node.NewNode page ;;
  body <- Node.Body page ;;
  pairs <- Leaf.NumPairs body ;;
  free <- Leaf.freeSpace body ;;
  Ok (root, nodeType,
      DiskManager.nextPageID (BufferPoolManager.disk (snd tm)),
      pairs, free).

(** ** The states of a tree that was just created *)

Definition new_frame : Frame.t := Frame.mk 0 Buffer.zero.

(** A new manager with at least two frames. *)
Definition manager2 (tl : list Frame.t) : BufferPoolManager.t :=
  BufferPoolManager.NewBufferPoolManager (DiskManager.NewDiskManager [])
    (BufferPool.mk (new_frame :: new_frame :: tl) 0).

Definition after_first (tl : list Frame.t) : BufferPoolManager.t :=
  snd (BufferPoolManager.CreatePage (manager2 tl)).
Definition after_second (tl : list Frame.t) : BufferPoolManager.t :=
  BufferPoolManager.mk
    (DiskManager.mk [] 2)
    (BufferPool.mk
       (Frame.mk 1 (Buffer.mk 0 (make PageSize) true 1 true)
        :: Frame.mk 1 (Buffer.mk 1 (make PageSize) true 1 true) :: tl) 1)
    (<[1 := 1]> (<[0 := 0]> ∅)).

(** The tree [Create] builds: page 0 is the meta page and names page 1,
    an empty leaf, as the root. *)
Definition created (tl : list Frame.t) : BufferPoolManager.t :=
  BufferPoolManager.mk
    (DiskManager.mk [] 2)
    (BufferPool.mk
       (Frame.mk 1 (Buffer.mk 0 (le_encode 8 1 ++ make 4088) true 1 true)
        :: Frame.mk 1
             (Buffer.mk 1
                (byte_of_Z Node.NodeTypeLeaf :: make 7
                 ++ le_encode 8 Leaf.InvalidPageID
                 ++ le_encode 8 Leaf.InvalidPageID
                 ++ le_encode 2 0 ++ le_encode 2 4088 ++ make 4068)
                true 1 true)
        :: tl) 1)
    (<[1 := 1]> (<[0 := 0]> ∅)).

Definition searched (tl : list Frame.t) : BufferPoolManager.t :=
  snd (BTree.Search 1 (BTree.mk 0) Search.NewSearchStart (created tl)).

(** ** The notions of the further properties *)

(** A pair of the repository's tests. *)
Definition apple_pair : Pair.t := Pair.mk (bytes "apple") (bytes "1").

(** The page ids whose byte offset fits an [int64]. *)
Definition max_page : Z := 2251799813685248.   (* 2^51 *)

(** A heap file of three pages, and a page of ones. *)
Definition ones : list byte := repeat x01 (Z.to_nat PageSize).
Definition three_pages : DiskManager.t :=
  DiskManager.NewDiskManager [make PageSize; ones; make PageSize].

(** What a sweep may do to the frames: no buffer changes, usage counts
    only go down. *)
Definition usage_lowered (l l' : list Frame.t) : Prop :=
  Forall2 (fun f f' => Frame.Buffer f' = Frame.Buffer f /\
                       0 <= Frame.UsageCount f' <= Frame.UsageCount f) l l'.

(** Every entry of the page table names a frame that holds that page. *)
Definition table_consistent (m : BufferPoolManager.t) : Prop :=
  forall pageID bufferID,
    BufferPoolManager.pageTable m !! pageID = Some bufferID ->
    exists f, BufferPool.frame_at (BufferPoolManager.pool m) bufferID = Ok f /\
              Buffer.PageID (Frame.Buffer f) = pageID /\
              Buffer.isValid (Frame.Buffer f) = true.

(** A pool in the middle of a sweep: frame 0 is free, frame 1 is in use
    and referenced, frame 2 was used and released. *)
Definition mixed_pool : BufferPool.t :=
  BufferPool.mk
    [ Frame.mk 0 Buffer.zero;
      Frame.mk 2 (Buffer.mk 7 (make PageSize) true 1 true);
      Frame.mk 3 (Buffer.mk 8 (make PageSize) false 0 true) ] 1.

(** The page a frame stands for in the page table. *)
Definition frame_page (f : Frame.t) : Z * bool :=
  (Buffer.PageID (Frame.Buffer f), Buffer.isValid (Frame.Buffer f)).

(** A frame after [Flush] wrote its page. *)
Definition flushed (f : Frame.t) : Frame.t :=
  Frame.mk (Frame.UsageCount f) (Buffer.set_IsDirty (Frame.Buffer f) false).

(** The bytes [bs] stored at offset [off] of [l], and the [n] bytes read
    there. *)
Definition write_at (l : list byte) (off : Z) (bs : list byte) : list byte :=
  take (Z.to_nat off) l ++ bs ++ drop (Z.to_nat off + length bs) l.
Definition read_at (l : list byte) (off n : Z) : list byte :=
  take (Z.to_nat n) (drop (Z.to_nat off) l).

(** [l'] is [l] but for the bytes at the offsets [lo .. hi-1]. *)
Definition same_except (l l' : list byte) (lo hi : Z) : Prop :=
  len l' = len l /\
  forall off n, 0 <= off -> 0 <= n -> off + n <= lo \/ hi <= off ->
                read_at l' off n = read_at l off n.

(** A page id that [SetPrevPageID] and [SetNextPageID] can store: nil, or
    an id other than [InvalidPageID]. *)
Definition storable (id : option Z) : Prop :=
  match id with
  | Some id => 0 <= id < Leaf.InvalidPageID
  | None => True
  end.

(** The body of a page of ones. *)
Definition body_of_ones : list byte := repeat x01 4088.

(** The bytes of pair [p] are stored at offset [off] of [l]. *)
Definition stored_at (l : list byte) (off : Z) (p : Pair.t) : Prop :=
  off + len (pair_bytes p) <= len l /\
  read_at l off (len (pair_bytes p)) = pair_bytes p.

(** The leaf body [l] holds the pairs [pairs], in slot order: the header
    counts them, the free space lies between the slot array and the free
    space offset, and slot [i] points at the bytes of the [i]-th pair,
    behind the free space. *)
Definition leaf_holds (l : list byte) (pairs : list Pair.t) : Prop :=
  len l <= 65535 /\
  Leaf.NumPairs l = Ok (len pairs) /\
  exists fso,
    Leaf.freeSpaceOffset l = Ok fso /\
    20 + 2 * len pairs <= fso <= len l /\
    forall (i : nat) (p : Pair.t), pairs !! i = Some p ->
      exists off, Leaf.getSlot l (Z.of_nat i) = Ok off /\
                  fso <= off /\ stored_at l off p.

(** The keys of [pairs] are strictly increasing in the order of
    [bytes.Compare]. *)
Definition sorted_keys (pairs : list Pair.t) : Prop :=
  forall (i j : nat) (p q : Pair.t),
    (i < j)%nat -> pairs !! i = Some p -> pairs !! j = Some q ->
    bytes_Compare (Pair.Key p) (Pair.Key q) = Lt.

(** The body of a leaf page after [Initialize]. *)
Definition empty_leaf : list byte :=
  le_encode 8 Leaf.InvalidPageID ++ le_encode 8 Leaf.InvalidPageID
  ++ le_encode 2 0 ++ le_encode 2 4088 ++ make 4068.

(** The bytes a list of pairs takes in a leaf: for each pair its slot, its
    two lengths, its key and its value. *)
Definition pairs_size (pairs : list Pair.t) : Z :=
  foldr (fun p n => 6 + len (Pair.Key p) + len (Pair.Value p) + n) 0 pairs.

(** The list that [SplitInsert] builds and its middle. *)
Definition with_new_pair (pairs : list Pair.t) (key value : list byte)
    : list Pair.t :=
  take (Leaf.insert_pos pairs key) pairs
  ++ [Pair.mk key value] ++ drop (Leaf.insert_pos pairs key) pairs.
Definition split_point (pairs : list Pair.t) : nat :=
  Z.to_nat (Z.quot (len pairs) 2).

(** Page [pageID] is cached in frame [b] with content [page]. *)
Definition cached (m : BufferPoolManager.t) (pageID b : Z) (page : list byte)
    : Prop :=
  BufferPoolManager.pageTable m !! pageID = Some b /\
  exists f, BufferPool.frame_at (BufferPoolManager.pool m) b = Ok f /\
            Buffer.Page (Frame.Buffer f) = page.

(** [m'] has the page table of [m] and the same page in every frame. *)
Definition pages_agree (m m' : BufferPoolManager.t) : Prop :=
  BufferPoolManager.pageTable m' = BufferPoolManager.pageTable m /\
  forall b f, BufferPool.frame_at (BufferPoolManager.pool m) b = Ok f ->
    exists f', BufferPool.frame_at (BufferPoolManager.pool m') b = Ok f' /\
               Buffer.Page (Frame.Buffer f') = Buffer.Page (Frame.Buffer f).

(** The root leaf of an unsplit tree, as the tree code reaches it: the
    frame [br] of the root page, and its body. *)
Definition root_leaf (tree : BTree.t) (m : BufferPoolManager.t)
    (pairs : list Pair.t) (br : Z) (body : list byte) : Prop :=
  exists bm root pageM hdr,
    bm <> br /\
    cached m (BTree.MetaPageID tree) bm pageM /\
    Meta.NewMeta pageM = Ok root /\
    cached m root br (byte_of_Z Node.NodeTypeLeaf :: hdr ++ body) /\
    length hdr = 7%nat /\
    len body = 4088 /\
    leaf_holds body pairs /\ sorted_keys pairs /\
    Leaf.freeSpace body = Ok (4068 - pairs_size pairs) /\
    Leaf.NextPageID body = Ok None.

(** A tree that has not split: the meta page names a root page that is a
    leaf without a right sibling; both pages are in the pool, in two
    frames; the leaf holds [pairs], in strictly increasing key order, and
    the rest of its 4068 bytes is free. *)
Definition unsplit_tree (tree : BTree.t) (m : BufferPoolManager.t)
    (pairs : list Pair.t) : Prop :=
  exists br body, root_leaf tree m pairs br body.

(** What a scan yields: for [Start] all the pairs, for a key the pairs
    whose key is not smaller. *)
Definition from_search (search : Search.t) (pairs : list Pair.t) : list Pair.t :=
  match Search.Mode search with
  | Search.SearchModeStart => pairs
  | Search.SearchModeKey =>
      List.filter (fun p => key_le (Search.Key search) (Pair.Key p)) pairs
  end.

(** The pair under which a table with [n] key elements stores a row. *)
Definition row_pair (n : Z) (row : Tuple.t) : Pair.t :=
  Pair.mk (tuple_bytes (take (Z.to_nat n) row))
          (tuple_bytes (drop (Z.to_nat n) row)).

(** A row the tuple format can hold. *)
Definition row_ok (row : Tuple.t) : Prop :=
  len row < 65536 /\ Forall (fun e => len e < 65536) row.

(** The loop of the package documentation: [Next] until it yields nil, at
    most [n] times. *)
Fixpoint table_drain (n : nat) (it : TableIter.t) (m : BufferPoolManager.t)
    : result (list Tuple.t) :=
  match n with
  | O => Err OutOfFuel
  | S n' =>
      match TableIter.Next it m with
      | (Err e, _, _) => Err e
      | (Ok None, _, _) => Ok []
      | (Ok (Some row), it, m) =>
          rest <- table_drain n' it m ;; Ok (row :: rest)
      end
  end.

(** A leaf with one pair, a tree with one pair and a table with one row. *)
Definition banana_pair : Pair.t := Pair.mk (bytes "banana") (bytes "2").
Definition banana_leaf : list byte :=
  match Leaf.Insert empty_leaf 0 (bytes "banana") (bytes "2") with
  | Ok (_, l) => l
  | Err _ => []
  end.
Definition apple_tree : BufferPoolManager.t :=
  snd (BTree.Insert 1 (BTree.mk 0) (bytes "apple") (bytes "1") (created [])).
Definition bob : Tuple.t :=
  [list_byte_of_string "2"; list_byte_of_string "Bob"; list_byte_of_string "30"].
Definition people : SimpleTable.t := SimpleTable.mk 0 1.
Definition alice_table : BufferPoolManager.t :=
  snd (SimpleTable.Insert 1 people alice (created [])).

(** * Facts about bytes, slices and little-endian integers *)

Section Bytes.

Lemma byte_to_Z_range (b : byte) : 0 <= byte_to_Z b < 256.
Proof.
  unfold byte_to_Z. pose proof (Byte.to_N_bounded b). lia.
Qed.

Lemma byte_of_to_Z (b : byte) : byte_of_Z (byte_to_Z b) = b.
Proof.
  unfold byte_of_Z. pose proof (byte_to_Z_range b) as Hr.
  rewrite Z.mod_small by exact Hr.
  unfold byte_to_Z. rewrite N2Z.id, Byte.of_to_N. reflexivity.
Qed.

Lemma byte_to_of_Z (z : Z) : byte_to_Z (byte_of_Z z) = z mod 256.
Proof.
  unfold byte_of_Z, byte_to_Z.
  pose proof (Z.mod_pos_bound z 256 ltac:(lia)) as Hr.
  destruct (Byte.of_N (Z.to_N (z mod 256))) as [b|] eqn:E.
  - apply Byte.to_of_N in E. rewrite E. lia.
  - apply Byte.of_N_None_iff in E. lia.
Qed.

Lemma length_le_encode (n : nat) (v : Z) : length (le_encode n v) = n.
Proof. revert v. induction n as [|n IH]; intros v; simpl; [|rewrite IH]; reflexivity. Qed.

Lemma le_decode_encode (n : nat) (v : Z) :
  le_decode (le_encode n v) = v mod 256 ^ Z.of_nat n.
Proof.
  revert v. induction n as [|n IH]; intros v.
  - simpl. rewrite Z.mod_1_r. reflexivity.
  - cbn [le_encode le_decode]. rewrite IH, byte_to_of_Z.
    rewrite Nat2Z.inj_succ, Z.pow_succ_r by lia.
    rewrite Z.rem_mul_r; [reflexivity | lia | apply Z.pow_pos_nonneg; lia].
Qed.

Lemma len_nonneg {A} (s : list A) : 0 <= len s.
Proof. unfold len. lia. Qed.

Lemma len_app {A} (s1 s2 : list A) : len (s1 ++ s2) = len s1 + len s2.
Proof. unfold len. rewrite length_app. lia. Qed.

Lemma len_le_encode (n : nat) (v : Z) : len (le_encode n v) = Z.of_nat n.
Proof. unfold len. rewrite length_le_encode. reflexivity. Qed.

Lemma len_make (n : Z) : 0 <= n -> len (make n) = n.
Proof. intros H. unfold len, make. rewrite repeat_length. lia. Qed.

Lemma make_app (n1 n2 : Z) :
  0 <= n1 -> 0 <= n2 -> make (n1 + n2) = make n1 ++ make n2.
Proof.
  intros H1 H2. unfold make. rewrite Z2Nat.inj_add by lia.
  apply repeat_app.
Qed.

(** [copy] onto a destination of the same length replaces it. *)
Lemma copy_same_length {A} (dst src : list A) :
  length dst = length src -> copy dst src = src.
Proof.
  intros H. unfold copy. rewrite H, firstn_all.
  rewrite <- H, drop_all, app_nil_r. reflexivity.
Qed.

Lemma slice_app3 {A} (pre mid post : list A) (lo hi : Z) :
  lo = len pre -> hi = len pre + len mid ->
  slice (pre ++ mid ++ post) lo hi = Ok mid.
Proof.
  intros -> ->. unfold slice.
  pose proof (len_nonneg pre). pose proof (len_nonneg mid).
  pose proof (len_nonneg post).
  rewrite !len_app.
  replace ((0 <=? len pre) && (len pre <=? len pre + len mid)
           && (len pre + len mid <=? len pre + (len mid + len post)))
    with true by (symmetry; rewrite !andb_true_iff, !Z.leb_le; lia).
  f_equal. unfold len.
  rewrite Nat2Z.id, drop_app_length.
  replace (Z.to_nat (Z.of_nat (length pre) + Z.of_nat (length mid)
                     - Z.of_nat (length pre))) with (length mid) by lia.
  apply take_app_length.
Qed.

Lemma with_slice_app3 {A} (pre mid post : list A) (lo hi : Z) f :
  lo = len pre -> hi = len pre + len mid ->
  with_slice (pre ++ mid ++ post) lo hi f =
  (v <- f mid ;; Ok (pre ++ v ++ post)).
Proof.
  intros Hlo Hhi. unfold with_slice.
  rewrite (slice_app3 pre mid post lo hi Hlo Hhi).
  destruct (f mid) as [v|e]; [|reflexivity].
  subst lo hi. unfold len. f_equal.
  rewrite Nat2Z.id, take_app_length. f_equal. f_equal.
  replace (Z.to_nat (Z.of_nat (length pre) + Z.of_nat (length mid)))
    with (length pre + length mid)%nat by lia.
  rewrite app_assoc, <- length_app, drop_app_length. reflexivity.
Qed.

Lemma with_slice_app2 {A} (mid post : list A) (hi : Z) f :
  hi = len mid ->
  with_slice (mid ++ post) 0 hi f = (v <- f mid ;; Ok (v ++ post)).
Proof.
  intros ->. apply (with_slice_app3 [] mid post 0 (len mid)); reflexivity.
Qed.

Lemma slice_app2 {A} (mid post : list A) (hi : Z) :
  hi = len mid -> slice (mid ++ post) 0 hi = Ok mid.
Proof.
  intros ->. apply (slice_app3 [] mid post 0 (len mid)); reflexivity.
Qed.

Lemma slice_from_app {A} (pre rest : list A) (lo : Z) :
  lo = len pre -> slice_from (pre ++ rest) lo = Ok rest.
Proof.
  intros ->. unfold slice_from. rewrite len_app.
  rewrite <- (app_nil_r rest) at 1.
  apply slice_app3; reflexivity.
Qed.

Lemma with_slice_from_app {A} (pre rest : list A) (lo : Z) f :
  lo = len pre ->
  with_slice_from (pre ++ rest) lo f = (v <- f rest ;; Ok (pre ++ v)).
Proof.
  intros ->. unfold with_slice_from. rewrite len_app.
  rewrite <- (app_nil_r rest) at 1.
  rewrite (with_slice_app3 pre rest [] (len pre) (len pre + len rest))
    by reflexivity.
  destruct (f rest); [rewrite app_nil_r|]; reflexivity.
Qed.

Lemma Uint16_le_encode (v : Z) (rest : list byte) :
  Uint16 (le_encode 2 v ++ rest) = Ok (wrap16 v).
Proof.
  unfold Uint16. rewrite len_app, len_le_encode.
  pose proof (len_nonneg rest).
  destruct (Z.leb_spec 2 (Z.of_nat 2 + len rest)) as [_|Hlt]; [|lia].
  rewrite (take_app_length' (le_encode 2 v) rest 2)
    by (rewrite length_le_encode; reflexivity).
  rewrite le_decode_encode. reflexivity.
Qed.

Lemma PutUint16_make (v : Z) : PutUint16 (make 2) v = Ok (le_encode 2 v).
Proof. reflexivity. Qed.

End Bytes.

(** * The pair codec *)

Section PairCodec.

(** [ToBytes] never fails, and lays the pair out as two length fields
    followed by the key and the value. *)
Lemma ToBytes_eq (p : Pair.t) : Pair.ToBytes p = Ok (pair_bytes p).
Proof.
  unfold Pair.ToBytes, pair_bytes.
  set (k := Pair.Key p). set (v := Pair.Value p).
  pose proof (len_nonneg k) as Hk. pose proof (len_nonneg v) as Hv.
  replace (4 + len k + len v) with (2 + (2 + (len k + len v))) by lia.
  rewrite (make_app 2), (make_app 2 (len k + len v)), (make_app (len k)) by lia.
  rewrite (with_slice_app2 (make 2) _ 2) by reflexivity.
  rewrite PutUint16_make.
  rewrite (with_slice_app3 (le_encode 2 _) (make 2) _ 2 4) by reflexivity.
  rewrite PutUint16_make.
  rewrite (app_assoc (le_encode 2 (wrap16 (len k)))).
  rewrite (with_slice_app3 _ (make (len k)) (make (len v)) 4 (4 + len k))
    by (rewrite ?len_app, ?len_le_encode, ?len_make by lia; lia).
  rewrite copy_same_length by (unfold make; rewrite repeat_length; unfold len; lia).
  rewrite (app_assoc _ k).
  rewrite with_slice_from_app
    by (rewrite !len_app, !len_le_encode; unfold k; lia).
  rewrite copy_same_length by (unfold make; rewrite repeat_length; unfold len; lia).
  rewrite <- !app_assoc. reflexivity.
Qed.

Lemma Uint16_le_encode_2 (v : Z) : Uint16 (le_encode 2 v) = Ok (wrap16 v).
Proof.
  rewrite <- (app_nil_r (le_encode 2 v)). apply Uint16_le_encode.
Qed.

Lemma wrap16_small (z : Z) : 0 <= z < 65536 -> wrap16 z = z.
Proof. intros H. unfold wrap16. apply Z.mod_small. exact H. Qed.

(** Decoding what [ToBytes] wrote gives the pair back, also when more
    bytes follow (as in a leaf), as long as [4+keyLen] fits [uint16]. *)
Lemma PairFromBytes_pair_bytes (p : Pair.t) (rest : list byte) :
  len (Pair.Key p) <= 65531 -> len (Pair.Value p) <= 65535 ->
  Pair.PairFromBytes (pair_bytes p ++ rest) = Ok p.
Proof.
  destruct p as [k v]. unfold pair_bytes. cbn [Pair.Key Pair.Value].
  intros Hk Hv.
  pose proof (len_nonneg k) as Hk0. pose proof (len_nonneg v) as Hv0.
  rewrite (wrap16_small (len k)), (wrap16_small (len v)) by lia.
  unfold Pair.PairFromBytes.
  rewrite <- !app_assoc.
  rewrite (slice_app2 (le_encode 2 (len k)) _ 2) by reflexivity.
  rewrite Uint16_le_encode_2, (wrap16_small (len k)) by lia.
  rewrite (slice_app3 (le_encode 2 (len k)) (le_encode 2 (len v)) _ 2 4)
    by reflexivity.
  rewrite Uint16_le_encode_2, (wrap16_small (len v)) by lia.
  rewrite (wrap16_small (4 + len k)) by lia.
  rewrite (app_assoc (le_encode 2 (len k))).
  rewrite (slice_app3 _ k (v ++ rest) 4 (4 + len k))
    by (rewrite ?len_app, ?len_le_encode; lia).
  rewrite (app_assoc _ k).
  rewrite (slice_app3 _ v rest (4 + len k) (4 + len k + len v))
    by (rewrite ?len_app, ?len_le_encode; lia).
  rewrite !copy_same_length
    by (unfold make; rewrite repeat_length; unfold len; lia).
  reflexivity.
Qed.

(** The round trip of the codec for keys of at most 65531 bytes. *)
Lemma PairFromBytes_ToBytes (p : Pair.t) :
  len (Pair.Key p) <= 65531 -> len (Pair.Value p) <= 65535 ->
  (b <- Pair.ToBytes p ;; Pair.PairFromBytes b) = Ok p.
Proof.
  intros Hk Hv. rewrite ToBytes_eq.
  rewrite <- (app_nil_r (pair_bytes p)).
  apply PairFromBytes_pair_bytes; assumption.
Qed.

Lemma slice_inverted {A} (s : list A) (lo hi : Z) :
  hi < lo -> slice s lo hi = Err Panic.
Proof.
  intros H. unfold slice.
  destruct (Z.leb_spec lo hi); [lia|].
  rewrite andb_false_r. reflexivity.
Qed.

End PairCodec.

(** C8. The round trip of the pair codec holds for keys of up to 65531
    bytes ([PairFromBytes_ToBytes]) and fails above: for every pair whose
    key is 65532 to 65535 bytes long and whose value is shorter than 2^16
    bytes, [PairFromBytes] panics on the bytes [ToBytes] wrote, because
    the slice bound [4+keyLen] is computed on [uint16] and wraps. *)
Theorem PairFromBytes_ToBytes_long_key (p : Pair.t) :
  65532 <= len (Pair.Key p) < 65536 -> len (Pair.Value p) < 65536 ->
  (b <- Pair.ToBytes p ;; Pair.PairFromBytes b) = Err Panic.
Proof.
  destruct p as [k v]. cbn [Pair.Key Pair.Value]. intros Hk Hv.
  pose proof (len_nonneg v) as Hv0.
  rewrite ToBytes_eq. unfold pair_bytes. cbn [Pair.Key Pair.Value].
  rewrite (wrap16_small (len k)), (wrap16_small (len v)) by lia.
  unfold Pair.PairFromBytes.
  rewrite (slice_app2 (le_encode 2 (len k)) _ 2) by reflexivity.
  rewrite Uint16_le_encode_2, (wrap16_small (len k)) by lia.
  rewrite (slice_app3 (le_encode 2 (len k)) (le_encode 2 (len v)) _ 2 4)
    by reflexivity.
  rewrite Uint16_le_encode_2, (wrap16_small (len v)) by lia.
  rewrite slice_inverted; [reflexivity|].
  unfold wrap16.
  replace (4 + len k) with (len k - 65532 + 1 * 65536) by lia.
  rewrite Z.mod_add by lia. rewrite Z.mod_small by lia. lia.
Qed.

Lemma PairFromBytes_ToBytes_long_key_witness :
  len (Pair.Key long_key_pair) = 65532 /\
  (b <- Pair.ToBytes long_key_pair ;; Pair.PairFromBytes b) = Err Panic.
Proof.
  split; [reflexivity|].
  apply (PairFromBytes_ToBytes_long_key long_key_pair); vm_compute; split; congruence.
Defined.

(** * Tuples *)

Section TupleCodec.

Lemma elems_size_nonneg (es : Tuple.t) : 0 <= elems_size es.
Proof.
  induction es as [|e es IH]; simpl; [lia|].
  pose proof (len_nonneg e). lia.
Qed.

Lemma Encode_size (es : Tuple.t) (a : Z) :
  fold_left (fun size elem => size + (2 + len elem)) es a = a + elems_size es.
Proof.
  revert a. induction es as [|e es IH]; intros a; simpl; [lia|].
  rewrite IH. lia.
Qed.

Lemma PutUint16_make_app (v : Z) (rest : list byte) :
  PutUint16 (make 2 ++ rest) v = Ok (le_encode 2 v ++ rest).
Proof.
  unfold PutUint16. rewrite len_app. pose proof (len_nonneg rest).
  destruct (Z.leb_spec 2 (len (make 2) + len rest)) as [_|Hlt];
    [reflexivity | rewrite len_make in Hlt; lia].
Qed.

Lemma copy_app {A} (dst rest src : list A) :
  length dst = length src -> copy (dst ++ rest) src = src ++ rest.
Proof.
  intros H. unfold copy. rewrite length_app.
  rewrite take_ge by lia. rewrite <- H, drop_app_length. reflexivity.
Qed.

Lemma Encode_elems_eq (es : Tuple.t) (pre : list byte) :
  Tuple.Encode_elems es (pre ++ make (elems_size es)) (len pre) =
  Ok (pre ++ elems_bytes es).
Proof.
  revert pre. induction es as [|e es IH]; intros pre.
  - simpl. reflexivity.
  - cbn [Tuple.Encode_elems elems_size foldr].
    fold (elems_size es).
    pose proof (len_nonneg e). pose proof (elems_size_nonneg es).
    rewrite <- Z.add_assoc, (make_app 2), (make_app (len e)) by lia.
    rewrite with_slice_from_app by reflexivity.
    rewrite PutUint16_make_app.
    rewrite (app_assoc pre).
    rewrite with_slice_from_app
      by (rewrite len_app, len_le_encode; lia).
    rewrite copy_app by (unfold make; rewrite repeat_length; unfold len; lia).
    rewrite (app_assoc _ e).
    replace (len pre + 2 + len e)
      with (len ((pre ++ le_encode 2 (wrap16 (len e))) ++ e))
      by (rewrite !len_app, len_le_encode; lia).
    rewrite IH. unfold elems_bytes, elem_bytes. cbn [map concat].
    rewrite <- !app_assoc. reflexivity.
Qed.

(** [Encode] never fails and writes the element count followed by the
    length-prefixed elements. *)
Lemma Encode_eq (t : Tuple.t) : Tuple.Encode t = Ok (tuple_bytes t).
Proof.
  unfold Tuple.Encode, tuple_bytes.
  rewrite Encode_size. pose proof (elems_size_nonneg t).
  rewrite (make_app 2) by lia.
  rewrite (with_slice_from_app [] (make 2 ++ make (elems_size t)) 0)
    by reflexivity.
  rewrite PutUint16_make_app. cbn [app].
  apply (Encode_elems_eq t (le_encode 2 (wrap16 (len t)))).
Qed.

Lemma Decode_elems_eq (es : Tuple.t) (pre : list byte) :
  Forall (fun e => len e < 65536) es ->
  Tuple.Decode_elems (length es) (pre ++ elems_bytes es) (len pre) = Ok es.
Proof.
  revert pre. induction es as [|e es IH]; intros pre Hes.
  - reflexivity.
  - inversion Hes as [|? ? He Hes']; subst.
    pose proof (len_nonneg e).
    cbn [length Tuple.Decode_elems].
    unfold elems_bytes. cbn [map concat]. fold (elems_bytes es).
    unfold elem_bytes.
    rewrite slice_from_app by reflexivity.
    rewrite <- app_assoc, Uint16_le_encode.
    rewrite wrap16_small by lia.
    rewrite wrap16_small by lia.
    rewrite (app_assoc pre).
    rewrite (slice_app3 _ e (elems_bytes es) (len pre + 2) (len pre + 2 + len e))
      by (rewrite ?len_app, ?len_le_encode; lia).
    rewrite copy_same_length
      by (unfold make; rewrite repeat_length; unfold len; lia).
    rewrite (app_assoc _ e).
    replace (len pre + 2 + len e)
      with (len ((pre ++ le_encode 2 (len e)) ++ e))
      by (rewrite !len_app, len_le_encode; lia).
    rewrite IH by assumption. reflexivity.
Qed.

Lemma DecodeTuple_tuple_bytes (t : Tuple.t) :
  len t < 65536 -> Forall (fun e => len e < 65536) t ->
  Tuple.DecodeTuple (tuple_bytes t) = Ok t.
Proof.
  intros Ht Hes. unfold Tuple.DecodeTuple, tuple_bytes.
  pose proof (len_nonneg t).
  rewrite (slice_app2 (le_encode 2 _) _ 2) by reflexivity.
  rewrite Uint16_le_encode_2, !(wrap16_small (len t)) by lia.
  unfold len at 1. rewrite Nat2Z.id.
  apply (Decode_elems_eq t (le_encode 2 (len t))). assumption.
Qed.

Lemma MergeTuple_eq (key value : Tuple.t) :
  Tuple.MergeTuple key value = Ok (key ++ value).
Proof.
  unfold Tuple.MergeTuple.
  pose proof (len_nonneg key). pose proof (len_nonneg value).
  rewrite Z2Nat.inj_add, repeat_app by lia.
  rewrite copy_app by (rewrite repeat_length; unfold len; lia).
  rewrite with_slice_from_app by reflexivity.
  rewrite copy_same_length by (rewrite repeat_length; unfold len; lia).
  reflexivity.
Qed.

Lemma SplitTuple_eq (t : Tuple.t) (n : Z) :
  0 <= n <= len t ->
  Tuple.SplitTuple t n = Ok (take (Z.to_nat n) t, drop (Z.to_nat n) t).
Proof.
  intros Hn. unfold Tuple.SplitTuple.
  destruct (Z.ltb_spec (len t) n) as [Hlt|_]; [lia|].
  assert (Hl : n = len (take (Z.to_nat n) t))
    by (unfold len; rewrite length_take; unfold len in Hn; lia).
  assert (H1 : slice t 0 n = Ok (take (Z.to_nat n) t)).
  { rewrite <- (take_drop (Z.to_nat n) t) at 1.
    apply slice_app2. exact Hl. }
  assert (H2 : slice_from t n = Ok (drop (Z.to_nat n) t)).
  { rewrite <- (take_drop (Z.to_nat n) t) at 1.
    apply slice_from_app. exact Hl. }
  rewrite H1, H2. reflexivity.
Qed.

End TupleCodec.

(** C9, as amended.  For every tuple of fewer than 2^16 elements, each
    shorter than 2^16 bytes, [DecodeTuple] gives the tuple back from the
    bytes [Encode] wrote; and for every tuple [t] and every [n] with
    [0 <= n <= |t|], [MergeTuple] gives [t] back from the two halves of
    [SplitTuple t n]. *)
Theorem Tuple_round_trips (t : Tuple.t) :
  (len t < 65536 -> Forall (fun e => len e < 65536) t ->
   (b <- Tuple.Encode t ;; Tuple.DecodeTuple b) = Ok t) /\
  (forall n, 0 <= n <= len t ->
     (kv <- Tuple.SplitTuple t n ;; Tuple.MergeTuple (fst kv) (snd kv)) = Ok t).
Proof.
  split.
  - intros Ht Hes. rewrite Encode_eq. apply DecodeTuple_tuple_bytes; assumption.
  - intros n Hn. rewrite (SplitTuple_eq t n Hn). cbn [fst snd].
    rewrite MergeTuple_eq, take_drop. reflexivity.
Qed.

Lemma Tuple_round_trips_witness :
  (b <- Tuple.Encode alice ;; Tuple.DecodeTuple b) = Ok alice /\
  (kv <- Tuple.SplitTuple alice 1 ;; Tuple.MergeTuple (fst kv) (snd kv)) = Ok alice.
Proof.
  destruct (Tuple_round_trips alice) as [H1 H2]. split.
  - apply H1; [vm_compute; reflexivity|].
    repeat constructor; vm_compute; reflexivity.
  - apply H2. vm_compute. split; congruence.
Defined.

(** The first half of C9 fails without the bounds: an element of 65536
    bytes is written with length 0 and decoded as the empty element. *)
Lemma DecodeTuple_Encode_long_element :
  (b <- Tuple.Encode long_tuple ;; Tuple.DecodeTuple b) <> Ok long_tuple.
Proof.
  assert (H : (b <- Tuple.Encode long_tuple ;; Tuple.DecodeTuple b) = Ok [[]])
    by (vm_compute; reflexivity).
  rewrite H. intros Heq.
  apply (f_equal (fun r => match r with
                           | Ok [e] => len e
                           | _ => 0
                           end)) in Heq.
  vm_compute in Heq. discriminate Heq.
Qed.

(** * Clock-sweep eviction *)

(** A property of every frame of an explicit list of frames. *)
Ltac each_frame :=
  repeat (apply List.Forall_cons;
          [unfold pinned, max_int;
           cbn [Frame.UsageCount Frame.Buffer Buffer.refCount]; lia|]);
  apply List.Forall_nil.

Section Evict.

Lemma wint_small (z : Z) : - max_int - 1 <= z <= max_int -> wint z = z.
Proof.
  unfold wint, max_int. intros H.
  rewrite Z.mod_small by lia. lia.
Qed.

Lemma wrap64_small (z : Z) : 0 <= z < 18446744073709551616 -> wrap64 z = z.
Proof. intros H. unfold wrap64. apply Z.mod_small. exact H. Qed.

Lemma incrementID_eq (p : BufferPool.t) (i : Z) :
  0 <= i < BufferPool.Size p -> BufferPool.Size p <= max_int ->
  BufferPool.incrementID p i = Ok ((i + 1) mod BufferPool.Size p).
Proof.
  intros Hi Hs. unfold BufferPool.incrementID.
  destruct (Z.eqb_spec (BufferPool.Size p) 0) as [E|_]; [lia|].
  unfold max_int in Hs.
  rewrite (wint_small i), (wint_small (i + 1)) by (unfold max_int; lia).
  rewrite Z.rem_mod_nonneg by lia.
  pose proof (Z.mod_pos_bound (i + 1) (BufferPool.Size p) ltac:(lia)).
  rewrite wrap64_small by lia. reflexivity.
Qed.

Lemma frame_at_Ok (p : BufferPool.t) (i : Z) (f : Frame.t) :
  BufferPool.frame_at p i = Ok f <->
  0 <= i /\ BufferPool.frames p !! Z.to_nat i = Some f.
Proof.
  unfold BufferPool.frame_at.
  destruct (Z.ltb_spec i 0) as [Hlt|Hge].
  - split; [discriminate | lia].
  - destruct (BufferPool.frames p !! Z.to_nat i) as [g|].
    + split; [intros [= ->]; auto | intros [_ [= ->]]; reflexivity].
    + split; [discriminate | intros [_ [=]]].
Qed.

Lemma frame_at_in_range (p : BufferPool.t) (i : Z) :
  0 <= i < BufferPool.Size p -> exists f, BufferPool.frame_at p i = Ok f.
Proof.
  intros Hi. unfold BufferPool.Size, len in Hi.
  destruct (lookup_lt_is_Some_2 (BufferPool.frames p) (Z.to_nat i)) as [f Hf];
    [lia|].
  exists f. apply frame_at_Ok. split; [lia | exact Hf].
Qed.

(** One iteration of the loop, case by case. *)
Lemma Evict_loop_found fuel p c f :
  BufferPool.frame_at p (BufferPool.nextVictimID p) = Ok f ->
  Frame.UsageCount f = 0 ->
  BufferPool.Evict_loop (S fuel) p c = (Ok (BufferPool.nextVictimID p), p).
Proof.
  intros Hf Hu. cbn [BufferPool.Evict_loop]. rewrite Hf, Hu. reflexivity.
Qed.

Lemma Evict_loop_unpinned fuel p c f :
  wf_pool p ->
  BufferPool.frame_at p (BufferPool.nextVictimID p) = Ok f ->
  Frame.UsageCount f <> 0 ->
  Buffer.refCount (Frame.Buffer f) = 0 ->
  BufferPool.Evict_loop (S fuel) p c =
  BufferPool.Evict_loop fuel
    (BufferPool.mk
       (<[Z.to_nat (BufferPool.nextVictimID p) :=
            Frame.set_UsageCount f (wrap64 (Frame.UsageCount f - 1))]>
          (BufferPool.frames p))
       ((BufferPool.nextVictimID p + 1) mod BufferPool.Size p))
    0.
Proof.
  intros (Hnv & Hsz & _) Hf Hu Hr. cbn [BufferPool.Evict_loop].
  rewrite Hf.
  destruct (Z.eqb_spec (Frame.UsageCount f) 0) as [E|_]; [contradiction|].
  rewrite Hr. cbn [Z.eqb].
  rewrite incrementID_eq.
  - unfold BufferPool.set_nextVictimID, BufferPool.set_frame, BufferPool.Size.
    cbn [BufferPool.frames BufferPool.nextVictimID].
    unfold len. rewrite length_insert. reflexivity.
  - unfold BufferPool.set_frame, BufferPool.Size. cbn.
    unfold len. rewrite length_insert. exact Hnv.
  - unfold BufferPool.set_frame, BufferPool.Size. cbn.
    unfold len. rewrite length_insert. exact Hsz.
Qed.

Lemma Evict_loop_pinned fuel p c f :
  wf_pool p -> 0 <= c < BufferPool.Size p ->
  BufferPool.frame_at p (BufferPool.nextVictimID p) = Ok f ->
  pinned f ->
  BufferPool.Evict_loop (S fuel) p c =
  if BufferPool.Size p <=? c + 1 then (Err ErrNoFreeBuffer, p)
  else BufferPool.Evict_loop fuel
         (BufferPool.set_nextVictimID p
            ((BufferPool.nextVictimID p + 1) mod BufferPool.Size p))
         (c + 1).
Proof.
  intros (Hnv & Hsz & _) Hc Hf [Hu Hr]. cbn [BufferPool.Evict_loop].
  rewrite Hf.
  destruct (Z.eqb_spec (Frame.UsageCount f) 0) as [E|_]; [contradiction|].
  destruct (Z.eqb_spec (Buffer.refCount (Frame.Buffer f)) 0) as [E|_];
    [contradiction|].
  rewrite wint_small by (unfold max_int in *; lia).
  destruct (BufferPool.Size p <=? c + 1); [reflexivity|].
  rewrite incrementID_eq by assumption. reflexivity.
Qed.

(** A successful sweep stops on a frame with usage count zero and leaves
    the cursor on it. *)
Lemma Evict_loop_Ok (fuel : nat) (p : BufferPool.t) (c : Z) idx p' :
  BufferPool.Evict_loop fuel p c = (Ok idx, p') ->
  BufferPool.nextVictimID p' = idx /\
  exists f, BufferPool.frame_at p' idx = Ok f /\ Frame.UsageCount f = 0.
Proof.
  revert p c. induction fuel as [|fuel IH]; intros p c H.
  - discriminate.
  - cbn [BufferPool.Evict_loop] in H.
    destruct (BufferPool.frame_at p (BufferPool.nextVictimID p)) as [f|e] eqn:Hf;
      [|discriminate].
    destruct (Z.eqb_spec (Frame.UsageCount f) 0) as [Hu|Hu].
    + injection H as <- <-. split; [reflexivity|]. exists f. auto.
    + destruct (Buffer.refCount (Frame.Buffer f) =? 0).
      * destruct (BufferPool.incrementID _ _) as [next|e]; [|discriminate].
        apply IH in H. exact H.
      * destruct (BufferPool.Size p <=? wint (c + 1)); [discriminate|].
        destruct (BufferPool.incrementID _ _) as [next|e]; [|discriminate].
        apply IH in H. exact H.
Qed.

Lemma wf_pool_set_nextVictimID (p : BufferPool.t) :
  wf_pool p ->
  wf_pool (BufferPool.set_nextVictimID p
             ((BufferPool.nextVictimID p + 1) mod BufferPool.Size p)).
Proof.
  intros (Hnv & Hsz & Hu). split; [|split]; [|exact Hsz|exact Hu].
  unfold BufferPool.set_nextVictimID, BufferPool.Size in *.
  cbn [BufferPool.frames BufferPool.nextVictimID].
  apply Z.mod_pos_bound. lia.
Qed.

Lemma pinned_at (p : BufferPool.t) :
  wf_pool p -> Forall pinned (BufferPool.frames p) ->
  exists f, BufferPool.frame_at p (BufferPool.nextVictimID p) = Ok f /\ pinned f.
Proof.
  intros (Hnv & _) Hall.
  destruct (frame_at_in_range p _ Hnv) as [f Hf].
  exists f. split; [exact Hf|].
  apply frame_at_Ok in Hf as [_ Hf].
  eapply Forall_lookup_1; eassumption.
Qed.

(** When every frame is pinned the sweep gives up after one lap, and no
    frame was touched. *)
Lemma Evict_loop_all_pinned (fuel : nat) (p : BufferPool.t) (c : Z) :
  wf_pool p -> Forall pinned (BufferPool.frames p) ->
  0 <= c < BufferPool.Size p ->
  (Z.to_nat (BufferPool.Size p - c) <= fuel)%nat ->
  exists p', BufferPool.Evict_loop fuel p c = (Err ErrNoFreeBuffer, p') /\
             BufferPool.frames p' = BufferPool.frames p /\ wf_pool p'.
Proof.
  revert p c. induction fuel as [|fuel IH]; intros p c Hwf Hall Hc Hfuel.
  - lia.
  - destruct (pinned_at p Hwf Hall) as (f & Hf & Hp).
    rewrite (Evict_loop_pinned fuel p c f Hwf Hc Hf Hp).
    destruct (Z.leb_spec (BufferPool.Size p) (c + 1)) as [Hle|Hgt].
    + exists p. auto.
    + destruct (IH (BufferPool.set_nextVictimID p
                      ((BufferPool.nextVictimID p + 1) mod BufferPool.Size p))
                   (c + 1)) as (p' & Hr & Hfr & Hwf').
      * apply wf_pool_set_nextVictimID. exact Hwf.
      * exact Hall.
      * cbn. unfold BufferPool.Size in *. cbn. lia.
      * unfold BufferPool.Size in *. cbn. lia.
      * exists p'. auto.
Qed.

Lemma unpinned_total_insert (l : list Frame.t) (i : nat) (f f' : Frame.t) :
  l !! i = Some f ->
  (unpinned_total (<[i := f']> l) + BufferPool.unpinned_usage f =
   unpinned_total l + BufferPool.unpinned_usage f')%nat.
Proof.
  unfold unpinned_total.
  revert i. induction l as [|g l IH]; intros i H.
  - discriminate.
  - destruct i as [|i]; cbn -[BufferPool.unpinned_usage] in *.
    + injection H as ->. lia.
    + rewrite <- !Nat.add_assoc. f_equal. exact (IH i H).
Qed.

(** As long as some frame is not pinned, the sweep finds a victim within
    its bound. *)
Lemma Evict_loop_free (fuel : nat) (p : BufferPool.t) (c d : Z) (g : Frame.t) :
  wf_pool p -> 0 <= c -> 0 <= d -> c + d < BufferPool.Size p ->
  BufferPool.frames p
    !! Z.to_nat ((BufferPool.nextVictimID p + d) mod BufferPool.Size p) = Some g ->
  ~ pinned g ->
  (unpinned_total (BufferPool.frames p) * length (BufferPool.frames p)
   + Z.to_nat (BufferPool.Size p - c) <= fuel)%nat ->
  exists idx p', BufferPool.Evict_loop fuel p c = (Ok idx, p').
Proof.
  revert p c d g.
  induction fuel as [|fuel IH]; intros p c d g Hwf Hc Hd Hcd Hg Hfree Hfuel.
  - lia.
  - pose proof Hwf as (Hnv & Hsz & Hus).
    destruct (frame_at_in_range p _ Hnv) as [f Hf].
    pose proof Hf as Hf'. apply frame_at_Ok in Hf' as [_ Hf'].
    destruct (Z.eq_dec (Frame.UsageCount f) 0) as [Hu|Hu].
    { rewrite (Evict_loop_found fuel p c f Hf Hu). eauto. }
    destruct (Z.eq_dec (Buffer.refCount (Frame.Buffer f)) 0) as [Hr|Hr].
    + rewrite (Evict_loop_unpinned fuel p c f Hwf Hf Hu Hr).
      set (f' := Frame.set_UsageCount f (wrap64 (Frame.UsageCount f - 1))).
      assert (Hlen : (Z.to_nat (BufferPool.nextVictimID p)
                      < length (BufferPool.frames p))%nat)
        by (unfold BufferPool.Size, len in Hnv; lia).
      assert (Hf0 : 0 <= Frame.UsageCount f)
        by (eapply (Forall_lookup_1 _ _ _ _ Hus); exact Hf').
      apply (IH _ 0 (BufferPool.Size p - 1) f').
      * split; [|split]; unfold BufferPool.Size in *;
          cbn [BufferPool.frames BufferPool.nextVictimID];
          unfold len in *; rewrite ?length_insert.
        -- apply Z.mod_pos_bound. lia.
        -- exact Hsz.
        -- apply Forall_insert; [exact Hus|].
           unfold f'. cbn. unfold wrap64.
           apply Z.mod_pos_bound. lia.
      * lia.
      * lia.
      * unfold BufferPool.Size in *.
        cbn [BufferPool.frames BufferPool.nextVictimID].
        unfold len in *. rewrite length_insert. lia.
      * unfold BufferPool.Size in *.
        cbn [BufferPool.frames BufferPool.nextVictimID].
        unfold len in *. rewrite length_insert.
        rewrite Z.add_mod_idemp_l by lia.
        replace (BufferPool.nextVictimID p + 1
                 + (Z.of_nat (length (BufferPool.frames p)) - 1))
          with (BufferPool.nextVictimID p
                + 1 * Z.of_nat (length (BufferPool.frames p))) by lia.
        rewrite Z.mod_add, Z.mod_small by lia.
        apply list_lookup_insert_eq. exact Hlen.
      * unfold pinned, f'. cbn. tauto.
      * unfold BufferPool.Size in *.
        cbn [BufferPool.frames BufferPool.nextVictimID].
        unfold len in *. rewrite length_insert.
        pose proof (unpinned_total_insert _ _ f f' Hf') as Ht.
        assert (Hdec : (BufferPool.unpinned_usage f' < BufferPool.unpinned_usage f)%nat).
        { unfold BufferPool.unpinned_usage, f'. cbn. rewrite Hr. cbn.
          unfold wrap64.
          pose proof (Z.mod_le (Frame.UsageCount f - 1) 18446744073709551616
                        ltac:(lia) ltac:(lia)).
          pose proof (Z.mod_pos_bound (Frame.UsageCount f - 1)
                        18446744073709551616 ltac:(lia)).
          lia. }
        nia.
    + assert (Hp : pinned f) by (split; assumption).
      assert (Hd0 : d <> 0).
      { intros ->. rewrite Z.add_0_r, Z.mod_small in Hg by lia.
        rewrite Hf' in Hg. injection Hg as ->. contradiction. }
      rewrite (Evict_loop_pinned fuel p c f Hwf ltac:(lia) Hf Hp).
      destruct (Z.leb_spec (BufferPool.Size p) (c + 1)) as [Hle|Hgt]; [lia|].
      apply (IH _ (c + 1) (d - 1) g).
      * apply wf_pool_set_nextVictimID. exact Hwf.
      * lia.
      * lia.
      * unfold BufferPool.Size in *. cbn. lia.
      * unfold BufferPool.Size in *.
        cbn [BufferPool.set_nextVictimID BufferPool.frames BufferPool.nextVictimID].
        rewrite Z.add_mod_idemp_l by lia.
        replace (BufferPool.nextVictimID p + 1 + (d - 1))
          with (BufferPool.nextVictimID p + d) by lia.
        exact Hg.
      * exact Hfree.
      * unfold BufferPool.Size in *. cbn [BufferPool.set_nextVictimID BufferPool.frames]. lia.
Qed.

(** The sweep changes only frames that are not referenced. *)
Lemma Evict_loop_keeps_referenced (fuel : nat) (p : BufferPool.t) (c : Z) r p'
    (i : nat) (f : Frame.t) :
  BufferPool.Evict_loop fuel p c = (r, p') ->
  BufferPool.frames p !! i = Some f ->
  Buffer.refCount (Frame.Buffer f) <> 0 ->
  BufferPool.frames p' !! i = Some f.
Proof.
  revert p c. induction fuel as [|fuel IH]; intros p c H Hi Hf.
  - injection H as <- <-. exact Hi.
  - cbn [BufferPool.Evict_loop] in H.
    destruct (BufferPool.frame_at p (BufferPool.nextVictimID p)) as [g|e] eqn:Hg;
      [|injection H as <- <-; exact Hi].
    destruct (Frame.UsageCount g =? 0); [injection H as <- <-; exact Hi|].
    destruct (Z.eqb_spec (Buffer.refCount (Frame.Buffer g)) 0) as [Hr|Hr].
    + destruct (BufferPool.incrementID _ _) as [next|e];
        [|injection H as <- <-].
      * apply IH in H; [exact H| |exact Hf].
        cbn [BufferPool.set_nextVictimID BufferPool.set_frame BufferPool.frames].
        apply frame_at_Ok in Hg as [_ Hg].
        rewrite list_lookup_insert_ne; [exact Hi|].
        intros <-. rewrite Hg in Hi. injection Hi as ->. contradiction.
      * cbn [BufferPool.set_frame BufferPool.frames].
        apply frame_at_Ok in Hg as [_ Hg].
        rewrite list_lookup_insert_ne; [exact Hi|].
        intros <-. rewrite Hg in Hi. injection Hi as ->. contradiction.
    + destruct (BufferPool.Size p <=? wint (c + 1));
        [injection H as <- <-; exact Hi|].
      destruct (BufferPool.incrementID _ _) as [next|e];
        [|injection H as <- <-; exact Hi].
      apply IH in H; [exact H|exact Hi|exact Hf].
Qed.

(** The victim is never a pinned frame: a buffer that a caller fetched
    and still holds is not handed out again. *)
Lemma Evict_spares_pinned (p p' : BufferPool.t) (idx i : Z) (f : Frame.t) :
  BufferPool.Evict p = (Ok idx, p') ->
  BufferPool.frame_at p i = Ok f -> pinned f -> idx <> i.
Proof.
  intros H Hi [Hu Hr] ->. unfold BufferPool.Evict in H.
  apply frame_at_Ok in Hi as [Hi0 Hi].
  pose proof (Evict_loop_keeps_referenced _ _ _ _ _ _ _ H Hi Hr) as Hkeep.
  apply Evict_loop_Ok in H as (_ & g & Hg & Hg0).
  apply frame_at_Ok in Hg as [_ Hg]. rewrite Hkeep in Hg.
  injection Hg as ->. contradiction.
Qed.

Lemma sweep_bound_eq (p : BufferPool.t) :
  BufferPool.sweep_bound p =
  (unpinned_total (BufferPool.frames p) * length (BufferPool.frames p)
   + Z.to_nat (BufferPool.Size p - 0))%nat.
Proof.
  unfold BufferPool.sweep_bound, unpinned_total, BufferPool.Size, len.
  rewrite Z.sub_0_r, Nat2Z.id. lia.
Qed.

Lemma Evict_all_pinned (p : BufferPool.t) :
  wf_pool p -> Forall pinned (BufferPool.frames p) ->
  exists p', BufferPool.Evict p = (Err ErrNoFreeBuffer, p') /\
             BufferPool.frames p' = BufferPool.frames p /\ wf_pool p'.
Proof.
  intros Hwf Hall. unfold BufferPool.Evict.
  apply Evict_loop_all_pinned; try assumption.
  - destruct Hwf as (Hnv & _). lia.
  - rewrite sweep_bound_eq. lia.
Qed.

Lemma Evict_free (p : BufferPool.t) :
  wf_pool p -> ~ Forall pinned (BufferPool.frames p) ->
  exists idx p', BufferPool.Evict p = (Ok idx, p').
Proof.
  intros Hwf Hnot. pose proof Hwf as (Hnv & Hsz & _).
  apply not_Forall_Exists in Hnot; [|apply _].
  apply Exists_exists in Hnot as (g & Hin & Hg).
  apply list_elem_of_lookup in Hin as [i Hi].
  pose proof (lookup_lt_Some _ _ _ Hi) as Hlt.
  unfold BufferPool.Evict.
  apply (Evict_loop_free _ p 0
           ((Z.of_nat i - BufferPool.nextVictimID p) mod BufferPool.Size p) g).
  - exact Hwf.
  - lia.
  - apply Z.mod_pos_bound. lia.
  - pose proof (Z.mod_pos_bound (Z.of_nat i - BufferPool.nextVictimID p)
                  (BufferPool.Size p) ltac:(lia)). lia.
  - rewrite Z.add_mod_idemp_r by lia.
    replace (BufferPool.nextVictimID p + (Z.of_nat i - BufferPool.nextVictimID p))
      with (Z.of_nat i) by lia.
    unfold BufferPool.Size, len in *.
    rewrite Z.mod_small by lia. rewrite Nat2Z.id. exact Hi.
  - exact Hg.
  - rewrite sweep_bound_eq. lia.
Qed.

End Evict.

(** C7. Clock-sweep eviction.  For a well-formed pool: when [Evict]
    returns an index, the frame at that index has usage count zero and
    the cursor [nextVictimID] rests on that index; [Evict] fails with
    [ErrNoFreeBuffer] exactly when every frame of the pool is pinned, that
    is when the sweep meets pool-size consecutive frames in use with a
    non-zero reference count; it fails in no other way.  Where reference
    counts are not negative and a frame that is not in use is not
    referenced, this is exactly when every reference count is positive. *)
Theorem Evict_clock_sweep (p : BufferPool.t) :
  wf_pool p ->
  (forall idx p', BufferPool.Evict p = (Ok idx, p') ->
     BufferPool.nextVictimID p' = idx /\
     exists f, BufferPool.frame_at p' idx = Ok f /\ Frame.UsageCount f = 0) /\
  ((exists p', BufferPool.Evict p = (Err ErrNoFreeBuffer, p')) <->
   Forall pinned (BufferPool.frames p)) /\
  (forall e p', BufferPool.Evict p = (Err e, p') -> e = ErrNoFreeBuffer) /\
  (Forall (fun f => 0 <= Buffer.refCount (Frame.Buffer f) /\
                    (Frame.UsageCount f = 0 -> Buffer.refCount (Frame.Buffer f) = 0))
          (BufferPool.frames p) ->
   ((exists p', BufferPool.Evict p = (Err ErrNoFreeBuffer, p')) <->
    Forall (fun f => 0 < Buffer.refCount (Frame.Buffer f)) (BufferPool.frames p))).
Proof.
  intros Hwf.
  assert (Hiff : (exists p', BufferPool.Evict p = (Err ErrNoFreeBuffer, p')) <->
                 Forall pinned (BufferPool.frames p)).
  { split.
    - intros [p' Hp'].
      destruct (decide (Forall pinned (BufferPool.frames p))) as [H|H]; [exact H|].
      destruct (Evict_free p Hwf H) as (idx & p'' & Hok). congruence.
    - intros Hall. destruct (Evict_all_pinned p Hwf Hall) as (p' & Hp' & _).
      eauto. }
  split; [|split; [|split]].
  - intros idx p' H. exact (Evict_loop_Ok _ _ _ _ _ H).
  - exact Hiff.
  - intros e p' H.
    destruct (decide (Forall pinned (BufferPool.frames p))) as [Hall|Hnot].
    + destruct (Evict_all_pinned p Hwf Hall) as (p'' & Hp'' & _). congruence.
    + destruct (Evict_free p Hwf Hnot) as (idx & p'' & Hok). congruence.
  - intros Hinv. rewrite Hiff. unfold pinned.
    rewrite !Forall_forall. rewrite Forall_forall in Hinv.
    split; intros H f Hin; specialize (H f Hin); specialize (Hinv f Hin); lia.
Qed.

(** At the pool of a tree that was just created in a pool of two frames
    both frames are pinned, and the sweep fails. *)
Lemma Evict_clock_sweep_witness :
  wf_pool (BufferPoolManager.pool (created [])) /\
  exists p', BufferPool.Evict (BufferPoolManager.pool (created [])) =
             (Err ErrNoFreeBuffer, p').
Proof.
  assert (Hwf : wf_pool (BufferPoolManager.pool (created []))).
  { unfold wf_pool, BufferPool.Size, len, max_int, created.
    cbn [BufferPoolManager.pool BufferPool.frames BufferPool.nextVictimID length].
    split; [lia|]. split; [lia|]. each_frame. }
  split; [exact Hwf|].
  destruct (Evict_clock_sweep (BufferPoolManager.pool (created [])) Hwf)
    as (_ & Hiff & _).
  apply Hiff. unfold created.
  cbn [BufferPoolManager.pool BufferPool.frames]. each_frame.
Defined.

(** * Executions of the buffer pool manager *)

Section Starvation.

Lemma held_pinned k m :
  0 <= k -> held k m -> Forall pinned (BufferPool.frames (BufferPoolManager.pool m)).
Proof.
  intros Hk [_ H]. eapply Forall_impl; [exact H|].
  intros f (? & ? & ? & ?). unfold pinned. lia.
Qed.

Lemma held_mono k k' m : k' <= k -> held k m -> held k' m.
Proof.
  intros Hk [Hwf H]. split; [exact Hwf|].
  eapply Forall_impl; [exact H|]. intros f (? & ? & ? & ?). lia.
Qed.

(** Replacing the pool by one with the same frames. *)
Lemma held_set_pool k m p :
  held k m -> wf_pool p ->
  BufferPool.frames p = BufferPool.frames (BufferPoolManager.pool m) ->
  held k (BufferPoolManager.set_pool m p) /\
  resident (BufferPoolManager.set_pool m p) = resident m.
Proof.
  intros [_ H] Hwf Hfr. unfold held, resident. cbn. rewrite Hfr. auto.
Qed.

(** Replacing one frame by a frame with the same page whose counters
    satisfy the bound. *)
Lemma held_set_frame k0 k (d : DiskManager.t) (pt : gmap Z Z) m i f f' :
  held k0 m -> k <= k0 ->
  BufferPool.frame_at (BufferPoolManager.pool m) i = Ok f ->
  Buffer.PageID (Frame.Buffer f') = Buffer.PageID (Frame.Buffer f) ->
  0 < Frame.UsageCount f' ->
  Frame.UsageCount f' + k < 18446744073709551616 ->
  0 < Buffer.refCount (Frame.Buffer f') ->
  Buffer.refCount (Frame.Buffer f') + k <= max_int ->
  let m' := BufferPoolManager.mk d
              (BufferPool.set_frame (BufferPoolManager.pool m) i f') pt in
  held k m' /\ resident m' = resident m.
Proof.
  intros [Hwf H] Hk Hf Hpid Hu1 Hu2 Hr1 Hr2 m'.
  apply frame_at_Ok in Hf as [Hi Hf].
  split; [split|].
  - destruct Hwf as (Hnv & Hsz & Hus).
    split; [|split]; unfold BufferPool.Size in *; cbn; unfold len in *;
      rewrite ?length_insert; try assumption.
    apply Forall_insert; [exact Hus | lia].
  - cbn. apply Forall_insert.
    + eapply Forall_impl; [exact H|]. intros g (? & ? & ? & ?). lia.
    + lia.
  - unfold resident. cbn.
    rewrite list_fmap_insert, Hpid.
    apply list_insert_id. rewrite list_lookup_fmap, Hf. reflexivity.
Qed.

Lemma held_frame k m i f :
  held k m -> BufferPool.frame_at (BufferPoolManager.pool m) i = Ok f ->
  0 < Frame.UsageCount f /\
  Frame.UsageCount f + k < 18446744073709551616 /\
  0 < Buffer.refCount (Frame.Buffer f) /\
  Buffer.refCount (Frame.Buffer f) + k <= max_int.
Proof.
  intros [_ H] Hf. apply frame_at_Ok in Hf as [_ Hf].
  exact (Forall_lookup_1 _ _ _ _ H Hf).
Qed.

Lemma FetchPage_held k m pageID :
  0 <= k -> held (k + 1) m ->
  held k (snd (BufferPoolManager.FetchPage pageID m)) /\
  resident (snd (BufferPoolManager.FetchPage pageID m)) = resident m /\
  (BufferPoolManager.pageTable m !! pageID = None ->
   fst (BufferPoolManager.FetchPage pageID m) = Err ErrNoFreeBuffer).
Proof.
  intros Hk Hheld. unfold BufferPoolManager.FetchPage.
  destruct (BufferPoolManager.pageTable m !! pageID) as [bufferID|] eqn:Hpt.
  - destruct (BufferPool.frame_at (BufferPoolManager.pool m) bufferID)
      as [f|e] eqn:Hf; cbn [fst snd].
    + destruct (held_frame _ _ _ _ Hheld Hf) as (Hu1 & Hu2 & Hr1 & Hr2).
      rewrite (wrap64_small (Frame.UsageCount f + 1)) by lia.
      rewrite (wint_small (Buffer.refCount (Frame.Buffer f) + 1))
        by (unfold max_int in *; lia).
      assert (HS := held_set_frame (k + 1) k (BufferPoolManager.disk m)
                  (BufferPoolManager.pageTable m) m bufferID f
                  (Frame.mk (Frame.UsageCount f + 1)
                     (Buffer.set_refCount (Frame.Buffer f)
                        (Buffer.refCount (Frame.Buffer f) + 1)))
                  Hheld ltac:(lia) Hf eq_refl).
      cbn in HS. destruct HS as [H1 H2]; try lia.
      split; [exact H1|]. split; [exact H2|]. discriminate.
    + split; [apply (held_mono (k + 1)); [lia | exact Hheld]|].
      split; [reflexivity | discriminate].
  - destruct (Evict_all_pinned (BufferPoolManager.pool m))
      as (p' & Hev & Hfr & Hwf').
    + apply Hheld.
    + apply (held_pinned (k + 1)); [lia | exact Hheld].
    + rewrite Hev. cbn [fst snd].
      destruct (held_set_pool (k + 1) m p' Hheld Hwf' Hfr) as [H1 H2].
      split; [apply (held_mono (k + 1)); [lia | exact H1]|].
      split; [exact H2 | reflexivity].
Qed.

Lemma frame_at_set_frame (p : BufferPool.t) (i : Z) (f f' : Frame.t) :
  BufferPool.frame_at p i = Ok f ->
  BufferPool.frame_at (BufferPool.set_frame p i f') i = Ok f'.
Proof.
  intros H. apply frame_at_Ok in H as [Hi Hf].
  apply frame_at_Ok. split; [exact Hi|].
  cbn [BufferPool.set_frame BufferPool.frames].
  apply list_lookup_insert_eq. eapply lookup_lt_Some. exact Hf.
Qed.

(** A page that was created pins its frame: the frame is valid, in use
    and referenced once. *)
Lemma CreatePage_pins (m m' : BufferPoolManager.t) (b : Z) :
  BufferPoolManager.CreatePage m = (Ok b, m') ->
  exists f, BufferPool.frame_at (BufferPoolManager.pool m') b = Ok f /\
            Frame.UsageCount f = 1 /\
            Buffer.refCount (Frame.Buffer f) = 1 /\
            Buffer.isValid (Frame.Buffer f) = true.
Proof.
  unfold BufferPoolManager.CreatePage.
  destruct (BufferPool.Evict (BufferPoolManager.pool m)) as [[b0|e] p];
    [|discriminate].
  destruct (BufferPool.frame_at p b0) as [f|e] eqn:Hf; [|discriminate].
  destruct (BufferPoolManager.write_back _ f) as [d|e]; [|discriminate].
  destruct (DiskManager.AllocatePage d) as [pageID d'].
  intros [= <- <-]. eexists. split.
  - cbn [BufferPoolManager.pool]. eapply frame_at_set_frame. exact Hf.
  - cbn. auto.
Qed.

(** So does a page that was fetched from the heap file. *)
Lemma FetchPage_miss_pins (m m' : BufferPoolManager.t) (pageID b : Z) :
  BufferPoolManager.pageTable m !! pageID = None ->
  BufferPoolManager.FetchPage pageID m = (Ok b, m') ->
  exists f, BufferPool.frame_at (BufferPoolManager.pool m') b = Ok f /\
            Frame.UsageCount f = 1 /\
            Buffer.refCount (Frame.Buffer f) = 1 /\
            Buffer.isValid (Frame.Buffer f) = true.
Proof.
  intros Hmiss. unfold BufferPoolManager.FetchPage. rewrite Hmiss.
  destruct (BufferPool.Evict (BufferPoolManager.pool m)) as [[b0|e] p];
    [|discriminate].
  destruct (BufferPool.frame_at p b0) as [f|e] eqn:Hf; [|discriminate].
  destruct (BufferPoolManager.write_back _ f) as [d|e]; [|discriminate].
  destruct (DiskManager.ReadPageData d pageID _) as [page|e]; [|discriminate].
  intros [= <- <-]. eexists. split.
  - cbn [BufferPoolManager.pool]. eapply frame_at_set_frame. exact Hf.
  - cbn. auto.
Qed.

Lemma CreatePage_held k m :
  0 <= k -> held (k + 1) m ->
  held k (snd (BufferPoolManager.CreatePage m)) /\
  resident (snd (BufferPoolManager.CreatePage m)) = resident m /\
  fst (BufferPoolManager.CreatePage m) = Err ErrNoFreeBuffer.
Proof.
  intros Hk Hheld. unfold BufferPoolManager.CreatePage.
  destruct (Evict_all_pinned (BufferPoolManager.pool m))
    as (p' & Hev & Hfr & Hwf').
  - apply Hheld.
  - apply (held_pinned (k + 1)); [lia | exact Hheld].
  - rewrite Hev. cbn [fst snd].
    destruct (held_set_pool (k + 1) m p' Hheld Hwf' Hfr) as [H1 H2].
    split; [apply (held_mono (k + 1)); [lia | exact H1]|].
    split; [exact H2 | reflexivity].
Qed.

Lemma Flush_entry_held k m entry m' :
  held k m -> BufferPoolManager.Flush_entry m entry = Ok m' ->
  held k m' /\ resident m' = resident m.
Proof.
  intros Hheld. unfold BufferPoolManager.Flush_entry.
  destruct entry as [pageID bufferID].
  destruct (BufferPool.frame_at (BufferPoolManager.pool m) bufferID)
    as [f|e] eqn:Hf; [|discriminate].
  destruct (DiskManager.WritePageData _ _ _) as [d|e]; [|discriminate].
  intros [= <-].
  destruct (held_frame _ _ _ _ Hheld Hf) as (Hu1 & Hu2 & Hr1 & Hr2).
  apply (held_set_frame k k d (BufferPoolManager.pageTable m) m bufferID f);
    try assumption; try reflexivity; lia.
Qed.

Lemma Flush_entries_held k entries m :
  held k m ->
  held k (snd (BufferPoolManager.Flush_entries entries m)) /\
  resident (snd (BufferPoolManager.Flush_entries entries m)) = resident m.
Proof.
  revert m. induction entries as [|entry rest IH]; intros m Hheld.
  - cbn. auto.
  - cbn [BufferPoolManager.Flush_entries].
    destruct (BufferPoolManager.Flush_entry m entry) as [m1|e] eqn:H1.
    + destruct (Flush_entry_held k m entry m1 Hheld H1) as [Hh Hr].
      destruct (IH m1 Hh) as [Hh' Hr'].
      split; [exact Hh' | congruence].
    + cbn. auto.
Qed.

Lemma Flush_held k m :
  held k m ->
  held k (snd (BufferPoolManager.Flush m)) /\
  resident (snd (BufferPoolManager.Flush m)) = resident m.
Proof.
  intros Hheld. unfold BufferPoolManager.Flush.
  pose proof (Flush_entries_held k
                (map_to_list (BufferPoolManager.pageTable m)) m Hheld) as H.
  destruct (BufferPoolManager.Flush_entries _ m) as [[u|e] m1];
    cbn [fst snd] in *; exact H.
Qed.

Lemma run_op_held k m o :
  0 <= k -> held (k + 1) m ->
  held k (snd (run_op o m)) /\
  resident (snd (run_op o m)) = resident m /\
  (needs_frame o m = true -> fst (run_op o m) = Some ErrNoFreeBuffer).
Proof.
  intros Hk Hheld. destruct o as [pageID| |]; unfold run_op, needs_frame.
  - destruct (FetchPage_held k m pageID Hk Hheld) as (H1 & H2 & H3).
    destruct (BufferPoolManager.FetchPage pageID m) as [r m1].
    cbn [fst snd] in *. split; [exact H1|]. split; [exact H2|].
    intros Hmiss. apply bool_decide_eq_true in Hmiss.
    rewrite (H3 Hmiss). reflexivity.
  - destruct (CreatePage_held k m Hk Hheld) as (H1 & H2 & H3).
    destruct (BufferPoolManager.CreatePage m) as [r m1].
    cbn [fst snd] in *. split; [exact H1|]. split; [exact H2|].
    intros _. rewrite H3. reflexivity.
  - destruct (Flush_held (k + 1) m Hheld) as (H1 & H2).
    destruct (BufferPoolManager.Flush m) as [r m1].
    cbn [fst snd] in *.
    split; [apply (held_mono (k + 1)); [lia | exact H1]|].
    split; [exact H2 | discriminate].
Qed.

End Starvation.

(** C6, as amended.  Once every frame of the pool is in use and referenced
    (which [FetchPage] and [CreatePage] establish for each frame they fill
    with success), in every execution of manager calls that stays within
    the range of the counters each [CreatePage] and each [FetchPage] of a
    page that is not in the page table fails with [ErrNoFreeBuffer], and
    no frame ever changes its page: no call lowers a reference count. *)
Theorem pool_starvation (ops : list op) (m : BufferPoolManager.t) :
  held (len ops) m -> starved ops m.
Proof.
  revert m. induction ops as [|o rest IH]; intros m Hheld.
  - exact I.
  - assert (Hlen : len (o :: rest) = len rest + 1)
      by (unfold len; cbn [length]; lia).
    rewrite Hlen in Hheld.
    destruct (run_op_held (len rest) m o (len_nonneg rest) Hheld)
      as (H1 & H2 & H3).
    cbn [starved]. split; [exact H3|]. split; [exact H2|].
    apply IH. exact H1.
Qed.

(** The pool of a tree that was just created in a pool of two frames is
    full; the calls below find no frame. *)
Lemma pool_starvation_witness :
  held (len full_pool_calls) (created []) /\
  starved full_pool_calls (created []).
Proof.
  assert (Hheld : held (len full_pool_calls) (created [])).
  { unfold held, wf_pool, BufferPool.Size, len, max_int, created.
    cbn [BufferPoolManager.pool BufferPool.frames BufferPool.nextVictimID
         length full_pool_calls].
    split; [split; [lia|]; split; [lia|]; each_frame|].
    each_frame. }
  split; [exact Hheld|].
  apply (pool_starvation full_pool_calls (created [])). exact Hheld.
Defined.

(** C6 as stated fails: [FetchPage] marks the frame valid before it reads
    the page.  In a pool of one frame over an empty heap file the fetch of
    page 0 fails at the end of the file; the only frame is then valid, and
    the next [CreatePage] succeeds in it. *)
Lemma valid_frames_do_not_starve :
  (m <- new_manager 1 ;;
   let '(fetched, m) := BufferPoolManager.FetchPage 0 m in
   Ok (fetched,
       forallb (fun f => Buffer.isValid (Frame.Buffer f))
               (BufferPool.frames (BufferPoolManager.pool m)),
       fst (BufferPoolManager.CreatePage m)))
  = Ok (Err ErrEOF, true, Ok 0).
Proof. vm_compute. reflexivity. Qed.

Section EmptyTree.

(** The second sweep of a new pool: the first frame is pinned, the
    second is free. *)
Lemma Evict_skip_first (f0 f1 : Frame.t) (tl : list Frame.t) :
  pinned f0 -> Frame.UsageCount f1 = 0 ->
  wf_pool (BufferPool.mk (f0 :: f1 :: tl) 0) ->
  BufferPool.Evict (BufferPool.mk (f0 :: f1 :: tl) 0) =
  (Ok 1, BufferPool.mk (f0 :: f1 :: tl) 1).
Proof.
  intros Hp Hu Hwf. set (p := BufferPool.mk (f0 :: f1 :: tl) 0).
  assert (Hsz : 2 <= BufferPool.Size p)
    by (unfold BufferPool.Size, len; cbn [p BufferPool.frames length]; lia).
  unfold BufferPool.Evict.
  destruct (BufferPool.sweep_bound p) as [|[|fuel]] eqn:Hb;
    try (rewrite sweep_bound_eq in Hb; lia).
  rewrite (Evict_loop_pinned _ p 0 f0 Hwf ltac:(lia) eq_refl Hp).
  destruct (Z.leb_spec (BufferPool.Size p) (0 + 1)) as [Hle|_]; [lia|].
  replace ((BufferPool.nextVictimID p + 1) mod BufferPool.Size p) with 1
    by (cbn [p BufferPool.nextVictimID]; rewrite Z.mod_small; lia).
  exact (Evict_loop_found fuel (BufferPool.mk (f0 :: f1 :: tl) 1) (0 + 1) f1
           eq_refl Hu).
Qed.

Lemma new_manager_eq (poolSize : Z) :
  2 <= poolSize ->
  new_manager poolSize =
  Ok (manager2 (repeat new_frame (Z.to_nat (poolSize - 2)))).
Proof.
  intros H. unfold new_manager, BufferPool.NewBufferPool, manager2.
  destruct (Z.ltb_spec poolSize 0) as [Hlt|_]; [lia|].
  replace (Z.to_nat poolSize) with (S (S (Z.to_nat (poolSize - 2)))) by lia.
  reflexivity.
Qed.

Lemma CreatePage_first (tl : list Frame.t) :
  BufferPoolManager.CreatePage (manager2 tl) = (Ok 0, after_first tl).
Proof. vm_compute. reflexivity. Qed.

Lemma after_first_eq (tl : list Frame.t) :
  after_first tl =
  BufferPoolManager.mk (DiskManager.mk [] 1)
    (BufferPool.mk
       (Frame.mk 1 (Buffer.mk 0 (make PageSize) true 1 true)
        :: new_frame :: tl) 0)
    (<[0 := 0]> ∅).
Proof. vm_compute. reflexivity. Qed.

Lemma CreatePage_second (tl : list Frame.t) :
  len tl + 2 <= max_int -> Forall (fun f => 0 <= Frame.UsageCount f) tl ->
  BufferPoolManager.CreatePage (after_first tl) = (Ok 1, after_second tl).
Proof.
  intros Hlen Htl. rewrite after_first_eq.
  unfold BufferPoolManager.CreatePage.
  cbn [BufferPoolManager.pool].
  rewrite Evict_skip_first.
  - vm_compute. reflexivity.
  - split; cbn; lia.
  - reflexivity.
  - split; [|split].
    + unfold BufferPool.Size, len. cbn. lia.
    + unfold BufferPool.Size, len in *. cbn [BufferPool.frames length]. lia.
    + cbn [BufferPool.frames]. repeat constructor; cbn; try lia. exact Htl.
Qed.

Lemma bindM_Ok {A B} (c : M A) (k : A -> M B) m a m' :
  c m = (Ok a, m') -> bindM c k m = k a m'.
Proof. intros H. unfold bindM. rewrite H. reflexivity. Qed.

Lemma Create_meta_header (tl : list Frame.t) :
  (page <~ Page_of 0 ;; liftM (Meta.NewMeta page)) (after_first tl) =
  (Ok 0, after_first tl).
Proof. vm_compute. reflexivity. Qed.

Lemma Create_manager2 (tl : list Frame.t) :
  len tl + 2 <= max_int -> Forall (fun f => 0 <= Frame.UsageCount f) tl ->
  BTree.Create (manager2 tl) = (Ok (BTree.mk 0), created tl).
Proof.
  intros Hlen Htl. unfold BTree.Create.
  rewrite (bindM_Ok _ _ _ _ _ (CreatePage_first tl)).
  rewrite (bindM_Ok _ _ _ _ _ (Create_meta_header tl)).
  rewrite (bindM_Ok _ _ _ _ _ (CreatePage_second tl Hlen Htl)).
  vm_compute. reflexivity.
Qed.

Lemma Search_created (tl : list Frame.t) (fuel : nat) (search : Search.t) :
  BTree.Search (S fuel) (BTree.mk 0) search (created tl) =
  (Ok (Iter.mk 1 1), searched tl).
Proof. destruct search as [[|] key]; vm_compute; reflexivity. Qed.

Lemma searched_leaf (tl : list Frame.t) :
  exists leaf,
    Body_of 1 (searched tl) = (Ok leaf, searched tl) /\
    Leaf.NumPairs leaf = Ok 0 /\ Leaf.NextPageID leaf = Ok None.
Proof. eexists. vm_compute. repeat split; reflexivity. Qed.

(** On an empty leaf without a successor, [Next] yields no pair and only
    counts. *)
Lemma Next_exhausted (m : BufferPoolManager.t) (b : Z) (leaf : list byte)
    (slotID : Z) :
  Body_of b m = (Ok leaf, m) ->
  Leaf.NumPairs leaf = Ok 0 -> Leaf.NextPageID leaf = Ok None ->
  0 <= slotID < max_int ->
  Iter.Next (Iter.mk b slotID) m = (Ok None, Iter.mk b (slotID + 1), m).
Proof.
  intros Hb Hn Hx Hs.
  unfold Iter.Next, Iter.get, Iter.advance.
  cbn [Iter.buffer Iter.slotID].
  rewrite (bindM_Ok _ _ _ _ _ Hb).
  unfold liftM at 1. rewrite Hn.
  unfold bindM at 1.
  destruct (Z.ltb_spec slotID 0) as [Hlt|_]; [lia|].
  unfold retM at 1.
  rewrite (bindM_Ok _ _ _ _ _ Hb).
  unfold liftM at 1. rewrite Hn.
  unfold bindM at 1.
  rewrite wint_small by (unfold max_int in *; lia).
  destruct (Z.ltb_spec (slotID + 1) 0) as [Hlt|_]; [lia|].
  unfold liftM at 1. rewrite Hx.
  unfold bindM at 1. reflexivity.
Qed.

Lemma Nexts_exhausted (m : BufferPoolManager.t) (b : Z) (leaf : list byte)
    (n : nat) (slotID : Z) :
  Body_of b m = (Ok leaf, m) ->
  Leaf.NumPairs leaf = Ok 0 -> Leaf.NextPageID leaf = Ok None ->
  0 <= slotID -> slotID + Z.of_nat n <= max_int ->
  Nexts n (Iter.mk b slotID) m = repeat (Ok None) n.
Proof.
  intros Hb Hl Hx. revert slotID. induction n as [|n IH]; intros slotID H0 Hn.
  - reflexivity.
  - cbn [Nexts repeat].
    rewrite (Next_exhausted m b leaf slotID Hb Hl Hx) by lia.
    rewrite IH by lia. reflexivity.
Qed.

End EmptyTree.

(** C10. On a tree just made by [Create] (a new heap file, a pool of at
    least two frames), [Search] with [Start] or with any key succeeds, and
    the iterator yields no pair and no error at the first [Next] and at
    every later one, as far as its [int] slot counter reaches. *)
Theorem empty_tree_search (poolSize : Z) (search : Search.t) (fuel n : nat) :
  2 <= poolSize <= max_int -> (0 < fuel)%nat -> Z.of_nat n < max_int ->
  exists m0 tree m1 it m2,
    new_manager poolSize = Ok m0 /\
    BTree.Create m0 = (Ok tree, m1) /\
    BTree.Search fuel tree search m1 = (Ok it, m2) /\
    Nexts n it m2 = repeat (Ok None) n.
Proof.
  intros Hp Hf Hn.
  set (tl := repeat new_frame (Z.to_nat (poolSize - 2))).
  assert (Hlen : len tl + 2 <= max_int)
    by (unfold len, tl; rewrite repeat_length; lia).
  assert (Htl : Forall (fun f => 0 <= Frame.UsageCount f) tl).
  { apply Forall_forall. intros f Hin. unfold tl in Hin.
    apply list_elem_of_In, repeat_spec in Hin. subst f. cbn. lia. }
  destruct fuel as [|fuel]; [lia|].
  exists (manager2 tl), (BTree.mk 0), (created tl), (Iter.mk 1 1), (searched tl).
  split; [apply new_manager_eq; lia|].
  split; [apply Create_manager2; assumption|].
  split; [apply Search_created|].
  destruct (searched_leaf tl) as (leaf & Hb & Hl & Hx).
  apply (Nexts_exhausted (searched tl) 1 leaf n 1 Hb Hl Hx); lia.
Qed.

Lemma empty_tree_search_witness :
  exists m0 tree m1 it m2,
    new_manager 10 = Ok m0 /\
    BTree.Create m0 = (Ok tree, m1) /\
    BTree.Search 1 tree (Search.NewSearchKey (list_byte_of_string "key")) m1
      = (Ok it, m2) /\
    Nexts 3 it m2 = repeat (Ok None) 3.
Proof.
  apply (empty_tree_search 10 (Search.NewSearchKey (list_byte_of_string "key"))
           1 3); unfold max_int; lia.
Defined.

(** * The tests of the repository, run on the embedding

    As long as the root leaf does not split the tree behaves as its tests
    expect. *)

(** TestBTreeInsertAndSearch: every inserted key is found with its
    value. *)
Example test_InsertAndSearch :
  (tm <- tree_of 8 10 fruit ;;
   a <- lookup_first 8 (Search.NewSearchKey (bytes "apple")) tm ;;
   b <- lookup_first 8 (Search.NewSearchKey (bytes "banana")) tm ;;
   c <- lookup_first 8 (Search.NewSearchKey (bytes "cherry")) tm ;;
   Ok [a; b; c])
  = Ok (map (fun kv => Some (Pair.mk (fst kv) (snd kv))) fruit).
Proof. vm_compute. reflexivity. Qed.

(** TestBTreeDuplicateKey: the second insert of a key is refused, and the
    first value stays. *)
Example test_DuplicateKey :
  (tm <- tree_of 8 10 [(bytes "key", bytes "value1")] ;;
   let '(r, m) := BTree.Insert 8 (fst tm) (bytes "key") (bytes "value2") (snd tm) in
   ps <- scan 8 (Search.NewSearchKey (bytes "key")) (fst tm, m) ;;
   Ok (r, ps))
  = Ok (Err ErrDuplicateKey, [Pair.mk (bytes "key") (bytes "value1")]).
Proof. vm_compute. reflexivity. Qed.

(** TestBTreeIterateAll: keys inserted out of order are scanned in
    order. *)
Example test_IterateAll :
  (tm <- tree_of 8 10 animals ;;
   ps <- scan 8 Search.NewSearchStart tm ;;
   Ok (map Pair.Key ps))
  = Ok (map bytes ["ant"; "bird"; "cat"; "dog"; "elephant"]%string).
Proof. vm_compute. reflexivity. Qed.

(** TestBTreeRangeSearch: the scan from [key05] yields [key05] to
    [key09]. *)
Example test_RangeSearch :
  (tm <- tree_of 8 10 ten_keys ;;
   ps <- scan 8 (Search.NewSearchKey (bytes "key05")) tm ;;
   Ok (map Pair.Key ps))
  = Ok (map bytes ["key05"; "key06"; "key07"; "key08"; "key09"]%string).
Proof. vm_compute. reflexivity. Qed.

(** * The tree on small inputs

    Values of 1000 bytes make a leaf overflow at the fifth pair, so that
    few inserts reach the splits. *)

(** C1 fails on the code.  The five inserts of [five_pairs] succeed; the
    fifth splits the root leaf into [1 2] and [3 4 5] under the separator
    [2].  [Search] with key [2] then yields the pair of key [3]: the
    separator is the last key of the lower leaf, and the descent sends an
    equal key to the right.  After the seven inserts of [seven_pairs],
    which split a second leaf, the searches for the keys 2, 3, 6 and 7
    all yield the pair of key [5]. *)
Theorem search_key_misses_inserted_key :
  (tm <- tree_of 8 10 five_pairs ;;
   p <- lookup_first 8 (Search.NewSearchKey ["2"%byte]) tm ;;
   Ok (option_map Pair.Key p))
  = Ok (Some ["3"%byte]) /\
  (tm <- tree_of 8 10 seven_pairs ;;
   lookup_each 8 (map fst seven_pairs) tm)
  = Ok [Some ["1"%byte]; Some ["5"%byte]; Some ["5"%byte]; Some ["4"%byte];
        Some ["5"%byte]; Some ["5"%byte]; Some ["5"%byte]].
Proof. split; vm_compute; reflexivity. Qed.

(** C2 fails on the code.  After the five inserts of [five_pairs] the root
    is a branch with the one separator [2], and the subtree of its child 0
    holds the keys [1] and [2]: a key equal to the separator, not below
    it.  After the seven inserts of [seven_pairs] the root has the
    separators [2] and [4] over children that hold [1 2], [5 6 7] and
    [3 4], in this order: the keys under child 1 are not below the
    separator [4] either. *)
Theorem separator_law_violated :
  (tm <- tree_of 8 10 five_pairs ;;
   root <- root_of tm ;;
   page <- page_content (snd tm) root ;;
   nodeType <- Node.NewNode page ;;
   view <- branch_view 8 (snd tm) root ;;
   law <- separator_law 8 (snd tm) root ;;
   Ok (nodeType, view, law))
  = Ok (Node.NodeTypeBranch,
        ([["2"%byte]],
         [[["1"%byte]; ["2"%byte]]; [["3"%byte]; ["4"%byte]; ["5"%byte]]]),
        false) /\
  (tm <- tree_of 8 10 seven_pairs ;;
   root <- root_of tm ;;
   view <- branch_view 8 (snd tm) root ;;
   law <- separator_law 8 (snd tm) root ;;
   Ok (view, law))
  = Ok (([["2"%byte]; ["4"%byte]],
         [[["1"%byte]; ["2"%byte]];
          [["5"%byte]; ["6"%byte]; ["7"%byte]];
          [["3"%byte]; ["4"%byte]]]),
        false).
Proof. split; vm_compute; reflexivity. Qed.

(** C3 fails on the code.  The seven inserts of [seven_pairs], keys [1]
    to [7] in ascending order, succeed; the scan from [Start] then yields
    the keys 1, 2, 5, 6, 7 only.  The second split makes a leaf for [3 4]
    that no leaf points to, because the first split reset the sibling
    pointers of the leaf it kept. *)
Theorem scan_from_start_loses_keys :
  (tm <- tree_of 8 10 seven_pairs ;;
   ps <- scan 8 Search.NewSearchStart tm ;;
   Ok (map Pair.Key ps))
  = Ok [["1"%byte]; ["2"%byte]; ["5"%byte]; ["6"%byte]; ["7"%byte]].
Proof. vm_compute. reflexivity. Qed.

(** C4 fails on the code.  After the five inserts of [five_pairs] the tree
    holds the key [2]; inserting [2] again returns no error and stores a
    second pair with that key. *)
Theorem duplicate_key_accepted :
  (tm <- tree_of 8 10 five_pairs ;;
   before <- scan 8 Search.NewSearchStart tm ;;
   let '(r, m) := BTree.Insert 8 (fst tm) ["2"%byte] [] (snd tm) in
   after <- scan 8 Search.NewSearchStart (fst tm, m) ;;
   Ok (map Pair.Key before, r, map Pair.Key after))
  = Ok ([["1"%byte]; ["2"%byte]; ["3"%byte]; ["4"%byte]; ["5"%byte]],
        Ok tt,
        [["1"%byte]; ["2"%byte]; ["2"%byte]; ["3"%byte]; ["4"%byte];
         ["5"%byte]]).
Proof. vm_compute. reflexivity. Qed.

(** The run of the 100 inserts, computed once: the summary of the root
    page and the scan from [Start]. *)
Lemma hundred_keys_run :
  (tm <- tree_of 8 10 (numbered_pairs 100) ;;
   s <- root_summary tm ;;
   ps <- scan 8 Search.NewSearchStart tm ;;
   Ok (s, ps))
  = Ok ((1, Node.NodeTypeLeaf, 2, 100, 1668),
        map (fun kv => Pair.mk (fst kv) (snd kv)) (numbered_pairs 100)).
Proof. vm_compute. reflexivity. Qed.

(** C5 as stated fails: after the 100 inserts the root is not a branch. *)
Lemma hundred_keys_root_is_no_branch :
  ~ exists tm root pages pairs free,
      tree_of 8 10 (numbered_pairs 100) = Ok tm /\
      root_summary tm = Ok (root, Node.NodeTypeBranch, pages, pairs, free).
Proof.
  intros (tm & root & pages & pairs & free & Htm & Hs).
  pose proof hundred_keys_run as H. rewrite Htm, Hs in H.
  destruct (scan 8 Search.NewSearchStart tm); discriminate H.
Qed.

(** C5, as amended.  Starting from a tree just created, the inserts of
    the 100 keys key00000 to key00099 with their values all succeed and
    force no split with the 4096-byte page: the root is still page 1, a
    leaf; the heap file has the two pages [Create] allocated; the leaf
    holds 100 pairs and has 1668 of its 4068 bytes free; and the scan from
    [Start] yields the 100 pairs in the order of their keys. *)
Theorem hundred_keys_fit_one_leaf :
  exists tm,
    tree_of 8 10 (numbered_pairs 100) = Ok tm /\
    root_summary tm = Ok (1, Node.NodeTypeLeaf, 2, 100, 1668) /\
    scan 8 Search.NewSearchStart tm
    = Ok (map (fun kv => Pair.mk (fst kv) (snd kv)) (numbered_pairs 100)).
Proof.
  pose proof hundred_keys_run as H.
  destruct (tree_of 8 10 (numbered_pairs 100)) as [tm|e]; [|discriminate H].
  exists tm. split; [reflexivity|].
  destruct (root_summary tm) as [s|e]; [|discriminate H].
  destruct (scan 8 Search.NewSearchStart tm) as [ps|e]; [|discriminate H].
  injection H as -> ->. split; reflexivity.
Qed.

(** * Further properties of the code *)

(** * More about the pair codec *)

Lemma len_pair_bytes (p : Pair.t) :
  len (pair_bytes p) = 4 + len (Pair.Key p) + len (Pair.Value p).
Proof.
  unfold pair_bytes. rewrite !len_app, !len_le_encode. lia.
Qed.



(** X1. [PairFromBytes] reads a pair from the front of a slice: whatever
    follows the bytes [ToBytes] wrote is ignored (this is how [Leaf.PairAt]
    calls it, on [l.data[offset:]]). *)
Theorem PairFromBytes_reads_front (p : Pair.t) (rest : list byte) :
  len (Pair.Key p) <= 65531 -> len (Pair.Value p) <= 65535 ->
  (b <- Pair.ToBytes p ;; Pair.PairFromBytes (b ++ rest)) = Ok p.
Proof.
  intros Hk Hv. rewrite ToBytes_eq. apply PairFromBytes_pair_bytes; assumption.
Qed.

Lemma PairFromBytes_reads_front_witness :
  (b <- Pair.ToBytes apple_pair ;; Pair.PairFromBytes (b ++ bytes "tail"))
  = Ok apple_pair.
Proof.
  apply (PairFromBytes_reads_front apple_pair (bytes "tail"));
    vm_compute; congruence.
Defined.



(** * More about tuples *)

Lemma len_elems_bytes (es : Tuple.t) : len (elems_bytes es) = elems_size es.
Proof.
  induction es as [|e es IH]; [reflexivity|].
  unfold elems_bytes in *. cbn [map concat elems_size foldr].
  unfold elem_bytes at 1. rewrite !len_app, len_le_encode, IH.
  unfold elems_size. lia.
Qed.

Lemma slice_from_all {A} (s : list A) : slice_from s (len s) = Ok [].
Proof.
  rewrite <- (app_nil_r s) at 1. apply slice_from_app. reflexivity.
Qed.

(** X3. [Encode] never fails and writes the documented layout: the number
    of elements in two bytes, then each element behind its length in two
    bytes; [2 + sum (2 + len elem)] bytes in all. *)
Theorem Encode_layout (t : Tuple.t) :
  Tuple.Encode t = Ok (tuple_bytes t) /\
  len (tuple_bytes t) = 2 + elems_size t.
Proof.
  split; [apply Encode_eq|].
  unfold tuple_bytes. rewrite len_app, len_le_encode, len_elems_bytes. lia.
Qed.

(** X4. [MergeTuple] never fails, and [SplitTuple] at the length of the key
    undoes it. *)
Theorem SplitTuple_MergeTuple (key value : Tuple.t) :
  (t <- Tuple.MergeTuple key value ;; Tuple.SplitTuple t (len key))
  = Ok (key, value).
Proof.
  rewrite MergeTuple_eq.
  rewrite SplitTuple_eq.
  - unfold len. rewrite Nat2Z.id, take_app_length, drop_app_length. reflexivity.
  - rewrite len_app. pose proof (len_nonneg key). pose proof (len_nonneg value). lia.
Qed.

Lemma SplitTuple_clamps (t : Tuple.t) (n : Z) :
  len t <= n -> Tuple.SplitTuple t n = Ok (t, []).
Proof.
  intros Hn. unfold Tuple.SplitTuple.
  assert (Hc : (if len t <? n then len t else n) = len t).
  { destruct (len t <? n) eqn:Hlt; [reflexivity|]. apply Z.ltb_ge in Hlt. lia. }
  rewrite Hc.
  rewrite <- (app_nil_r t) at 1.
  rewrite (slice_app2 t [] (len t)) by reflexivity.
  rewrite slice_from_all. reflexivity.
Qed.

Lemma SplitTuple_negative (t : Tuple.t) (n : Z) :
  n < 0 -> Tuple.SplitTuple t n = Err Panic.
Proof.
  intros Hn. unfold Tuple.SplitTuple.
  pose proof (len_nonneg t) as Ht.
  replace (len t <? n) with false by (symmetry; apply Z.ltb_ge; lia).
  unfold slice.
  replace (0 <=? n) with false by (symmetry; apply Z.leb_gt; lia).
  reflexivity.
Qed.

(** X5. [SplitTuple] with a key count of at least the length of the tuple
    puts the whole tuple in the key; with a negative count it panics. *)
Theorem SplitTuple_bounds (t : Tuple.t) (n : Z) :
  (len t <= n -> Tuple.SplitTuple t n = Ok (t, [])) /\
  (n < 0 -> Tuple.SplitTuple t n = Err Panic).
Proof. split; [apply SplitTuple_clamps|apply SplitTuple_negative]. Qed.

Lemma SplitTuple_bounds_witness :
  Tuple.SplitTuple alice 5 = Ok (alice, []) /\
  Tuple.SplitTuple alice (-1) = Err Panic.
Proof.
  split.
  - apply (proj1 (SplitTuple_bounds alice 5)). vm_compute. congruence.
  - apply (proj2 (SplitTuple_bounds alice (-1))). reflexivity.
Defined.

(** * The disk manager *)

Section Disk.

Lemma offset_eq (pageID : Z) :
  DiskManager.offset pageID = wint (PageSize * (pageID mod 4503599627370496)).
Proof.
  unfold DiskManager.offset, wrap64, PageSize. f_equal.
  change 18446744073709551616 with (4096 * 4503599627370496).
  apply Z.mul_mod_distr_l; lia.
Qed.

Lemma offset_small (pageID : Z) :
  0 <= pageID < max_page -> DiskManager.offset pageID = PageSize * pageID.
Proof.
  unfold max_page. intros H. rewrite offset_eq, Z.mod_small by lia.
  apply wint_small. unfold max_int, PageSize. lia.
Qed.

Lemma offset_page (pageID : Z) :
  0 <= pageID < max_page ->
  (DiskManager.offset pageID <? 0) = false /\
  Z.to_nat (DiskManager.offset pageID / PageSize) = Z.to_nat pageID.
Proof.
  intros H. rewrite offset_small by exact H. unfold PageSize. split.
  - apply Z.ltb_ge. lia.
  - f_equal. rewrite Z.mul_comm. apply Z.div_mul. lia.
Qed.

Lemma offset_negative (pageID : Z) :
  max_page <= pageID mod 4503599627370496 -> DiskManager.offset pageID < 0.
Proof.
  unfold max_page. intros H. rewrite offset_eq.
  pose proof (Z.mod_pos_bound pageID 4503599627370496 ltac:(lia)) as Hb.
  unfold wint, PageSize.
  replace (4096 * (pageID mod 4503599627370496) + 9223372036854775808)
    with (4096 * (pageID mod 4503599627370496) - 9223372036854775808
          + 1 * 18446744073709551616) by lia.
  rewrite Z.mod_add by lia. rewrite Z.mod_small by lia. lia.
Qed.

Lemma WritePageData_Ok (d : DiskManager.t) (pageID : Z) (data : list byte) :
  0 <= pageID < max_page ->
  DiskManager.WritePageData d pageID data =
  Ok (DiskManager.mk
        (if decide (Z.to_nat pageID < length (DiskManager.heapFile d))%nat
         then <[Z.to_nat pageID := data]> (DiskManager.heapFile d)
         else DiskManager.heapFile d
              ++ repeat (make PageSize)
                   (Z.to_nat pageID - length (DiskManager.heapFile d))
              ++ [data])
        (DiskManager.nextPageID d)).
Proof.
  intros H. unfold DiskManager.WritePageData.
  destruct (offset_page pageID H) as [-> ->]. reflexivity.
Qed.

Lemma ReadPageData_eq (d : DiskManager.t) (pageID : Z) (buf : list byte) :
  0 <= pageID < max_page ->
  DiskManager.ReadPageData d pageID buf =
  match DiskManager.heapFile d !! Z.to_nat pageID with
  | Some p => Ok (copy buf p)
  | None => Err ErrEOF
  end.
Proof.
  intros H. unfold DiskManager.ReadPageData.
  destruct (offset_page pageID H) as [-> ->]. reflexivity.
Qed.

Lemma lookup_repeat {A} (x : A) (n j : nat) :
  (j < n)%nat -> repeat x n !! j = Some x.
Proof.
  revert j. induction n as [|n IH]; intros j Hj; [lia|].
  destruct j as [|j]; [reflexivity|]. simpl. apply IH. lia.
Qed.

Lemma written_lookup (file : list (list byte)) (i j : nat) (data : list byte) :
  (if decide (i < length file)%nat then <[i := data]> file
   else file ++ repeat (make PageSize) (i - length file) ++ [data]) !! j =
  if decide (j = i) then Some data
  else if decide (j < length file)%nat then file !! j
  else if decide (j < i)%nat then Some (make PageSize) else None.
Proof.
  destruct (decide (i < length file)%nat) as [Hi|Hi].
  - destruct (decide (j = i)) as [->|Hne].
    + apply list_lookup_insert_eq. exact Hi.
    + rewrite list_lookup_insert_ne by congruence.
      destruct (decide (j < length file)%nat) as [Hj|Hj]; [reflexivity|].
      rewrite lookup_ge_None_2 by lia.
      destruct (decide (j < i)%nat); [lia|reflexivity].
  - destruct (decide (j < length file)%nat) as [Hj|Hj].
    + destruct (decide (j = i)); [lia|].
      apply lookup_app_l. exact Hj.
    + rewrite lookup_app_r by lia.
      destruct (decide (j = i)) as [->|Hne].
      * rewrite lookup_app_r by (rewrite repeat_length; lia).
        rewrite repeat_length. replace (i - length file - (i - length file))%nat with O by lia.
        reflexivity.
      * destruct (decide (j < i)%nat) as [Hlt|Hge].
        -- rewrite lookup_app_l by (rewrite repeat_length; lia).
           apply lookup_repeat. lia.
        -- rewrite lookup_app_r by (rewrite repeat_length; lia).
           rewrite repeat_length.
           apply lookup_ge_None_2. simpl. lia.
Qed.

End Disk.

(** X6. A page that was written is read back: after [WritePageData] of
    page [pageID], [ReadPageData] of the same page into a buffer of the same
    length yields the written bytes, whether the page lay within the file or
    beyond its end, and the counter of allocated pages is untouched. *)
Theorem WritePageData_ReadPageData (d : DiskManager.t) (pageID : Z)
    (data buf : list byte) :
  0 <= pageID < max_page -> length buf = length data ->
  exists d', DiskManager.WritePageData d pageID data = Ok d' /\
             DiskManager.ReadPageData d' pageID buf = Ok data /\
             DiskManager.nextPageID d' = DiskManager.nextPageID d.
Proof.
  intros Hp Hlen. eexists. split; [apply WritePageData_Ok; exact Hp|].
  split; [|reflexivity].
  rewrite ReadPageData_eq by exact Hp. cbn [DiskManager.heapFile].
  rewrite written_lookup. rewrite decide_True by reflexivity.
  rewrite copy_same_length by exact Hlen. reflexivity.
Qed.

Lemma WritePageData_ReadPageData_witness :
  exists d', DiskManager.WritePageData three_pages 5 ones = Ok d' /\
             DiskManager.ReadPageData d' 5 (make PageSize) = Ok ones /\
             DiskManager.nextPageID d' = DiskManager.nextPageID three_pages.
Proof.
  apply (WritePageData_ReadPageData three_pages 5 ones (make PageSize));
    [unfold max_page; lia | reflexivity].
Defined.




(** X8. A page id whose byte offset, computed on [uint64] and converted
    to [int64], is negative makes [Seek] fail: neither [ReadPageData] nor
    [WritePageData] touches the file.  [InvalidPageID] is such an id. *)
Theorem negative_offset_fails (d : DiskManager.t) (pageID : Z) (data : list byte) :
  max_page <= pageID mod 4503599627370496 ->
  DiskManager.ReadPageData d pageID data = Err ErrSeek /\
  DiskManager.WritePageData d pageID data = Err ErrSeek.
Proof.
  intros H. apply offset_negative in H. apply Z.ltb_lt in H.
  unfold DiskManager.ReadPageData, DiskManager.WritePageData.
  rewrite H. split; reflexivity.
Qed.

Lemma negative_offset_fails_witness :
  DiskManager.ReadPageData three_pages Leaf.InvalidPageID (make PageSize)
    = Err ErrSeek /\
  DiskManager.WritePageData three_pages Leaf.InvalidPageID (make PageSize)
    = Err ErrSeek.
Proof.
  apply (negative_offset_fails three_pages Leaf.InvalidPageID (make PageSize)).
  vm_compute. congruence.
Defined.



(** * The buffer pool and its manager *)

Section Sweep.

Lemma usage_lowered_refl (l : list Frame.t) :
  Forall (fun f => 0 <= Frame.UsageCount f) l -> usage_lowered l l.
Proof.
  intros H. unfold usage_lowered. apply Forall_Forall2_diag.
  eapply Forall_impl; [exact H|]. cbn. intros f Hf. split; [reflexivity|lia].
Qed.

Lemma usage_lowered_trans (l1 l2 l3 : list Frame.t) :
  usage_lowered l1 l2 -> usage_lowered l2 l3 -> usage_lowered l1 l3.
Proof.
  unfold usage_lowered. intros H12. revert l3.
  induction H12 as [|f1 f2 l1 l2 [Hb1 Hu1] _ IH]; intros l3 H23;
    inversion H23 as [|? f3 ? l3' [Hb2 Hu2] H23']; subst; constructor.
  - split; [congruence|lia].
  - apply IH. exact H23'.
Qed.

Lemma usage_lowered_nonneg (l l' : list Frame.t) :
  usage_lowered l l' -> Forall (fun f => 0 <= Frame.UsageCount f) l'.
Proof.
  unfold usage_lowered. intros H.
  induction H as [|f f' l l' [_ Hu] _ IH]; constructor; [lia|exact IH].
Qed.

Lemma usage_lowered_step (l : list Frame.t) (i : nat) (f : Frame.t) :
  Forall (fun f => 0 <= Frame.UsageCount f) l ->
  l !! i = Some f -> Frame.UsageCount f <> 0 ->
  usage_lowered l
    (<[i := Frame.set_UsageCount f (wrap64 (Frame.UsageCount f - 1))]> l).
Proof.
  intros Hl Hi Hu.
  assert (H0 : 0 <= Frame.UsageCount f).
  { rewrite Forall_forall in Hl. apply Hl. eapply list_elem_of_lookup_2. exact Hi. }
  rewrite <- (list_insert_id l i f Hi) at 1.
  apply Forall2_insert; [apply usage_lowered_refl; exact Hl|].
  cbn. split; [reflexivity|]. unfold wrap64. split.
  - apply Z.mod_pos_bound. lia.
  - pose proof (Z.mod_le (Frame.UsageCount f - 1) 18446744073709551616
                  ltac:(lia) ltac:(lia)). lia.
Qed.

Lemma Evict_loop_usage (fuel : nat) (p : BufferPool.t) (c : Z) r p' :
  Forall (fun f => 0 <= Frame.UsageCount f) (BufferPool.frames p) ->
  BufferPool.Evict_loop fuel p c = (r, p') ->
  usage_lowered (BufferPool.frames p) (BufferPool.frames p').
Proof.
  revert p c. induction fuel as [|fuel IH]; intros p c Hp H.
  - cbn in H. injection H as <- <-. apply usage_lowered_refl. exact Hp.
  - cbn [BufferPool.Evict_loop] in H.
    destruct (BufferPool.frame_at p (BufferPool.nextVictimID p)) as [f|e] eqn:Hf.
    2:{ injection H as <- <-. apply usage_lowered_refl. exact Hp. }
    destruct (Frame.UsageCount f =? 0) eqn:Hu.
    { injection H as <- <-. apply usage_lowered_refl. exact Hp. }
    apply Z.eqb_neq in Hu.
    apply frame_at_Ok in Hf as [Hnv Hf].
    destruct (Buffer.refCount (Frame.Buffer f) =? 0) eqn:Hr.
    + unfold BufferPool.incrementID in H.
      set (p1 := BufferPool.set_frame p (BufferPool.nextVictimID p)
                   (Frame.set_UsageCount f (wrap64 (Frame.UsageCount f - 1)))) in *.
      assert (H1 : usage_lowered (BufferPool.frames p) (BufferPool.frames p1))
        by (apply usage_lowered_step; assumption).
      destruct (BufferPool.Size p1 =? 0).
      { injection H as <- <-. exact H1. }
      apply IH in H.
      * eapply usage_lowered_trans; [exact H1|exact H].
      * cbn [BufferPool.set_nextVictimID BufferPool.frames].
        eapply usage_lowered_nonneg. exact H1.
    + destruct (BufferPool.Size p <=? wint (c + 1)).
      { injection H as <- <-. apply usage_lowered_refl. exact Hp. }
      unfold BufferPool.incrementID in H.
      destruct (BufferPool.Size p =? 0).
      { injection H as <- <-. apply usage_lowered_refl. exact Hp. }
      apply IH in H; [exact H|exact Hp].
Qed.

End Sweep.

(** X10. [Evict] changes nothing but usage counts: whatever it returns,
    the pool has the same frames with the same buffers, and no usage count
    has gone up. *)
Theorem Evict_lowers_usage_only (p : BufferPool.t) r p' :
  Forall (fun f => 0 <= Frame.UsageCount f) (BufferPool.frames p) ->
  BufferPool.Evict p = (r, p') ->
  BufferPool.Size p' = BufferPool.Size p /\
  usage_lowered (BufferPool.frames p) (BufferPool.frames p').
Proof.
  intros Hp H. apply Evict_loop_usage in H; [|exact Hp].
  split; [|exact H].
  unfold BufferPool.Size, len. f_equal. symmetry.
  eapply Forall2_length. exact H.
Qed.

Lemma Evict_lowers_usage_only_witness :
  BufferPool.Size (snd (BufferPool.Evict mixed_pool)) = BufferPool.Size mixed_pool /\
  usage_lowered (BufferPool.frames mixed_pool)
                (BufferPool.frames (snd (BufferPool.Evict mixed_pool))).
Proof.
  apply (Evict_lowers_usage_only mixed_pool (fst (BufferPool.Evict mixed_pool))).
  - repeat constructor; vm_compute; congruence.
  - vm_compute. reflexivity.
Defined.

(** X11. [Evict] respects references: a frame whose buffer has a non-zero
    reference count comes out of the sweep as it went in, and when it is in
    use as well it is never the frame returned. *)
Theorem Evict_respects_references (p : BufferPool.t) r p' (i : Z) (f : Frame.t) :
  BufferPool.Evict p = (r, p') ->
  BufferPool.frame_at p i = Ok f ->
  Buffer.refCount (Frame.Buffer f) <> 0 ->
  BufferPool.frame_at p' i = Ok f /\
  (Frame.UsageCount f <> 0 -> r <> Ok i).
Proof.
  intros H Hf Hr. split.
  - apply frame_at_Ok in Hf as [Hi Hf]. apply frame_at_Ok. split; [exact Hi|].
    unfold BufferPool.Evict in H.
    eapply Evict_loop_keeps_referenced; eassumption.
  - intros Hu ->.
    eapply (Evict_spares_pinned p p' i i f); [exact H|exact Hf| |reflexivity].
    split; assumption.
Qed.

Lemma Evict_respects_references_witness :
  BufferPool.frame_at (snd (BufferPool.Evict mixed_pool)) 1
    = Ok (Frame.mk 2 (Buffer.mk 7 (make PageSize) true 1 true)) /\
  (2 <> 0 -> fst (BufferPool.Evict mixed_pool) <> Ok 1).
Proof.
  apply (Evict_respects_references mixed_pool _ _ 1
           (Frame.mk 2 (Buffer.mk 7 (make PageSize) true 1 true))).
  - vm_compute. reflexivity.
  - vm_compute. reflexivity.
  - vm_compute. congruence.
Defined.

Section Manager.

Lemma frame_at_set_frame_ne (p : BufferPool.t) (i j : Z) (f : Frame.t) :
  0 <= i -> 0 <= j -> i <> j ->
  BufferPool.frame_at (BufferPool.set_frame p i f) j = BufferPool.frame_at p j.
Proof.
  intros Hi Hj Hne. unfold BufferPool.frame_at, BufferPool.set_frame.
  cbn [BufferPool.frames].
  rewrite list_lookup_insert_ne by lia. reflexivity.
Qed.

Lemma frame_at_nonneg (p : BufferPool.t) (i : Z) (f : Frame.t) :
  BufferPool.frame_at p i = Ok f -> 0 <= i.
Proof. intros H. apply frame_at_Ok in H. tauto. Qed.

Lemma write_back_nextPageID (d d' : DiskManager.t) (f : Frame.t) :
  BufferPoolManager.write_back d f = Ok d' ->
  DiskManager.nextPageID d' = DiskManager.nextPageID d.
Proof.
  unfold BufferPoolManager.write_back, DiskManager.WritePageData.
  destruct (_ && _); [|intros [= <-]; reflexivity].
  destruct (_ <? 0); [discriminate|]. intros [= <-]. reflexivity.
Qed.

End Manager.

(** X12. [CreatePage] hands out the next page id of the disk manager in a
    zeroed, dirty buffer with one reference, and advances the counter; a
    [FetchPage] of that id right after is served from the same frame and
    takes a second reference, without touching the disk. *)
Theorem CreatePage_then_FetchPage (m m' : BufferPoolManager.t) (b : Z) :
  BufferPoolManager.CreatePage m = (Ok b, m') ->
  let pageID := DiskManager.nextPageID (BufferPoolManager.disk m) in
  BufferPool.frame_at (BufferPoolManager.pool m') b
    = Ok (Frame.mk 1 (Buffer.mk pageID (make PageSize) true 1 true)) /\
  DiskManager.nextPageID (BufferPoolManager.disk m') = wrap64 (pageID + 1) /\
  exists m'',
    BufferPoolManager.FetchPage pageID m' = (Ok b, m'') /\
    BufferPool.frame_at (BufferPoolManager.pool m'') b
      = Ok (Frame.mk 2 (Buffer.mk pageID (make PageSize) true 2 true)) /\
    BufferPoolManager.disk m'' = BufferPoolManager.disk m'.
Proof.
  unfold BufferPoolManager.CreatePage. intros H.
  destruct (BufferPool.Evict (BufferPoolManager.pool m)) as [[idx|e] p] eqn:He;
    [|discriminate].
  destruct (BufferPool.frame_at p idx) as [f|e] eqn:Hf; [|discriminate].
  destruct (BufferPoolManager.write_back (BufferPoolManager.disk m) f)
    as [d|e] eqn:Hw; [|discriminate].
  apply write_back_nextPageID in Hw.
  unfold DiskManager.AllocatePage in H. injection H as <- <-.
  rewrite Hw. cbn zeta.
  cbn [BufferPoolManager.pool BufferPoolManager.disk DiskManager.nextPageID].
  assert (Hat : forall g, BufferPool.frame_at (BufferPool.set_frame p idx g) idx = Ok g)
    by (intros g; eapply frame_at_set_frame; exact Hf).
  split; [apply Hat|]. split; [reflexivity|].
  unfold BufferPoolManager.FetchPage.
  cbn [BufferPoolManager.pageTable BufferPoolManager.pool].
  rewrite lookup_insert_eq, Hat.
  eexists. split; [reflexivity|].
  cbn [BufferPoolManager.pool BufferPoolManager.set_pool BufferPoolManager.disk].
  split; [|reflexivity].
  erewrite frame_at_set_frame by apply Hat. reflexivity.
Qed.

Lemma CreatePage_then_FetchPage_witness :
  BufferPool.frame_at (BufferPoolManager.pool (after_second [])) 1
    = Ok (Frame.mk 1 (Buffer.mk 1 (make PageSize) true 1 true)) /\
  DiskManager.nextPageID (BufferPoolManager.disk (after_second [])) = wrap64 (1 + 1) /\
  exists m'',
    BufferPoolManager.FetchPage 1 (after_second []) = (Ok 1, m'') /\
    BufferPool.frame_at (BufferPoolManager.pool m'') 1
      = Ok (Frame.mk 2 (Buffer.mk 1 (make PageSize) true 2 true)) /\
    BufferPoolManager.disk m'' = BufferPoolManager.disk (after_second []).
Proof.
  apply (CreatePage_then_FetchPage (after_first []) (after_second []) 1).
  vm_compute. reflexivity.
Defined.

Section PageTable.

(** Two managers with the same page table whose frames stand for the
    same pages. *)
Lemma table_consistent_same (m m' : BufferPoolManager.t) :
  BufferPoolManager.pageTable m' = BufferPoolManager.pageTable m ->
  frame_page <$> BufferPool.frames (BufferPoolManager.pool m')
    = frame_page <$> BufferPool.frames (BufferPoolManager.pool m) ->
  table_consistent m -> table_consistent m'.
Proof.
  intros Hpt Hfr Hm pageID bufferID Hl. rewrite Hpt in Hl.
  destruct (Hm pageID bufferID Hl) as (f & Hf & Hp & Hv).
  apply frame_at_Ok in Hf as [Hi Hf].
  assert (Hg : (frame_page <$> BufferPool.frames (BufferPoolManager.pool m'))
               !! Z.to_nat bufferID = Some (frame_page f)).
  { rewrite Hfr, list_lookup_fmap, Hf. reflexivity. }
  rewrite list_lookup_fmap in Hg.
  destruct (BufferPool.frames (BufferPoolManager.pool m') !! Z.to_nat bufferID)
    as [f'|] eqn:Hf'; [|discriminate].
  cbn in Hg. injection Hg as Hg1 Hg2.
  exists f'. split; [apply frame_at_Ok; split; assumption|].
  split; congruence.
Qed.

Lemma frame_page_insert (l : list Frame.t) (i : nat) (f f' : Frame.t) :
  l !! i = Some f -> frame_page f' = frame_page f ->
  frame_page <$> <[i := f']> l = frame_page <$> l.
Proof.
  intros Hl Hp. rewrite list_fmap_insert, Hp.
  apply list_insert_id. rewrite list_lookup_fmap, Hl. reflexivity.
Qed.

Lemma Evict_loop_pages (fuel : nat) (p : BufferPool.t) (c : Z) r p' :
  BufferPool.Evict_loop fuel p c = (r, p') ->
  Frame.Buffer <$> BufferPool.frames p' = Frame.Buffer <$> BufferPool.frames p.
Proof.
  revert p c. induction fuel as [|fuel IH]; intros p c H.
  - cbn in H. injection H as <- <-. reflexivity.
  - cbn [BufferPool.Evict_loop] in H.
    destruct (BufferPool.frame_at p (BufferPool.nextVictimID p)) as [f|e] eqn:Hf.
    2:{ injection H as <- <-. reflexivity. }
    destruct (Frame.UsageCount f =? 0).
    { injection H as <- <-. reflexivity. }
    apply frame_at_Ok in Hf as [Hnv Hf].
    assert (H1 : forall u,
               Frame.Buffer <$> <[Z.to_nat (BufferPool.nextVictimID p)
                                  := Frame.set_UsageCount f u]> (BufferPool.frames p)
               = Frame.Buffer <$> BufferPool.frames p).
    { intros u. rewrite list_fmap_insert. apply list_insert_id.
      rewrite list_lookup_fmap, Hf. reflexivity. }
    destruct (Buffer.refCount (Frame.Buffer f) =? 0).
    + unfold BufferPool.incrementID in H.
      destruct (BufferPool.Size _ =? 0).
      { injection H as <- <-. apply H1. }
      apply IH in H. rewrite H. apply H1.
    + destruct (BufferPool.Size p <=? wint (c + 1)).
      { injection H as <- <-. reflexivity. }
      unfold BufferPool.incrementID in H.
      destruct (BufferPool.Size p =? 0).
      { injection H as <- <-. reflexivity. }
      apply IH in H. exact H.
Qed.

Lemma Evict_pages (p : BufferPool.t) r p' :
  BufferPool.Evict p = (r, p') ->
  frame_page <$> BufferPool.frames p' = frame_page <$> BufferPool.frames p.
Proof.
  intros H. apply Evict_loop_pages in H.
  change frame_page with ((fun b => (Buffer.PageID b, Buffer.isValid b)) ∘ Frame.Buffer).
  rewrite !list_fmap_compose, H. reflexivity.
Qed.

Lemma table_consistent_Evict (m : BufferPoolManager.t) r p :
  BufferPool.Evict (BufferPoolManager.pool m) = (r, p) ->
  table_consistent m -> table_consistent (BufferPoolManager.set_pool m p).
Proof.
  intros He. apply table_consistent_same; [reflexivity|].
  apply Evict_pages in He. exact He.
Qed.

(** The frame a page is loaded into or created in. *)
Lemma table_consistent_install (m : BufferPoolManager.t) (d : DiskManager.t)
    (p : BufferPool.t) (idx pageID : Z) (f f' : Frame.t) :
  table_consistent (BufferPoolManager.set_pool m p) ->
  BufferPool.frame_at p idx = Ok f ->
  Buffer.PageID (Frame.Buffer f') = pageID ->
  Buffer.isValid (Frame.Buffer f') = true ->
  table_consistent
    (BufferPoolManager.mk d (BufferPool.set_frame p idx f')
       (<[pageID := idx]>
          (if Buffer.isValid (Frame.Buffer f)
           then delete (Buffer.PageID (Frame.Buffer f)) (BufferPoolManager.pageTable m)
           else BufferPoolManager.pageTable m))).
Proof.
  intros Hm Hf Hp Hv pid b Hl.
  cbn [BufferPoolManager.pageTable BufferPoolManager.pool] in *.
  apply lookup_insert_Some in Hl as [[<- <-]|[Hne Hl]].
  - exists f'. split; [eapply frame_at_set_frame; exact Hf|]. split; assumption.
  - assert (Hl' : BufferPoolManager.pageTable m !! pid = Some b).
    { destruct (Buffer.isValid (Frame.Buffer f)); [|exact Hl].
      apply lookup_delete_Some in Hl. tauto. }
    destruct (Hm pid b Hl') as (g & Hg & Hgp & Hgv).
    cbn [BufferPoolManager.set_pool BufferPoolManager.pool] in Hg.
    assert (Hb : b <> idx).
    { intros ->. rewrite Hf in Hg. injection Hg as <-.
      rewrite Hgv in Hl. apply lookup_delete_Some in Hl. tauto. }
    exists g. split; [|split; assumption].
    rewrite frame_at_set_frame_ne; [exact Hg| | |congruence].
    + eapply frame_at_nonneg. exact Hf.
    + eapply frame_at_nonneg. exact Hg.
Qed.

Lemma table_consistent_CreatePage (m : BufferPoolManager.t) :
  table_consistent m -> table_consistent (snd (BufferPoolManager.CreatePage m)).
Proof.
  intros Hm. unfold BufferPoolManager.CreatePage.
  destruct (BufferPool.Evict (BufferPoolManager.pool m)) as [[idx|e] p] eqn:He;
    pose proof (table_consistent_Evict m _ p He Hm) as Hp; [|exact Hp].
  destruct (BufferPool.frame_at p idx) as [f|e] eqn:Hf; [|exact Hp].
  destruct (BufferPoolManager.write_back (BufferPoolManager.disk m) f)
    as [d|e]; [|exact Hp].
  unfold DiskManager.AllocatePage. cbn [snd].
  eapply table_consistent_install; [exact Hp|exact Hf|reflexivity|reflexivity].
Qed.

Lemma table_consistent_FetchPage (m : BufferPoolManager.t) (pageID b : Z) :
  table_consistent m ->
  fst (BufferPoolManager.FetchPage pageID m) = Ok b ->
  table_consistent (snd (BufferPoolManager.FetchPage pageID m)).
Proof.
  intros Hm. unfold BufferPoolManager.FetchPage.
  destruct (BufferPoolManager.pageTable m !! pageID) as [bufferID|] eqn:Hl.
  - destruct (BufferPool.frame_at (BufferPoolManager.pool m) bufferID)
      as [f|e] eqn:Hf; [|discriminate].
    intros _. cbn [snd]. revert Hm. apply table_consistent_same; [reflexivity|].
    cbn [BufferPoolManager.set_pool BufferPoolManager.pool BufferPool.set_frame
         BufferPool.frames].
    apply frame_at_Ok in Hf as [_ Hf].
    eapply frame_page_insert; [exact Hf|reflexivity].
  - destruct (BufferPool.Evict (BufferPoolManager.pool m)) as [[idx|e] p] eqn:He;
      [|discriminate].
    pose proof (table_consistent_Evict m _ p He Hm) as Hp.
    destruct (BufferPool.frame_at p idx) as [f|e] eqn:Hf; [|discriminate].
    destruct (BufferPoolManager.write_back (BufferPoolManager.disk m) f)
      as [d|e]; [|discriminate].
    destruct (DiskManager.ReadPageData d pageID _) as [page|e]; [|discriminate].
    intros _. cbn [snd].
    eapply table_consistent_install; [exact Hp|exact Hf|reflexivity|reflexivity].
Qed.

Lemma Flush_entry_pages (m m' : BufferPoolManager.t) (entry : Z * Z) :
  BufferPoolManager.Flush_entry m entry = Ok m' ->
  BufferPoolManager.pageTable m' = BufferPoolManager.pageTable m /\
  frame_page <$> BufferPool.frames (BufferPoolManager.pool m')
    = frame_page <$> BufferPool.frames (BufferPoolManager.pool m).
Proof.
  destruct entry as [pageID bufferID]. unfold BufferPoolManager.Flush_entry.
  destruct (BufferPool.frame_at (BufferPoolManager.pool m) bufferID)
    as [f|e] eqn:Hf; [|discriminate].
  destruct (DiskManager.WritePageData _ _ _) as [d|e]; [|discriminate].
  intros [= <-]. split; [reflexivity|].
  cbn [BufferPoolManager.pool BufferPool.set_frame BufferPool.frames].
  apply frame_at_Ok in Hf as [_ Hf].
  eapply frame_page_insert; [exact Hf|reflexivity].
Qed.

Lemma table_consistent_Flush_entries (entries : list (Z * Z)) (m : BufferPoolManager.t) :
  table_consistent m ->
  table_consistent (snd (BufferPoolManager.Flush_entries entries m)).
Proof.
  revert m. induction entries as [|entry rest IH]; intros m Hm; [exact Hm|].
  cbn [BufferPoolManager.Flush_entries].
  destruct (BufferPoolManager.Flush_entry m entry) as [m1|e] eqn:H1; [|exact Hm].
  apply IH. apply Flush_entry_pages in H1 as [Hpt Hfr].
  revert Hm. apply table_consistent_same; assumption.
Qed.

Lemma table_consistent_Flush (m : BufferPoolManager.t) :
  table_consistent m -> table_consistent (snd (BufferPoolManager.Flush m)).
Proof.
  intros Hm. unfold BufferPoolManager.Flush.
  pose proof (table_consistent_Flush_entries
                (map_to_list (BufferPoolManager.pageTable m)) m Hm) as H.
  destruct (BufferPoolManager.Flush_entries _ m) as [[[]|e] m1]; exact H.
Qed.

End PageTable.

(** X13. The page table stays consistent: when every entry of the page
    table names a frame that holds that page and is valid, the same is true
    after [CreatePage] and after [Flush], whatever they return, and after a
    [FetchPage] that succeeds. *)
Theorem page_table_stays_consistent (o : op) (m : BufferPoolManager.t) :
  table_consistent m ->
  (forall pageID, o = OpFetchPage pageID -> fst (run_op o m) = None) ->
  table_consistent (snd (run_op o m)).
Proof.
  intros Hm Ho. destruct o as [pageID| |]; unfold run_op.
  - specialize (Ho pageID eq_refl). unfold run_op in Ho.
    pose proof (table_consistent_FetchPage m pageID) as H.
    destruct (BufferPoolManager.FetchPage pageID m) as [[b|e] m1];
      [|discriminate].
    apply (H b Hm). reflexivity.
  - pose proof (table_consistent_CreatePage m Hm) as H.
    destruct (BufferPoolManager.CreatePage m) as [r m1]. exact H.
  - pose proof (table_consistent_Flush m Hm) as H.
    destruct (BufferPoolManager.Flush m) as [r m1]. exact H.
Qed.

Lemma table_consistent_created : table_consistent (created []).
Proof.
  intros pageID bufferID H. unfold created in H.
  cbn [BufferPoolManager.pageTable] in H.
  apply lookup_insert_Some in H as [[<- <-]|[_ H]].
  { eexists. split; [vm_compute; reflexivity|]. split; reflexivity. }
  apply lookup_insert_Some in H as [[<- <-]|[_ H]].
  { eexists. split; [vm_compute; reflexivity|]. split; reflexivity. }
  rewrite lookup_empty in H. discriminate.
Qed.

Lemma page_table_stays_consistent_witness :
  table_consistent (snd (run_op (OpFetchPage 0) (created []))).
Proof.
  apply (page_table_stays_consistent (OpFetchPage 0) (created [])).
  - exact table_consistent_created.
  - intros pageID _. vm_compute. reflexivity.
Defined.

(** * Flush, and what it leaves in the heap file *)

Section Flush.

Lemma Flush_entry_eq (m m' : BufferPoolManager.t) (pageID bufferID : Z) :
  0 <= pageID < max_page ->
  BufferPoolManager.Flush_entry m (pageID, bufferID) = Ok m' ->
  exists f d,
    BufferPool.frame_at (BufferPoolManager.pool m) bufferID = Ok f /\
    DiskManager.WritePageData (BufferPoolManager.disk m) pageID
      (Buffer.Page (Frame.Buffer f)) = Ok d /\
    m' = BufferPoolManager.mk d
           (BufferPool.set_frame (BufferPoolManager.pool m) bufferID (flushed f))
           (BufferPoolManager.pageTable m).
Proof.
  intros Hp. unfold BufferPoolManager.Flush_entry.
  destruct (BufferPool.frame_at (BufferPoolManager.pool m) bufferID)
    as [f|e] eqn:Hf; [|discriminate].
  destruct (DiskManager.WritePageData _ _ _) as [d|e] eqn:Hw; [|discriminate].
  intros [= <-]. exists f, d. repeat split; first [reflexivity | exact Hw].
Qed.

Lemma Flush_entries_spec (entries : list (Z * Z)) (m m' : BufferPoolManager.t) :
  BufferPoolManager.Flush_entries entries m = (Ok tt, m') ->
  NoDup (entries.*1) ->
  Forall (fun e => 0 <= e.1 < max_page) entries ->
  BufferPoolManager.pageTable m' = BufferPoolManager.pageTable m /\
  (forall i f, BufferPool.frame_at (BufferPoolManager.pool m) i = Ok f ->
     exists f', BufferPool.frame_at (BufferPoolManager.pool m') i = Ok f' /\
                (f' = f \/ f' = flushed f)) /\
  (forall j p, DiskManager.heapFile (BufferPoolManager.disk m) !! j = Some p ->
     (forall e, e ∈ entries -> Z.to_nat e.1 <> j) ->
     DiskManager.heapFile (BufferPoolManager.disk m') !! j = Some p) /\
  (forall pageID bufferID, (pageID, bufferID) ∈ entries ->
     exists f, BufferPool.frame_at (BufferPoolManager.pool m) bufferID = Ok f /\
       DiskManager.heapFile (BufferPoolManager.disk m') !! Z.to_nat pageID
         = Some (Buffer.Page (Frame.Buffer f)) /\
       BufferPool.frame_at (BufferPoolManager.pool m') bufferID = Ok (flushed f)).
Proof.
  revert m. induction entries as [|[pid b] rest IH]; intros m H Hnd Hr.
  - cbn in H. injection H as <-. split; [reflexivity|]. split.
    { intros i f Hf. exists f. split; [exact Hf|left; reflexivity]. }
    split; [intros j p Hj _; exact Hj|].
    intros pageID bufferID Hin. apply elem_of_nil in Hin. destruct Hin.
  - cbn [BufferPoolManager.Flush_entries] in H.
    destruct (BufferPoolManager.Flush_entry m (pid, b)) as [m1|e] eqn:H1;
      [|discriminate].
    apply Forall_cons in Hr as [Hpid Hr]. cbn [fst] in Hpid.
    cbn [fmap list_fmap fst] in Hnd. apply NoDup_cons in Hnd as [Hnotin Hnd].
    destruct (Flush_entry_eq m m1 pid b Hpid H1) as (f & d & Hf & Hw & ->).
    rewrite WritePageData_Ok in Hw by exact Hpid. injection Hw as <-.
    destruct (IH _ H Hnd Hr) as (Hpt & Hfr & Hdisk & Hent). clear IH H H1.
    cbn [BufferPoolManager.pool BufferPoolManager.disk BufferPoolManager.pageTable
         DiskManager.heapFile] in *.
    pose proof (frame_at_nonneg _ _ _ Hf) as Hb0.
    assert (Hstep : forall i g,
               BufferPool.frame_at (BufferPoolManager.pool m) i = Ok g ->
               exists g1,
                 BufferPool.frame_at
                   (BufferPool.set_frame (BufferPoolManager.pool m) b (flushed f)) i
                 = Ok g1 /\ (g1 = g \/ g1 = flushed g)).
    { intros i g Hg. destruct (decide (i = b)) as [->|Hne].
      - exists (flushed f). split; [eapply frame_at_set_frame; exact Hf|].
        right. congruence.
      - exists g. split; [|left; reflexivity].
        rewrite frame_at_set_frame_ne; [exact Hg|exact Hb0| |congruence].
        eapply frame_at_nonneg. exact Hg. }
    split; [exact Hpt|]. split; [|split].
    + intros i g Hg. destruct (Hstep i g Hg) as (g1 & Hg1 & Hor).
      destruct (Hfr i g1 Hg1) as (g2 & Hg2 & Hor2).
      exists g2. split; [exact Hg2|].
      destruct Hor as [->| ->], Hor2 as [->| ->]; auto.
    + intros j p Hj Hnot. apply Hdisk.
      * rewrite written_lookup.
        rewrite decide_False
          by (intros ->; apply (Hnot (pid, b)); [left|reflexivity]).
        rewrite decide_True by (eapply lookup_lt_Some; exact Hj). exact Hj.
      * intros e He. apply Hnot. right. exact He.
    + intros pageID bufferID Hin. apply elem_of_cons in Hin as [[= -> ->]|Hin].
      * exists f. split; [exact Hf|]. split.
        -- apply Hdisk.
           ++ rewrite written_lookup. rewrite decide_True by reflexivity. reflexivity.
           ++ intros e He Heq. apply Hnotin.
              apply list_elem_of_fmap. exists e. split; [|exact He].
              destruct Hpid as [Hp0 _].
              rewrite Forall_forall in Hr. specialize (Hr e He). lia.
        -- destruct (Hfr b (flushed f)) as (g2 & Hg2 & Hor).
           { eapply frame_at_set_frame. exact Hf. }
           rewrite Hg2. destruct Hor as [->| ->]; reflexivity.
      * destruct (Hent pageID bufferID Hin) as (g1 & Hg1 & Hd & Hfl).
        destruct (decide (bufferID = b)) as [->|Hne].
        -- exists f. split; [exact Hf|].
           erewrite frame_at_set_frame in Hg1 by exact Hf.
           injection Hg1 as <-. split; [exact Hd|exact Hfl].
        -- exists g1.
           rewrite frame_at_set_frame_ne in Hg1;
             [|exact Hb0| |congruence].
           ++ split; [exact Hg1|]. split; [exact Hd|exact Hfl].
           ++ apply frame_at_nonneg in Hfl. exact Hfl.
Qed.

End Flush.

Lemma Flush_written (m m' : BufferPoolManager.t) :
  (forall pageID bufferID,
     BufferPoolManager.pageTable m !! pageID = Some bufferID ->
     0 <= pageID < max_page) ->
  BufferPoolManager.Flush m = (Ok tt, m') ->
  forall pageID bufferID,
    BufferPoolManager.pageTable m !! pageID = Some bufferID ->
    exists f,
      BufferPool.frame_at (BufferPoolManager.pool m) bufferID = Ok f /\
      DiskManager.heapFile (BufferPoolManager.disk m') !! Z.to_nat pageID
        = Some (Buffer.Page (Frame.Buffer f)) /\
      BufferPool.frame_at (BufferPoolManager.pool m') bufferID = Ok (flushed f).
Proof.
  intros Hr H pageID bufferID Hl. unfold BufferPoolManager.Flush in H.
  destruct (BufferPoolManager.Flush_entries _ m) as [[[]|e] m1] eqn:He;
    [|discriminate].
  unfold DiskManager.Sync in H. injection H as <-.
  apply Flush_entries_spec in He as (_ & _ & _ & Hent).
  - destruct (Hent pageID bufferID) as (f & Hf & Hd & Hfl).
    { apply elem_of_map_to_list. exact Hl. }
    exists f. auto.
  - apply NoDup_fst_map_to_list.
  - apply Forall_forall. intros [pid b] Hin.
    apply elem_of_map_to_list in Hin. cbn [fst]. eapply Hr. exact Hin.
Qed.

(** X14. A [Flush] that succeeds leaves every page of the page table in
    the heap file, with the content of its buffer, and every such buffer
    clean; usage and reference counts and page contents are as before. *)
Theorem Flush_writes_every_page (m m' : BufferPoolManager.t) :
  (forall pageID bufferID,
     BufferPoolManager.pageTable m !! pageID = Some bufferID ->
     0 <= pageID < max_page) ->
  BufferPoolManager.Flush m = (Ok tt, m') ->
  forall pageID bufferID,
    BufferPoolManager.pageTable m !! pageID = Some bufferID ->
    exists f,
      BufferPool.frame_at (BufferPoolManager.pool m) bufferID = Ok f /\
      DiskManager.heapFile (BufferPoolManager.disk m') !! Z.to_nat pageID
        = Some (Buffer.Page (Frame.Buffer f)) /\
      BufferPool.frame_at (BufferPoolManager.pool m') bufferID = Ok (flushed f).
Proof. exact (Flush_written m m'). Qed.

Lemma Flush_writes_every_page_witness :
  exists f,
    BufferPool.frame_at (BufferPoolManager.pool (created [])) 1 = Ok f /\
    DiskManager.heapFile
      (BufferPoolManager.disk (snd (BufferPoolManager.Flush (created []))))
      !! Z.to_nat 1 = Some (Buffer.Page (Frame.Buffer f)) /\
    BufferPool.frame_at
      (BufferPoolManager.pool (snd (BufferPoolManager.Flush (created [])))) 1
    = Ok (flushed f).
Proof.
  apply (Flush_writes_every_page (created [])
           (snd (BufferPoolManager.Flush (created []))) ).
  - intros pageID bufferID H. unfold created in H.
    cbn [BufferPoolManager.pageTable] in H. unfold max_page.
    apply lookup_insert_Some in H as [[<- <-]|[_ H]]; [lia|].
    apply lookup_insert_Some in H as [[<- <-]|[_ H]]; [lia|].
    rewrite lookup_empty in H. discriminate.
  - vm_compute. reflexivity.
  - vm_compute. reflexivity.
Defined.

Section Reopen.

Lemma NewBufferPool_eq (poolSize : Z) :
  0 <= poolSize ->
  BufferPool.NewBufferPool poolSize
  = Ok (BufferPool.mk (repeat new_frame (Z.to_nat poolSize)) 0).
Proof.
  intros H. unfold BufferPool.NewBufferPool.
  replace (poolSize <? 0) with false by (symmetry; apply Z.ltb_ge; lia).
  reflexivity.
Qed.

Lemma Evict_first_free (f : Frame.t) (tl : list Frame.t) :
  Frame.UsageCount f = 0 ->
  BufferPool.Evict (BufferPool.mk (f :: tl) 0) = (Ok 0, BufferPool.mk (f :: tl) 0).
Proof.
  intros Hu. unfold BufferPool.Evict, BufferPool.sweep_bound.
  cbn [BufferPool.frames length]. rewrite Nat.mul_succ_l, Nat.add_succ_r.
  apply (Evict_loop_found _ (BufferPool.mk (f :: tl) 0) 0 f); [reflexivity|exact Hu].
Qed.

Lemma FetchPage_first_frame (d : DiskManager.t) (tl : list Frame.t)
    (pageID : Z) (page : list byte) :
  0 <= pageID < max_page ->
  DiskManager.heapFile d !! Z.to_nat pageID = Some page ->
  len page = PageSize ->
  BufferPoolManager.FetchPage pageID
    (BufferPoolManager.NewBufferPoolManager d (BufferPool.mk (new_frame :: tl) 0))
  = (Ok 0,
     BufferPoolManager.mk d
       (BufferPool.mk (Frame.mk 1 (Buffer.mk pageID page false 1 true) :: tl) 0)
       (<[pageID := 0]> ∅)).
Proof.
  intros Hp Hl Hlen. unfold BufferPoolManager.FetchPage.
  cbn [BufferPoolManager.NewBufferPoolManager BufferPoolManager.pageTable
       BufferPoolManager.pool BufferPoolManager.disk].
  rewrite lookup_empty.
  rewrite (Evict_first_free new_frame tl eq_refl).
  change (BufferPool.frame_at (BufferPool.mk (new_frame :: tl) 0) 0)
    with (Ok new_frame : result Frame.t).
  cbn [new_frame Frame.Buffer Frame.UsageCount Buffer.zero Buffer.PageID
       Buffer.Page Buffer.isValid Buffer.IsDirty Buffer.refCount
       BufferPoolManager.write_back andb].
  rewrite ReadPageData_eq by exact Hp. rewrite Hl.
  rewrite copy_same_length.
  2:{ unfold len, PageSize in Hlen. unfold make, PageSize.
      rewrite repeat_length. lia. }
  reflexivity.
Qed.

End Reopen.

(** X15. What [Flush] wrote survives a restart: after a [Flush] that
    succeeds, a new manager opened on the heap file, with a new pool of at
    least one frame, fetches every page of the old page table from the file
    with the content its buffer had. *)
Theorem flushed_pages_survive_reopen (m m' : BufferPoolManager.t)
    (pageID bufferID : Z) (f : Frame.t) (poolSize : Z) :
  (forall pageID bufferID,
     BufferPoolManager.pageTable m !! pageID = Some bufferID ->
     0 <= pageID < max_page) ->
  BufferPoolManager.Flush m = (Ok tt, m') ->
  BufferPoolManager.pageTable m !! pageID = Some bufferID ->
  BufferPool.frame_at (BufferPoolManager.pool m) bufferID = Ok f ->
  len (Buffer.Page (Frame.Buffer f)) = PageSize ->
  0 < poolSize ->
  exists pool m1,
    BufferPool.NewBufferPool poolSize = Ok pool /\
    BufferPoolManager.FetchPage pageID
      (BufferPoolManager.NewBufferPoolManager
         (DiskManager.NewDiskManager
            (DiskManager.heapFile (BufferPoolManager.disk m'))) pool)
    = (Ok 0, m1) /\
    BufferPool.frame_at (BufferPoolManager.pool m1) 0
    = Ok (Frame.mk 1 (Buffer.mk pageID (Buffer.Page (Frame.Buffer f)) false 1 true)).
Proof.
  intros Hr Hfl Hl Hf Hlen Hn.
  destruct (Flush_written m m' Hr Hfl pageID bufferID Hl)
    as (f' & Hf' & Hd & _).
  rewrite Hf in Hf'. injection Hf' as <-.
  rewrite NewBufferPool_eq by lia.
  destruct (Z.to_nat poolSize) as [|n] eqn:Hsz; [lia|].
  cbn [repeat].
  eexists _, _. split; [reflexivity|]. split.
  - apply FetchPage_first_frame; [eapply Hr; exact Hl|exact Hd|exact Hlen].
  - reflexivity.
Qed.

Lemma flushed_pages_survive_reopen_witness :
  exists pool m1,
    BufferPool.NewBufferPool 3 = Ok pool /\
    BufferPoolManager.FetchPage 0
      (BufferPoolManager.NewBufferPoolManager
         (DiskManager.NewDiskManager
            (DiskManager.heapFile
               (BufferPoolManager.disk (snd (BufferPoolManager.Flush (created []))))))
         pool)
    = (Ok 0, m1) /\
    BufferPool.frame_at (BufferPoolManager.pool m1) 0
    = Ok (Frame.mk 1 (Buffer.mk 0 (le_encode 8 1 ++ make 4088) false 1 true)).
Proof.
  apply (flushed_pages_survive_reopen (created [])
           (snd (BufferPoolManager.Flush (created []))) 0 0
           (Frame.mk 1 (Buffer.mk 0 (le_encode 8 1 ++ make 4088) true 1 true)) 3).
  - intros pageID bufferID H. unfold created in H.
    cbn [BufferPoolManager.pageTable] in H. unfold max_page.
    apply lookup_insert_Some in H as [[<- <-]|[_ H]]; [lia|].
    apply lookup_insert_Some in H as [[<- <-]|[_ H]]; [lia|].
    rewrite lookup_empty in H. discriminate.
  - vm_compute. reflexivity.
  - vm_compute. reflexivity.
  - vm_compute. reflexivity.
  - vm_compute. reflexivity.
  - lia.
Defined.

(** * Byte ranges of a page *)

Section Ranges.

Lemma lookup_write_at (l : list byte) (off : Z) (bs : list byte) (i : nat) :
  0 <= off -> off + len bs <= len l ->
  write_at l off bs !! i =
  if decide (Z.to_nat off <= i < Z.to_nat off + length bs)%nat
  then bs !! (i - Z.to_nat off)%nat else l !! i.
Proof.
  unfold len, write_at. intros H0 Hlen.
  rewrite lookup_app, lookup_take.
  destruct (decide (i < Z.to_nat off)%nat) as [Hlt|Hge].
  - rewrite decide_False by lia.
    destruct (l !! i) eqn:Hl; [reflexivity|].
    apply lookup_ge_None in Hl. lia.
  - rewrite length_take, Nat.min_l by lia.
    rewrite lookup_app.
    destruct (decide (Z.to_nat off <= i < Z.to_nat off + length bs)%nat) as [Hin|Hout].
    + destruct (bs !! (i - Z.to_nat off)%nat) eqn:Hb; [reflexivity|].
      apply lookup_ge_None in Hb. lia.
    + rewrite (lookup_ge_None_2 bs) by lia.
      rewrite lookup_drop. f_equal. lia.
Qed.

Lemma len_write_at (l : list byte) (off : Z) (bs : list byte) :
  0 <= off -> off + len bs <= len l -> len (write_at l off bs) = len l.
Proof.
  unfold len, write_at. intros H0 Hlen.
  rewrite !length_app, length_take, length_drop. lia.
Qed.

Lemma lookup_read_at (l : list byte) (off n : Z) (i : nat) :
  read_at l off n !! i =
  if decide (i < Z.to_nat n)%nat then l !! (Z.to_nat off + i)%nat else None.
Proof. unfold read_at. rewrite lookup_take, lookup_drop. reflexivity. Qed.

Lemma read_at_write_at (l : list byte) (off : Z) (bs : list byte) :
  0 <= off -> off + len bs <= len l ->
  read_at (write_at l off bs) off (len bs) = bs.
Proof.
  intros H0 Hlen. apply list_eq. intros i.
  rewrite lookup_read_at, lookup_write_at by assumption.
  unfold len. rewrite Nat2Z.id.
  destruct (decide (i < length bs)%nat) as [Hi|Hi].
  - rewrite decide_True by lia. f_equal. lia.
  - symmetry. apply lookup_ge_None. lia.
Qed.

Lemma read_at_write_at_other (l : list byte) (off : Z) (bs : list byte) (off' n : Z) :
  0 <= off -> off + len bs <= len l -> 0 <= off' -> 0 <= n ->
  off' + n <= off \/ off + len bs <= off' ->
  read_at (write_at l off bs) off' n = read_at l off' n.
Proof.
  intros H0 Hlen H0' Hn Hd. apply list_eq. intros i.
  rewrite !lookup_read_at, lookup_write_at by assumption.
  destruct (decide (i < Z.to_nat n)%nat) as [Hi|Hi]; [|reflexivity].
  rewrite decide_False; [reflexivity|]. unfold len in *. lia.
Qed.

Lemma drop_read_at (l : list byte) (off n : Z) :
  0 <= off -> 0 <= n ->
  drop (Z.to_nat off) l = read_at l off n ++ drop (Z.to_nat (off + n)) l.
Proof.
  intros H0 Hn. unfold read_at.
  rewrite Z2Nat.inj_add by lia. rewrite <- drop_drop.
  symmetry. apply take_drop.
Qed.

Lemma slice_from_drop {A} (l : list A) (off : Z) :
  0 <= off <= len l -> slice_from l off = Ok (drop (Z.to_nat off) l).
Proof.
  intros H. rewrite <- (take_drop (Z.to_nat off) l) at 1.
  apply slice_from_app. unfold len in *. rewrite length_take. lia.
Qed.

Lemma with_slice_from_write (l : list byte) (off : Z) (bs : list byte) f :
  0 <= off -> off + len bs <= len l ->
  f (drop (Z.to_nat off) l)
    = Ok (bs ++ drop (length bs) (drop (Z.to_nat off) l)) ->
  with_slice_from l off f = Ok (write_at l off bs).
Proof.
  intros H0 Hlen Hf. pose proof (len_nonneg bs) as Hb.
  rewrite <- (take_drop (Z.to_nat off) l) at 1.
  rewrite with_slice_from_app by (unfold len in *; rewrite length_take; lia).
  rewrite Hf. unfold write_at. rewrite drop_drop. reflexivity.
Qed.

Lemma readUint16_eq (l : list byte) (off : Z) :
  0 <= off -> off + 2 <= len l ->
  Leaf.readUint16 l off = Ok (le_decode (read_at l off 2)).
Proof.
  intros H0 Hlen. unfold Leaf.readUint16.
  rewrite slice_from_drop by lia. unfold Uint16.
  replace (2 <=? len (drop (Z.to_nat off) l)) with true; [reflexivity|].
  symmetry. apply Z.leb_le. unfold len in *. rewrite length_drop. lia.
Qed.

Lemma readUint64_eq (l : list byte) (off : Z) :
  0 <= off -> off + 8 <= len l ->
  Leaf.readUint64 l off = Ok (le_decode (read_at l off 8)).
Proof.
  intros H0 Hlen. unfold Leaf.readUint64.
  rewrite slice_from_drop by lia. unfold Uint64.
  replace (8 <=? len (drop (Z.to_nat off) l)) with true; [reflexivity|].
  symmetry. apply Z.leb_le. unfold len in *. rewrite length_drop. lia.
Qed.

Lemma writeUint16_eq (l : list byte) (off v : Z) :
  0 <= off -> off + 2 <= len l ->
  Leaf.writeUint16 l off v = Ok (write_at l off (le_encode 2 v)).
Proof.
  intros H0 Hlen. unfold Leaf.writeUint16.
  apply with_slice_from_write; [exact H0|rewrite len_le_encode; exact Hlen|].
  unfold PutUint16.
  replace (2 <=? len (drop (Z.to_nat off) l)) with true; [reflexivity|].
  symmetry. apply Z.leb_le. unfold len in *. rewrite length_drop. lia.
Qed.

Lemma writeUint64_eq (l : list byte) (off v : Z) :
  0 <= off -> off + 8 <= len l ->
  Leaf.writeUint64 l off v = Ok (write_at l off (le_encode 8 v)).
Proof.
  intros H0 Hlen. unfold Leaf.writeUint64.
  apply with_slice_from_write; [exact H0|rewrite len_le_encode; exact Hlen|].
  unfold PutUint64.
  replace (8 <=? len (drop (Z.to_nat off) l)) with true; [reflexivity|].
  symmetry. apply Z.leb_le. unfold len in *. rewrite length_drop. lia.
Qed.

Lemma copy_at_eq (l : list byte) (off : Z) (bs : list byte) :
  0 <= off -> off + len bs <= len l ->
  with_slice_from l off (fun s => Ok (copy s bs)) = Ok (write_at l off bs).
Proof.
  intros H0 Hlen. apply with_slice_from_write; [exact H0|exact Hlen|].
  unfold copy. rewrite take_ge; [reflexivity|].
  unfold len in *. rewrite length_drop. lia.
Qed.

Lemma readUint16_short (l : list byte) (off : Z) :
  len l < off + 2 -> Leaf.readUint16 l off = Err Panic.
Proof.
  intros H. unfold Leaf.readUint16, slice_from, slice.
  destruct ((0 <=? off) && (off <=? len l) && (len l <=? len l)) eqn:Hc;
    [|reflexivity].
  apply andb_true_iff in Hc as [Hc _]. apply andb_true_iff in Hc as [H0 H1].
  apply Z.leb_le in H0, H1.
  unfold Uint16.
  replace (2 <=? _) with false; [reflexivity|].
  symmetry. apply Z.leb_gt. unfold len in *.
  rewrite length_take, length_drop. lia.
Qed.

Lemma le_decode_encode_64 (v : Z) :
  0 <= v < 18446744073709551616 -> le_decode (le_encode 8 v) = v.
Proof. intros H. rewrite le_decode_encode. apply Z.mod_small. exact H. Qed.

End Ranges.

(** * The meta page and the node header *)

Section Fields.

Lemma same_except_refl (l : list byte) (lo hi : Z) : same_except l l lo hi.
Proof. split; [reflexivity|]. intros. reflexivity. Qed.

Lemma same_except_trans (l1 l2 l3 : list byte) (lo hi lo' hi' lo'' hi'' : Z) :
  same_except l1 l2 lo hi -> same_except l2 l3 lo' hi' ->
  lo'' <= lo -> lo'' <= lo' -> hi <= hi'' -> hi' <= hi'' ->
  same_except l1 l3 lo'' hi''.
Proof.
  intros [Hl1 H1] [Hl2 H2] Ha Hb Hc He. split; [congruence|].
  intros off n Hoff Hn Hd. rewrite H2 by lia. apply H1; lia.
Qed.

Lemma same_except_write_at (l : list byte) (off : Z) (bs : list byte) :
  0 <= off -> off + len bs <= len l ->
  same_except l (write_at l off bs) off (off + len bs).
Proof.
  intros H0 Hlen. split; [apply len_write_at; assumption|].
  intros off' n H0' Hn Hd. apply read_at_write_at_other; assumption.
Qed.

Lemma same_except_read16 (l l' : list byte) (lo hi off : Z) :
  same_except l l' lo hi -> 0 <= off -> off + 2 <= lo \/ hi <= off ->
  Leaf.readUint16 l' off = Leaf.readUint16 l off.
Proof.
  intros [Hl H] H0 Hd.
  destruct (Z_le_gt_dec (off + 2) (len l)) as [Hin|Hout].
  - rewrite !readUint16_eq by lia. rewrite H by lia. reflexivity.
  - rewrite !readUint16_short by lia. reflexivity.
Qed.

Lemma readUint64_short (l : list byte) (off : Z) :
  len l < off + 8 -> Leaf.readUint64 l off = Err Panic.
Proof.
  intros H. unfold Leaf.readUint64, slice_from, slice.
  destruct ((0 <=? off) && (off <=? len l) && (len l <=? len l)) eqn:Hc;
    [|reflexivity].
  apply andb_true_iff in Hc as [Hc _]. apply andb_true_iff in Hc as [H0 H1].
  apply Z.leb_le in H0, H1.
  unfold Uint64.
  replace (8 <=? _) with false; [reflexivity|].
  symmetry. apply Z.leb_gt. unfold len in *.
  rewrite length_take, length_drop. lia.
Qed.

Lemma same_except_read64 (l l' : list byte) (lo hi off : Z) :
  same_except l l' lo hi -> 0 <= off -> off + 8 <= lo \/ hi <= off ->
  Leaf.readUint64 l' off = Leaf.readUint64 l off.
Proof.
  intros [Hl H] H0 Hd.
  destruct (Z_le_gt_dec (off + 8) (len l)) as [Hin|Hout].
  - rewrite !readUint64_eq by lia. rewrite H by lia. reflexivity.
  - rewrite !readUint64_short by lia. reflexivity.
Qed.

Lemma read16_write16 (l : list byte) (off v : Z) :
  0 <= off -> off + 2 <= len l ->
  Leaf.readUint16 (write_at l off (le_encode 2 v)) off = Ok (wrap16 v).
Proof.
  intros H0 Hlen.
  assert (Hw : len (write_at l off (le_encode 2 v)) = len l)
    by (apply len_write_at; [exact H0|rewrite len_le_encode; exact Hlen]).
  rewrite readUint16_eq by lia.
  pose proof (read_at_write_at l off (le_encode 2 v) H0) as Hr.
  rewrite len_le_encode in Hr. change (Z.of_nat 2) with 2 in Hr.
  rewrite Hr by exact Hlen.
  rewrite le_decode_encode. reflexivity.
Qed.

Lemma read64_write64 (l : list byte) (off v : Z) :
  0 <= off -> off + 8 <= len l ->
  Leaf.readUint64 (write_at l off (le_encode 8 v)) off = Ok (wrap64 v).
Proof.
  intros H0 Hlen.
  assert (Hw : len (write_at l off (le_encode 8 v)) = len l)
    by (apply len_write_at; [exact H0|rewrite len_le_encode; exact Hlen]).
  rewrite readUint64_eq by lia.
  pose proof (read_at_write_at l off (le_encode 8 v) H0) as Hr.
  rewrite len_le_encode in Hr. change (Z.of_nat 8) with 8 in Hr.
  rewrite Hr by exact Hlen.
  rewrite le_decode_encode. reflexivity.
Qed.

End Fields.

(** X16. The root page id that [Meta.Sync] writes is the one [NewMeta]
    reads; the bytes behind the 8-byte header are not touched. *)
Theorem Meta_Sync_NewMeta (data : list byte) (root : Z) :
  8 <= len data -> 0 <= root < 18446744073709551616 ->
  exists data', Meta.Sync root data = Ok data' /\
                Meta.NewMeta data' = Ok root /\
                drop 8 data' = drop 8 data.
Proof.
  intros Hlen Hr.
  assert (Ht : len (take 8 data) = 8).
  { unfold len in *. rewrite length_take. lia. }
  exists (le_encode 8 root ++ drop 8 data). split; [|split].
  - unfold Meta.Sync. rewrite <- (take_drop 8 data) at 1.
    rewrite with_slice_app2 by (symmetry; exact Ht).
    unfold PutUint64. rewrite Ht. cbn [Z.leb Z.compare Pos.compare Pos.compare_cont].
    rewrite drop_ge by (unfold len in Ht; lia).
    rewrite app_nil_r. reflexivity.
  - unfold Meta.NewMeta. rewrite slice_app2 by reflexivity.
    unfold Uint64. rewrite len_le_encode.
    cbn [Z.leb Z.compare Pos.compare Pos.compare_cont Z.of_nat Pos.of_succ_nat Pos.succ].
    rewrite take_ge by (rewrite length_le_encode; lia).
    rewrite le_decode_encode_64 by exact Hr. reflexivity.
  - change 8%nat with (length (le_encode 8 root)) at 1.
    rewrite drop_app_length. reflexivity.
Qed.

Lemma Meta_Sync_NewMeta_witness :
  exists data', Meta.Sync 7 ones = Ok data' /\
                Meta.NewMeta data' = Ok 7 /\
                drop 8 data' = drop 8 ones.
Proof.
  apply (Meta_Sync_NewMeta ones 7);
    [vm_compute; congruence | lia].
Defined.

(** X17. The node type that [WriteHeader] writes into a page is the one
    [NewNode] reads from it, and the body of the node is not touched. *)
Theorem Node_WriteHeader_NewNode (data : list byte) (nodeType : Z) :
  8 <= len data -> 0 <= nodeType < 256 ->
  exists data', Node.WriteHeader nodeType data = Ok data' /\
                Node.NewNode data' = Ok nodeType /\
                Node.Body data' = Node.Body data.
Proof.
  intros Hlen Ht. destruct data as [|b rest]; [unfold len in Hlen; cbn in Hlen; lia|].
  exists (byte_of_Z nodeType :: rest). split; [reflexivity|].
  assert (Hb : forall x, slice_from (x :: rest) Node.NodeHeaderSize
                         = Ok (drop 7 rest)).
  { intros x. rewrite slice_from_drop; [reflexivity|].
    unfold Node.NodeHeaderSize, len in *. cbn [length] in *.
    lia. }
  split.
  - unfold Node.NewNode. rewrite Hb.
    rewrite byte_to_of_Z, Z.mod_small by exact Ht. reflexivity.
  - unfold Node.Body. rewrite !Hb. reflexivity.
Qed.

Lemma Node_WriteHeader_NewNode_witness :
  exists data', Node.WriteHeader Node.NodeTypeBranch ones = Ok data' /\
                Node.NewNode data' = Ok Node.NodeTypeBranch /\
                Node.Body data' = Node.Body ones.
Proof.
  apply (Node_WriteHeader_NewNode ones Node.NodeTypeBranch);
    [vm_compute; congruence | unfold Node.NodeTypeBranch; lia].
Defined.

(** * Leaf nodes: the header *)

Section LeafHeader.

Lemma same_except_drop (l l' : list byte) (lo hi k : Z) :
  same_except l l' lo hi -> hi <= k -> 0 <= k ->
  drop (Z.to_nat k) l' = drop (Z.to_nat k) l.
Proof.
  intros [Hl H] Hk H0.
  destruct (Z_le_gt_dec k (len l)) as [Hin|Hout].
  - specialize (H k (len l - k) H0 ltac:(lia) ltac:(lia)).
    unfold read_at in H.
    rewrite !take_ge in H by (unfold len in *; rewrite length_drop; lia).
    exact H.
  - rewrite !drop_ge by (unfold len in *; lia). reflexivity.
Qed.

Lemma slotOffset_eq (i : Z) :
  0 <= i <= 65536 -> Leaf.slotOffset i = 20 + 2 * i.
Proof.
  intros H. unfold Leaf.slotOffset, Leaf.LeafHeaderSize, Leaf.LeafSlotSize.
  rewrite !wint_small by (unfold max_int; rewrite ?wint_small by (unfold max_int; lia); lia).
  lia.
Qed.

(** The four writes of [Initialize]. *)
Lemma Initialize_eq (l : list byte) :
  20 <= len l ->
  Leaf.Initialize l =
  Ok (write_at
        (write_at
           (write_at (write_at l 0 (le_encode 8 Leaf.InvalidPageID))
              8 (le_encode 8 Leaf.InvalidPageID))
           16 (le_encode 2 0))
        18 (le_encode 2 (wrap16 (len l)))).
Proof.
  intros Hlen. unfold Leaf.Initialize, Leaf.setPrevPageID, Leaf.setNextPageID,
    Leaf.setNumPairs, Leaf.setFreeSpaceOffset,
    Leaf.LeafPrevPageIDOffset, Leaf.LeafNextPageIDOffset,
    Leaf.LeafNumPairsOffset, Leaf.LeafFreeSpaceOffsetOffset.
  set (l1 := write_at l 0 (le_encode 8 Leaf.InvalidPageID)).
  assert (H1 : len l1 = len l)
    by (apply len_write_at; rewrite ?len_le_encode; lia).
  set (l2 := write_at l1 8 (le_encode 8 Leaf.InvalidPageID)).
  assert (H2 : len l2 = len l)
    by (unfold l2; rewrite len_write_at; rewrite ?len_le_encode; lia).
  set (l3 := write_at l2 16 (le_encode 2 0)).
  assert (H3 : len l3 = len l)
    by (unfold l3; rewrite len_write_at; rewrite ?len_le_encode; lia).
  rewrite writeUint64_eq by lia. fold l1.
  rewrite writeUint64_eq by lia. fold l2.
  rewrite writeUint16_eq by lia. fold l3.
  rewrite writeUint16_eq by lia. rewrite H3. reflexivity.
Qed.

Lemma Initialize_spec (l : list byte) :
  20 <= len l <= 65535 ->
  exists l', Leaf.Initialize l = Ok l' /\ same_except l l' 0 20 /\
             Leaf.readUint64 l' 0 = Ok Leaf.InvalidPageID /\
             Leaf.readUint64 l' 8 = Ok Leaf.InvalidPageID /\
             Leaf.readUint16 l' 16 = Ok 0 /\
             Leaf.readUint16 l' 18 = Ok (len l).
Proof.
  intros Hlen. eexists. split; [apply Initialize_eq; lia|].
  set (l1 := write_at l 0 (le_encode 8 Leaf.InvalidPageID)).
  assert (E1 : same_except l l1 0 8)
    by (apply (same_except_write_at l 0 (le_encode 8 _)); rewrite ?len_le_encode; lia).
  set (l2 := write_at l1 8 (le_encode 8 Leaf.InvalidPageID)).
  assert (E2 : same_except l1 l2 8 16).
  { apply (same_except_write_at l1 8 (le_encode 8 _));
      rewrite ?len_le_encode, ?(proj1 E1); lia. }
  set (l3 := write_at l2 16 (le_encode 2 0)).
  assert (E3 : same_except l2 l3 16 18).
  { apply (same_except_write_at l2 16 (le_encode 2 _));
      rewrite ?len_le_encode, ?(proj1 E2), ?(proj1 E1); lia. }
  set (l4 := write_at l3 18 (le_encode 2 (wrap16 (len l)))).
  assert (E4 : same_except l3 l4 18 20).
  { apply (same_except_write_at l3 18 (le_encode 2 _));
      rewrite ?len_le_encode, ?(proj1 E3), ?(proj1 E2), ?(proj1 E1); lia. }
  pose proof (proj1 E1) as H1. pose proof (proj1 E2) as H2.
  pose proof (proj1 E3) as H3.
  split; [|split; [|split; [|split]]].
  - apply (same_except_trans l l3 l4 0 18 18 20 0 20); [|exact E4|lia..].
    apply (same_except_trans l l2 l3 0 16 16 18 0 18); [|exact E3|lia..].
    apply (same_except_trans l l1 l2 0 8 8 16 0 16); [exact E1|exact E2|lia..].
  - rewrite (same_except_read64 l3 l4 18 20) by (try exact E4; lia).
    rewrite (same_except_read64 l2 l3 16 18) by (try exact E3; lia).
    rewrite (same_except_read64 l1 l2 8 16) by (try exact E2; lia).
    unfold l1. rewrite read64_write64 by lia. reflexivity.
  - rewrite (same_except_read64 l3 l4 18 20) by (try exact E4; lia).
    rewrite (same_except_read64 l2 l3 16 18) by (try exact E3; lia).
    unfold l2. rewrite read64_write64 by lia. reflexivity.
  - rewrite (same_except_read16 l3 l4 18 20) by (try exact E4; lia).
    unfold l3. rewrite read16_write16 by lia. reflexivity.
  - unfold l4. rewrite read16_write16 by lia.
    pose proof (len_nonneg l) as Hl0.
    rewrite !(wrap16_small (len l)) by lia. reflexivity.
Qed.

End LeafHeader.

(** X19. The sibling pointers of a leaf are read back as they were set,
    nil included, and setting them touches neither the other pointer nor
    anything behind the two pointers (pair count, free space, slots and
    pairs). *)
Theorem Leaf_sibling_pointers (l : list byte) (prev next : option Z) :
  16 <= len l -> storable prev -> storable next ->
  exists l1 l2, Leaf.SetPrevPageID l prev = Ok l1 /\
                Leaf.SetNextPageID l1 next = Ok l2 /\
                Leaf.PrevPageID l2 = Ok prev /\
                Leaf.NextPageID l2 = Ok next /\
                drop 16 l2 = drop 16 l.
Proof.
  intros Hlen Hp Hn.
  set (p := match prev with Some id => id | None => Leaf.InvalidPageID end).
  set (n := match next with Some id => id | None => Leaf.InvalidPageID end).
  assert (Hpb : 0 <= p < 18446744073709551616).
  { unfold p. destruct prev; unfold storable, Leaf.InvalidPageID in *; lia. }
  assert (Hnb : 0 <= n < 18446744073709551616).
  { unfold n. destruct next; unfold storable, Leaf.InvalidPageID in *; lia. }
  set (l1 := write_at l 0 (le_encode 8 p)).
  assert (E1 : same_except l l1 0 8)
    by (apply (same_except_write_at l 0 (le_encode 8 _)); rewrite ?len_le_encode; lia).
  set (l2 := write_at l1 8 (le_encode 8 n)).
  assert (E2 : same_except l1 l2 8 16).
  { apply (same_except_write_at l1 8 (le_encode 8 _));
      rewrite ?len_le_encode, ?(proj1 E1); lia. }
  pose proof (proj1 E1) as H1.
  exists l1, l2. split; [|split; [|split; [|split]]].
  - destruct prev; unfold Leaf.SetPrevPageID, Leaf.setPrevPageID,
      Leaf.LeafPrevPageIDOffset; rewrite writeUint64_eq by lia; reflexivity.
  - destruct next; unfold Leaf.SetNextPageID, Leaf.setNextPageID,
      Leaf.LeafNextPageIDOffset; rewrite writeUint64_eq by lia; reflexivity.
  - unfold Leaf.PrevPageID, Leaf.LeafPrevPageIDOffset.
    rewrite (same_except_read64 l1 l2 8 16) by (try exact E2; lia).
    unfold l1. rewrite read64_write64, wrap64_small by lia.
    unfold p. destruct prev as [id|].
    + replace (id =? Leaf.InvalidPageID) with false; [reflexivity|].
      symmetry. apply Z.eqb_neq. unfold storable in Hp. lia.
    + reflexivity.
  - unfold Leaf.NextPageID, Leaf.LeafNextPageIDOffset.
    unfold l2. rewrite read64_write64, wrap64_small by lia.
    unfold n. destruct next as [id|].
    + replace (id =? Leaf.InvalidPageID) with false; [reflexivity|].
      symmetry. apply Z.eqb_neq. unfold storable in Hn. lia.
    + reflexivity.
  - change 16%nat with (Z.to_nat 16).
    rewrite (same_except_drop l1 l2 8 16 16 E2) by lia.
    apply (same_except_drop l l1 0 8 16 E1); lia.
Qed.

Lemma Leaf_sibling_pointers_witness :
  exists l1 l2, Leaf.SetPrevPageID body_of_ones (Some 3) = Ok l1 /\
                Leaf.SetNextPageID l1 None = Ok l2 /\
                Leaf.PrevPageID l2 = Ok (Some 3) /\
                Leaf.NextPageID l2 = Ok None /\
                drop 16 l2 = drop 16 body_of_ones.
Proof.
  apply (Leaf_sibling_pointers body_of_ones (Some 3) None).
  - vm_compute. congruence.
  - unfold storable, Leaf.InvalidPageID. lia.
  - exact I.
Defined.

(** * Leaf nodes: slots and pairs *)

Section LeafPairs.

Lemma getSlot_eq (l : list byte) (i : Z) :
  0 <= i <= 65536 -> Leaf.getSlot l i = Leaf.readUint16 l (20 + 2 * i).
Proof. intros H. unfold Leaf.getSlot. rewrite slotOffset_eq by lia. reflexivity. Qed.

Lemma setSlot_eq (l : list byte) (i v : Z) :
  0 <= i <= 65536 -> 20 + 2 * i + 2 <= len l ->
  Leaf.setSlot l i v = Ok (write_at l (20 + 2 * i) (le_encode 2 v)).
Proof.
  intros H Hlen. unfold Leaf.setSlot. rewrite slotOffset_eq by lia.
  apply writeUint16_eq; lia.
Qed.

Lemma readUint16_range (l : list byte) (off v : Z) :
  Leaf.readUint16 l off = Ok v -> 0 <= v < 65536.
Proof.
  unfold Leaf.readUint16, slice_from. intros H.
  destruct (slice l off (len l)) as [s|e]; [|discriminate].
  unfold Uint16 in H. destruct (2 <=? len s) eqn:Hs; [|discriminate].
  injection H as <-. apply Z.leb_le in Hs.
  destruct s as [|a [|b s]]; try (unfold len in Hs; cbn in Hs; lia).
  change (take 2 (a :: b :: s)) with [a; b]. cbn [le_decode].
  pose proof (byte_to_Z_range a). pose proof (byte_to_Z_range b). lia.
Qed.

Lemma readUint16_Ok (l : list byte) (off : Z) :
  0 <= off -> off + 2 <= len l -> exists v, Leaf.readUint16 l off = Ok v.
Proof. intros H0 Hlen. eexists. apply readUint16_eq; assumption. Qed.

Lemma stored_at_same (l l' : list byte) (lo hi off : Z) (p : Pair.t) :
  same_except l l' lo hi -> 0 <= off -> hi <= off ->
  stored_at l off p -> stored_at l' off p.
Proof.
  intros [Hl H] H0 Hhi [Hin Hr]. split; [lia|].
  rewrite H; [exact Hr|exact H0|apply len_nonneg|lia].
Qed.

Lemma stored_at_fits (l : list byte) (off : Z) (p : Pair.t) :
  len l <= 65535 -> 0 <= off -> stored_at l off p ->
  len (Pair.Key p) <= 65531 /\ len (Pair.Value p) <= 65535.
Proof.
  intros Hl H0 [Hin _]. rewrite len_pair_bytes in Hin.
  pose proof (len_nonneg (Pair.Key p)). pose proof (len_nonneg (Pair.Value p)).
  lia.
Qed.

Lemma PairAt_stored (l : list byte) (i off : Z) (p : Pair.t) :
  len l <= 65535 ->
  Leaf.getSlot l i = Ok off -> stored_at l off p -> Leaf.PairAt l i = Ok p.
Proof.
  intros Hl Hs Hst. unfold Leaf.PairAt. rewrite Hs.
  assert (H0 : 0 <= off).
  { unfold Leaf.getSlot in Hs. apply readUint16_range in Hs. lia. }
  destruct (stored_at_fits l off p Hl H0 Hst) as [Hk Hv].
  destruct Hst as [Hin Hr].
  pose proof (len_nonneg (pair_bytes p)) as Hp0.
  rewrite slice_from_drop by lia.
  rewrite (drop_read_at l off (len (pair_bytes p))) by lia.
  rewrite Hr. apply PairFromBytes_pair_bytes; assumption.
Qed.

Lemma PairAt_holds (l : list byte) (pairs : list Pair.t) (i : nat) (p : Pair.t) :
  leaf_holds l pairs -> pairs !! i = Some p ->
  Leaf.PairAt l (Z.of_nat i) = Ok p.
Proof.
  intros (Hl & _ & fso & _ & _ & Hp) Hi.
  destruct (Hp i p Hi) as (off & Hs & _ & Hst).
  eapply PairAt_stored; eassumption.
Qed.

(** The loop that moves the slots [i-k .. i-1] one place up. *)
Lemma shift_slots_spec (k : nat) (l : list byte) (i : Z) :
  Z.of_nat k <= i -> i <= 32767 -> 20 + 2 * i + 2 <= len l ->
  exists l',
    Leaf.shift_slots k l i = Ok l' /\
    same_except l l' (20 + 2 * (i - Z.of_nat k + 1)) (20 + 2 * i + 2) /\
    forall j, i - Z.of_nat k < j <= i ->
              Leaf.getSlot l' j = Leaf.getSlot l (j - 1).
Proof.
  revert l i. induction k as [|k IH]; intros l i Hk Hi Hlen.
  - exists l. split; [reflexivity|]. split; [apply same_except_refl|].
    intros j Hj. lia.
  - cbn [Leaf.shift_slots].
    rewrite (wint_small (i - 1)) by (unfold max_int; lia).
    rewrite (getSlot_eq l (i - 1)) by lia.
    destruct (readUint16_Ok l (20 + 2 * (i - 1)) ltac:(lia) ltac:(lia)) as [v Hv].
    rewrite Hv.
    pose proof (readUint16_range _ _ _ Hv) as Hvr.
    rewrite setSlot_eq by lia.
    set (l1 := write_at l (20 + 2 * i) (le_encode 2 v)).
    assert (E1 : same_except l l1 (20 + 2 * i) (20 + 2 * i + 2)).
    { apply (same_except_write_at l (20 + 2 * i) (le_encode 2 v));
        rewrite ?len_le_encode; lia. }
    destruct (IH l1 (i - 1)) as (l' & Hsh & E' & Hslots);
      [lia|lia|rewrite (proj1 E1); lia|].
    exists l'. split; [exact Hsh|]. split.
    + apply (same_except_trans l l1 l' (20 + 2 * i) (20 + 2 * i + 2)
               (20 + 2 * (i - 1 - Z.of_nat k + 1)) (20 + 2 * (i - 1) + 2));
        [exact E1|exact E'|lia..].
    + intros j Hj. destruct (Z.eq_dec j i) as [->|Hne].
      * rewrite (getSlot_eq l' i), (getSlot_eq l (i - 1)) by lia.
        rewrite (same_except_read16 l1 l' _ _ (20 + 2 * i) E') by lia.
        unfold l1. rewrite read16_write16 by lia.
        rewrite wrap16_small by lia. symmetry. exact Hv.
      * rewrite Hslots by lia.
        rewrite (getSlot_eq l1 (j - 1)), (getSlot_eq l (j - 1)) by lia.
        apply (same_except_read16 l l1 _ _ _ E1); lia.
Qed.

End LeafPairs.

Section LeafInsert.

Lemma freeSpace_holds (l : list byte) (pairs : list Pair.t) :
  leaf_holds l pairs ->
  exists fso, Leaf.freeSpaceOffset l = Ok fso /\
              Leaf.freeSpace l = Ok (fso - 20 - 2 * len pairs) /\
              20 + 2 * len pairs <= fso <= len l.
Proof.
  intros (Hl & Hn & fso & Hf & Hb & _). exists fso.
  split; [exact Hf|]. split; [|exact Hb].
  pose proof (len_nonneg pairs) as Hp0.
  unfold Leaf.freeSpace. rewrite Hn, Hf, slotOffset_eq by lia.
  rewrite wint_small by (unfold max_int; lia). f_equal. lia.
Qed.

Lemma Insert_no_room (l : list byte) (pairs : list Pair.t) (slotID : Z)
    (key value : list byte) (fs : Z) :
  Leaf.freeSpace l = Ok fs ->
  6 + len key + len value <= max_int ->
  fs < 6 + len key + len value ->
  Leaf.Insert l slotID key value = Ok (false, l).
Proof.
  intros Hfs Hmax Hlt. unfold Leaf.Insert. rewrite ToBytes_eq. cbn zeta.
  rewrite len_pair_bytes. cbn [Pair.Key Pair.Value]. rewrite Hfs.
  pose proof (len_nonneg key). pose proof (len_nonneg value).
  unfold Leaf.LeafSlotSize.
  rewrite wint_small by (unfold max_int in *; lia).
  replace (fs <? 2 + (4 + len key + len value)) with true
    by (symmetry; apply Z.ltb_lt; lia).
  reflexivity.
Qed.

Lemma lookup_insert_middle {A} (l : list A) (s i : nat) (x : A) :
  (s <= length l)%nat ->
  (take s l ++ x :: drop s l) !! i =
  if decide (i < s)%nat then l !! i
  else if decide (i = s) then Some x else l !! (i - 1)%nat.
Proof.
  intros Hs. rewrite lookup_app, lookup_take, length_take, Nat.min_l by lia.
  destruct (decide (i < s)%nat) as [Hlt|Hge].
  - destruct (l !! i) eqn:Hl; [reflexivity|].
    apply lookup_ge_None in Hl. lia.
  - destruct (decide (i = s)) as [->|Hne].
    + rewrite Nat.sub_diag. reflexivity.
    + destruct (i - s)%nat as [|d] eqn:Hd; [lia|].
      change ((x :: drop s l) !! S d) with (drop s l !! d).
      rewrite lookup_drop. f_equal. lia.
Qed.

Lemma Insert_room (l : list byte) (pairs : list Pair.t) (s : nat)
    (key value : list byte) (fs : Z) :
  leaf_holds l pairs -> (s <= length pairs)%nat ->
  Leaf.freeSpace l = Ok fs ->
  6 + len key + len value <= fs ->
  exists l',
    Leaf.Insert l (Z.of_nat s) key value = Ok (true, l') /\
    leaf_holds l' (take s pairs ++ Pair.mk key value :: drop s pairs) /\
    Leaf.freeSpace l' = Ok (fs - (6 + len key + len value)) /\
    same_except l l' 16 (len l).
Proof.
  intros Hh Hs Hfs Hroom.
  destruct (freeSpace_holds l pairs Hh) as (fso & Hf & Hfs' & Hb).
  rewrite Hfs in Hfs'. injection Hfs' as ->.
  destruct Hh as (Hl & Hn & fso' & Hf' & _ & Hp).
  rewrite Hf in Hf'. injection Hf' as <-.
  pose proof (len_nonneg key) as Hk0. pose proof (len_nonneg value) as Hv0.
  pose proof (len_nonneg pairs) as Hn0.
  set (n := len pairs) in *.
  set (p := Pair.mk key value).
  set (pl := 4 + len key + len value).
  assert (Hpl : len (pair_bytes p) = pl) by apply len_pair_bytes.
  assert (Hsn : Z.of_nat s <= n) by (unfold n, len; lia).
  (* the slots move up *)
  destruct (shift_slots_spec (Z.to_nat (n - Z.of_nat s)) l n)
    as (l1 & Hsh & E1 & Hslots); [lia|lia|lia|].
  rewrite Z2Nat.id in E1, Hslots by lia.
  replace (n - (n - Z.of_nat s) + 1) with (Z.of_nat s + 1) in E1 by lia.
  replace (n - (n - Z.of_nat s)) with (Z.of_nat s) in Hslots by lia.
  pose proof (proj1 E1) as L1.
  (* the pair is written below the free space offset *)
  set (newOffset := fso - pl).
  set (l2 := write_at l1 newOffset (pair_bytes p)).
  assert (E2 : same_except l1 l2 newOffset fso).
  { replace fso with (newOffset + len (pair_bytes p)) by (unfold newOffset; lia).
    apply same_except_write_at; unfold newOffset; lia. }
  pose proof (proj1 E2) as L2.
  set (l3 := write_at l2 (20 + 2 * Z.of_nat s) (le_encode 2 newOffset)).
  assert (E3 : same_except l2 l3 (20 + 2 * Z.of_nat s) (20 + 2 * Z.of_nat s + 2)).
  { apply (same_except_write_at l2 _ (le_encode 2 newOffset));
      rewrite ?len_le_encode; lia. }
  pose proof (proj1 E3) as L3.
  set (l4 := write_at l3 18 (le_encode 2 newOffset)).
  assert (E4 : same_except l3 l4 18 20).
  { apply (same_except_write_at l3 18 (le_encode 2 newOffset));
      rewrite ?len_le_encode; lia. }
  pose proof (proj1 E4) as L4.
  set (l5 := write_at l4 16 (le_encode 2 (n + 1))).
  assert (E5 : same_except l4 l5 16 18).
  { apply (same_except_write_at l4 16 (le_encode 2 (n + 1)));
      rewrite ?len_le_encode; lia. }
  pose proof (proj1 E5) as L5.
  (* what the function computes *)
  assert (HI : Leaf.Insert l (Z.of_nat s) key value = Ok (true, l5)).
  { unfold Leaf.Insert. rewrite ToBytes_eq. cbn zeta. fold p.
    rewrite Hpl, Hfs. unfold Leaf.LeafSlotSize.
    rewrite (wint_small (2 + pl)) by (unfold max_int, pl; lia).
    replace (fso - 20 - 2 * n <? 2 + pl) with false
      by (symmetry; apply Z.ltb_ge; unfold pl; lia).
    rewrite Hn. fold n. rewrite Hsh.
    unfold Leaf.freeSpaceOffset, Leaf.LeafFreeSpaceOffsetOffset in *.
    rewrite (same_except_read16 l l1 _ _ 18 E1) by lia. rewrite Hf.
    rewrite (wrap16_small pl) by (unfold pl; lia).
    rewrite (wrap16_small (fso - pl)) by (unfold pl; lia). fold newOffset.
    rewrite copy_at_eq by (unfold newOffset; lia). fold l2.
    rewrite setSlot_eq by lia. fold l3.
    unfold Leaf.setFreeSpaceOffset, Leaf.LeafFreeSpaceOffsetOffset.
    rewrite writeUint16_eq by lia. fold l4.
    unfold Leaf.setNumPairs, Leaf.LeafNumPairsOffset.
    rewrite writeUint16_eq by lia.
    rewrite (wint_small (n + 1)) by (unfold max_int; lia).
    rewrite (wrap16_small (n + 1)) by lia. reflexivity. }
  exists l5. split; [exact HI|].
  (* the frame of the whole update *)
  assert (E15 : same_except l1 l5 16 fso).
  { apply (same_except_trans l1 l4 l5 16 fso 16 18 16 fso); [|exact E5|lia..].
    apply (same_except_trans l1 l3 l4 20 fso 18 20 16 fso); [|exact E4|lia..].
    apply (same_except_trans l1 l2 l3 newOffset fso
             (20 + 2 * Z.of_nat s) (20 + 2 * Z.of_nat s + 2) 20 fso);
      [exact E2|exact E3|unfold newOffset, pl; lia..]. }
  assert (E05 : same_except l l5 16 fso).
  { apply (same_except_trans l l1 l5 (20 + 2 * (Z.of_nat s + 1)) (20 + 2 * n + 2)
             16 fso 16 fso);
      [exact E1|exact E15|unfold pl in *; lia..]. }
  assert (Hnum : Leaf.NumPairs l5 = Ok (n + 1)).
  { unfold Leaf.NumPairs, Leaf.LeafNumPairsOffset, l5.
    rewrite read16_write16 by lia. rewrite wrap16_small by lia. reflexivity. }
  assert (Hfso : Leaf.freeSpaceOffset l5 = Ok newOffset).
  { unfold Leaf.freeSpaceOffset, Leaf.LeafFreeSpaceOffsetOffset.
    rewrite (same_except_read16 l4 l5 _ _ 18 E5) by lia.
    unfold l4. rewrite read16_write16 by lia.
    rewrite wrap16_small by (unfold newOffset, pl; lia). reflexivity. }
  assert (Hlen' : len (take s pairs ++ p :: drop s pairs) = n + 1).
  { rewrite len_app. unfold len, n. cbn [length].
    rewrite length_take, length_drop. unfold len. lia. }
  split; [|split].
  - split; [lia|]. split; [rewrite Hlen'; exact Hnum|].
    exists newOffset. split; [exact Hfso|].
    split; [rewrite Hlen'; unfold newOffset, pl; lia|].
    intros i q Hq. rewrite lookup_insert_middle in Hq by exact Hs.
    assert (Hi : (i < S (length pairs))%nat).
    { destruct (decide (i < s)%nat); [lia|].
      destruct (decide (i = s)); [lia|].
      apply lookup_lt_Some in Hq. lia. }
    assert (Hin : Z.of_nat i <= n) by (unfold n, len; lia).
    (* slot i of the new leaf *)
    assert (Hslot5 : Leaf.getSlot l5 (Z.of_nat i) = Leaf.getSlot l3 (Z.of_nat i)).
    { rewrite !getSlot_eq by lia.
      rewrite (same_except_read16 l4 l5 _ _ _ E5) by lia.
      apply (same_except_read16 l3 l4 _ _ _ E4); lia. }
    destruct (decide (i < s)%nat) as [Hlt|Hge];
      [|destruct (decide (i = s)) as [->|Hne]].
    + destruct (Hp i q Hq) as (off & Hso & Hoff & Hst).
      exists off. split; [|split].
      * rewrite Hslot5. rewrite !getSlot_eq in * by lia.
        rewrite (same_except_read16 l2 l3 _ _ _ E3) by lia.
        rewrite (same_except_read16 l1 l2 _ _ _ E2) by (unfold newOffset, pl; lia).
        rewrite (same_except_read16 l l1 _ _ _ E1) by lia. exact Hso.
      * unfold newOffset, pl. lia.
      * apply (stored_at_same l l5 16 fso); [exact E05|lia|lia|exact Hst].
    + injection Hq as <-. exists newOffset. split; [|split].
      * rewrite Hslot5. rewrite getSlot_eq by lia.
        unfold l3. rewrite read16_write16 by lia.
        rewrite wrap16_small by (unfold newOffset, pl; lia). reflexivity.
      * lia.
      * assert (Hst2 : stored_at l2 newOffset p).
        { split; [unfold newOffset; lia|].
          unfold l2. apply read_at_write_at; unfold newOffset; lia. }
        apply (stored_at_same l3 l5 16 20); [|unfold newOffset, pl; lia..|].
        { apply (same_except_trans l3 l4 l5 18 20 16 18 16 20);
            [exact E4|exact E5|lia..]. }
        apply (stored_at_same l2 l3 _ _ _ _ E3); [|unfold newOffset, pl; lia|exact Hst2].
        unfold newOffset, pl. lia.
    + destruct (Hp (i - 1)%nat q Hq) as (off & Hso & Hoff & Hst).
      exists off. split; [|split].
      * rewrite Hslot5. rewrite !getSlot_eq in * by lia.
        rewrite (same_except_read16 l2 l3 _ _ _ E3) by lia.
        rewrite (same_except_read16 l1 l2 _ _ _ E2) by (unfold newOffset, pl; lia).
        rewrite <- (getSlot_eq l1) by lia.
        rewrite Hslots by lia.
        rewrite getSlot_eq by lia.
        rewrite <- Hso. f_equal. lia.
      * unfold newOffset, pl. lia.
      * apply (stored_at_same l l5 16 fso); [exact E05|lia|lia|exact Hst].
  - unfold Leaf.freeSpace. rewrite Hnum, Hfso, slotOffset_eq by lia.
    rewrite wint_small by (unfold max_int, newOffset, pl; lia).
    f_equal. unfold newOffset, pl. lia.
  - apply (same_except_trans l l5 l5 16 fso 16 16 16 (len l));
      [exact E05|apply same_except_refl|lia..].
Qed.

End LeafInsert.

(** * Leaf nodes: the binary search *)

Section Compare.

Lemma byte_to_Z_inj (a b : byte) : byte_to_Z a = byte_to_Z b -> a = b.
Proof.
  intros H. rewrite <- (byte_of_to_Z a), <- (byte_of_to_Z b), H. reflexivity.
Qed.

Lemma bytes_Compare_refl (a : list byte) : bytes_Compare a a = Eq.
Proof.
  induction a as [|x a IH]; [reflexivity|].
  cbn [bytes_Compare]. rewrite Z.compare_refl. exact IH.
Qed.

Lemma bytes_Compare_Eq (a b : list byte) : bytes_Compare a b = Eq -> a = b.
Proof.
  revert b. induction a as [|x a IH]; intros [|y b] H;
    try discriminate; [reflexivity|].
  cbn [bytes_Compare] in H.
  destruct (byte_to_Z x ?= byte_to_Z y) eqn:Hc; try discriminate.
  apply Z.compare_eq in Hc. apply byte_to_Z_inj in Hc. subst y.
  f_equal. apply IH. exact H.
Qed.

Lemma bytes_Compare_antisym (a b : list byte) :
  bytes_Compare b a = CompOpp (bytes_Compare a b).
Proof.
  revert b. induction a as [|x a IH]; intros [|y b]; try reflexivity.
  cbn [bytes_Compare]. rewrite (Z.compare_antisym (byte_to_Z x) (byte_to_Z y)).
  destruct (byte_to_Z x ?= byte_to_Z y); cbn [CompOpp]; [apply IH|reflexivity..].
Qed.

Lemma bytes_Compare_Lt_trans (a b c : list byte) :
  bytes_Compare a b = Lt -> bytes_Compare b c = Lt -> bytes_Compare a c = Lt.
Proof.
  revert b c. induction a as [|x a IH]; intros [|y b] [|z c] Hab Hbc;
    try discriminate; try reflexivity.
  cbn [bytes_Compare] in *.
  destruct (byte_to_Z x ?= byte_to_Z y) eqn:Hxy; try discriminate;
    destruct (byte_to_Z y ?= byte_to_Z z) eqn:Hyz; try discriminate.
  - apply Z.compare_eq in Hxy, Hyz.
    rewrite Hxy, Hyz, Z.compare_refl. eapply IH; eassumption.
  - apply Z.compare_eq in Hxy. rewrite Hxy, Hyz. reflexivity.
  - apply Z.compare_eq in Hyz. rewrite <- Hyz, Hxy. reflexivity.
  - rewrite Z.compare_lt_iff in Hxy, Hyz.
    replace (byte_to_Z x ?= byte_to_Z z) with Lt; [reflexivity|].
    symmetry. apply Z.compare_lt_iff. lia.
Qed.

Lemma bytes_Compare_Gt (a b : list byte) :
  bytes_Compare a b = Gt <-> bytes_Compare b a = Lt.
Proof.
  rewrite (bytes_Compare_antisym a b).
  destruct (bytes_Compare a b); cbn [CompOpp]; split; congruence.
Qed.

End Compare.

Section LeafSearch.

Lemma SearchSlotID_loop_spec (fuel : nat) (l : list byte) (pairs : list Pair.t)
    (key : list byte) (lo hi : Z) :
  leaf_holds l pairs -> sorted_keys pairs ->
  0 <= lo <= hi -> hi <= len pairs -> hi - lo <= Z.of_nat fuel ->
  (forall (i : nat) p, Z.of_nat i < lo -> pairs !! i = Some p ->
                       bytes_Compare (Pair.Key p) key = Lt) ->
  (forall (i : nat) p, hi <= Z.of_nat i -> pairs !! i = Some p ->
                       bytes_Compare (Pair.Key p) key = Gt) ->
  exists (i : nat) (found : bool),
    Leaf.SearchSlotID_loop fuel l key lo hi = Ok (Z.of_nat i, found) /\
    (i <= length pairs)%nat /\
    if found
    then exists p, pairs !! i = Some p /\ Pair.Key p = key
    else (forall (j : nat) p, (j < i)%nat -> pairs !! j = Some p ->
                              bytes_Compare (Pair.Key p) key = Lt) /\
         (forall (j : nat) p, (i <= j)%nat -> pairs !! j = Some p ->
                              bytes_Compare (Pair.Key p) key = Gt).
Proof.
  intros Hh Hsorted. revert lo hi.
  assert (Hn : len pairs <= 32767).
  { destruct Hh as (Hl & _ & fso & _ & Hb & _). lia. }
  induction fuel as [|fuel IH]; intros lo hi Hlo Hhi Hfuel Hbelow Habove.
  - assert (lo = hi) by lia. subst hi.
    exists (Z.to_nat lo), false. cbn [Leaf.SearchSlotID_loop].
    rewrite Z.ltb_irrefl, Z2Nat.id by lia.
    split; [reflexivity|]. split; [unfold len in *; lia|]. split.
    + intros j p Hj. apply Hbelow. lia.
    + intros j p Hj. apply Habove. lia.
  - cbn [Leaf.SearchSlotID_loop].
    destruct (lo <? hi) eqn:Hlt.
    2:{ apply Z.ltb_ge in Hlt. assert (lo = hi) by lia. subst hi.
        exists (Z.to_nat lo), false. rewrite Z2Nat.id by lia.
        split; [reflexivity|]. split; [unfold len in *; lia|]. split.
        - intros j p Hj. apply Hbelow. lia.
        - intros j p Hj. apply Habove. lia. }
    apply Z.ltb_lt in Hlt.
    rewrite (wint_small (lo + hi)) by (unfold max_int; lia).
    rewrite Z.quot_div_nonneg by lia.
    set (mid := (lo + hi) / 2).
    assert (Hmid : lo <= mid < hi).
    { unfold mid. split.
      - apply Z.div_le_lower_bound; lia.
      - apply Z.div_lt_upper_bound; lia. }
    destruct (pairs !! Z.to_nat mid) as [p|] eqn:Hp.
    2:{ apply lookup_ge_None in Hp. unfold len in *. lia. }
    pose proof (PairAt_holds l pairs (Z.to_nat mid) p Hh Hp) as HP.
    rewrite Z2Nat.id in HP by lia. rewrite HP.
    destruct (bytes_Compare (Pair.Key p) key) eqn:Hc.
    + exists (Z.to_nat mid), true. rewrite Z2Nat.id by lia.
      split; [reflexivity|]. split; [unfold len in *; lia|].
      exists p. split; [exact Hp|]. apply bytes_Compare_Eq. exact Hc.
    + rewrite (wint_small (mid + 1)) by (unfold max_int; lia).
      apply IH; [lia|lia|lia| |exact Habove].
      intros i q Hi Hq.
      destruct (Z.eq_dec (Z.of_nat i) mid) as [He|Hne].
      * replace i with (Z.to_nat mid) in Hq by lia. congruence.
      * destruct (Z_lt_le_dec (Z.of_nat i) lo) as [Hil|Hil];
          [apply (Hbelow i q Hil Hq)|].
        eapply bytes_Compare_Lt_trans; [|exact Hc].
        apply (Hsorted i (Z.to_nat mid) q p); [lia|exact Hq|exact Hp].
    + apply IH; [lia|lia|lia|exact Hbelow|].
      intros i q Hi Hq.
      destruct (Z.eq_dec (Z.of_nat i) mid) as [He|Hne].
      * replace i with (Z.to_nat mid) in Hq by lia. congruence.
      * apply bytes_Compare_Gt.
        eapply bytes_Compare_Lt_trans; [apply bytes_Compare_Gt; exact Hc|].
        apply (Hsorted (Z.to_nat mid) i p q); [lia|exact Hp|exact Hq].
Qed.

Lemma SearchSlotID_spec (l : list byte) (pairs : list Pair.t) (key : list byte) :
  leaf_holds l pairs -> sorted_keys pairs ->
  exists (i : nat) (found : bool),
    Leaf.SearchSlotID l key = Ok (Z.of_nat i, found) /\
    (i <= length pairs)%nat /\
    if found
    then exists p, pairs !! i = Some p /\ Pair.Key p = key
    else (forall (j : nat) p, (j < i)%nat -> pairs !! j = Some p ->
                              bytes_Compare (Pair.Key p) key = Lt) /\
         (forall (j : nat) p, (i <= j)%nat -> pairs !! j = Some p ->
                              bytes_Compare (Pair.Key p) key = Gt).
Proof.
  intros Hh Hs. unfold Leaf.SearchSlotID.
  destruct Hh as (Hl & Hn & Hrest). rewrite Hn.
  pose proof (len_nonneg pairs) as Hn0.
  apply (SearchSlotID_loop_spec _ l pairs key 0 (len pairs));
    [exact (conj Hl (conj Hn Hrest))|exact Hs|lia|lia|lia| |].
  - intros i p Hi. lia.
  - intros i p Hi Hp. apply lookup_lt_Some in Hp. unfold len in Hi. lia.
Qed.

Lemma sorted_keys_insert (pairs : list Pair.t) (s : nat) (p : Pair.t) :
  sorted_keys pairs -> (s <= length pairs)%nat ->
  (forall (j : nat) q, (j < s)%nat -> pairs !! j = Some q ->
                       bytes_Compare (Pair.Key q) (Pair.Key p) = Lt) ->
  (forall (j : nat) q, (s <= j)%nat -> pairs !! j = Some q ->
                       bytes_Compare (Pair.Key q) (Pair.Key p) = Gt) ->
  sorted_keys (take s pairs ++ p :: drop s pairs).
Proof.
  intros Hsorted Hs Hbelow Habove i j a b Hij Ha Hb.
  rewrite lookup_insert_middle in Ha, Hb by exact Hs.
  destruct (decide (i < s)%nat) as [His|His].
  - destruct (decide (j < s)%nat) as [Hjs|Hjs].
    + eapply Hsorted; [|exact Ha|exact Hb]. exact Hij.
    + destruct (decide (j = s)) as [->|Hne].
      * injection Hb as <-. eapply Hbelow; [|exact Ha]. exact His.
      * eapply (Hsorted i (j - 1)%nat); [lia|exact Ha|exact Hb].
  - destruct (decide (i = s)) as [->|Hne].
    + injection Ha as <-.
      rewrite decide_False in Hb by lia. rewrite decide_False in Hb by lia.
      apply bytes_Compare_Gt. eapply (Habove (j - 1)%nat); [lia|exact Hb].
    + rewrite decide_False in Hb by lia. rewrite decide_False in Hb by lia.
      eapply (Hsorted (i - 1)%nat (j - 1)%nat); [lia|exact Ha|exact Hb].
Qed.

Lemma SearchSlotID_found (l : list byte) (pairs : list Pair.t) (i : nat)
    (p : Pair.t) :
  leaf_holds l pairs -> sorted_keys pairs -> pairs !! i = Some p ->
  Leaf.SearchSlotID l (Pair.Key p) = Ok (Z.of_nat i, true).
Proof.
  intros Hh Hs Hp.
  destruct (SearchSlotID_spec l pairs (Pair.Key p) Hh Hs)
    as (j & found & Hr & Hj & Hspec).
  rewrite Hr. destruct found.
  - destruct Hspec as (q & Hq & Hk).
    destruct (lt_eq_lt_dec i j) as [[Hlt| ->]|Hgt]; [| reflexivity |].
    + pose proof (Hs i j p q Hlt Hp Hq) as Hc.
      rewrite Hk, bytes_Compare_refl in Hc. discriminate.
    + pose proof (Hs j i q p Hgt Hq Hp) as Hc.
      rewrite Hk, bytes_Compare_refl in Hc. discriminate.
  - destruct Hspec as [Hbelow Habove].
    destruct (le_lt_dec j i) as [Hle|Hlt].
    + pose proof (Habove i p Hle Hp) as Hc.
      rewrite bytes_Compare_refl in Hc. discriminate.
    + pose proof (Hbelow i p Hlt Hp) as Hc.
      rewrite bytes_Compare_refl in Hc. discriminate.
Qed.

Lemma leaf_holds_Initialize (l l' : list byte) :
  20 <= len l <= 65535 -> Leaf.Initialize l = Ok l' -> leaf_holds l' [].
Proof.
  intros Hlen Hi.
  destruct (Initialize_spec l Hlen) as (l2 & Hi2 & He & _ & _ & Hnum & Hfso).
  rewrite Hi in Hi2. injection Hi2 as <-.
  split; [rewrite (proj1 He); lia|]. split; [exact Hnum|].
  exists (len l). split; [exact Hfso|].
  split; [rewrite (proj1 He); change (len (@nil Pair.t)) with 0; lia|].
  intros i p Hp. rewrite lookup_nil in Hp. discriminate.
Qed.

Lemma collect_pairs_holds (l : list byte) (pairs done : list Pair.t) :
  leaf_holds l (done ++ pairs) ->
  Leaf.collect_pairs (length pairs) l (len done) = Ok pairs.
Proof.
  revert done. induction pairs as [|p pairs IH]; intros done Hh; [reflexivity|].
  cbn [length Leaf.collect_pairs].
  assert (Hp : (done ++ p :: pairs) !! length done = Some p)
    by apply list_lookup_middle, eq_refl.
  change (len done) with (Z.of_nat (length done)) at 1.
  rewrite (PairAt_holds l _ _ _ Hh Hp).
  specialize (IH (done ++ [p])). rewrite <- app_assoc in IH.
  specialize (IH Hh). rewrite len_app in IH. change (len [p]) with 1 in IH.
  rewrite IH. reflexivity.
Qed.

End LeafSearch.

Section LeafExamples.

Lemma leaf_holds_empty_leaf : leaf_holds empty_leaf [].
Proof.
  apply (leaf_holds_Initialize (make 4088)).
  - vm_compute. split; congruence.
  - vm_compute. reflexivity.
Qed.

Lemma sorted_keys_nil : sorted_keys [].
Proof. intros i j p q _ Hp. rewrite lookup_nil in Hp. discriminate. Qed.

Lemma same_except_siblings (l l' : list byte) (hi : Z) :
  same_except l l' 16 hi ->
  Leaf.PrevPageID l' = Leaf.PrevPageID l /\
  Leaf.NextPageID l' = Leaf.NextPageID l.
Proof.
  intros E. unfold Leaf.PrevPageID, Leaf.NextPageID,
    Leaf.LeafPrevPageIDOffset, Leaf.LeafNextPageIDOffset.
  rewrite (same_except_read64 l l' 16 hi 0 E) by lia.
  rewrite (same_except_read64 l l' 16 hi 8 E) by lia.
  split; reflexivity.
Qed.

End LeafExamples.

(** X20. [Initialize] makes a leaf that holds no pairs, and [Insert] keeps
    the layout of a leaf: on a leaf that holds [pairs], with a slot in
    range, it either finds less free space than the pair and its slot need
    (2 + 4 + key + value bytes) and returns false without changing the leaf,
    or returns true on a leaf that holds [pairs] with the new pair at that
    slot, has that much less free space, and has the siblings it had. *)
Theorem Leaf_Insert_holds (l : list byte) (pairs : list Pair.t) (s : nat)
    (key value : list byte) :
  leaf_holds l pairs -> (s <= length pairs)%nat ->
  6 + len key + len value <= max_int ->
  exists fs,
    Leaf.freeSpace l = Ok fs /\
    if fs <? 6 + len key + len value
    then Leaf.Insert l (Z.of_nat s) key value = Ok (false, l)
    else exists l',
        Leaf.Insert l (Z.of_nat s) key value = Ok (true, l') /\
        leaf_holds l' (take s pairs ++ Pair.mk key value :: drop s pairs) /\
        Leaf.freeSpace l' = Ok (fs - (6 + len key + len value)) /\
        Leaf.PrevPageID l' = Leaf.PrevPageID l /\
        Leaf.NextPageID l' = Leaf.NextPageID l.
Proof.
  intros Hh Hs Hmax.
  destruct (freeSpace_holds l pairs Hh) as (fso & _ & Hfs & _).
  eexists. split; [exact Hfs|].
  destruct (_ <? _) eqn:Hc.
  - apply Z.ltb_lt in Hc. eapply (Insert_no_room l pairs); eassumption.
  - apply Z.ltb_ge in Hc.
    destruct (Insert_room l pairs s key value _ Hh Hs Hfs Hc)
      as (l' & HI & Hh' & Hfs' & E).
    exists l'. split; [exact HI|]. split; [exact Hh'|]. split; [exact Hfs'|].
    apply (same_except_siblings l l' (len l) E).
Qed.

Lemma Leaf_Insert_holds_witness :
  exists fs,
    Leaf.freeSpace empty_leaf = Ok fs /\
    if fs <? 6 + len (bytes "apple") + len (bytes "1")
    then Leaf.Insert empty_leaf (Z.of_nat 0) (bytes "apple") (bytes "1")
         = Ok (false, empty_leaf)
    else exists l',
        Leaf.Insert empty_leaf (Z.of_nat 0) (bytes "apple") (bytes "1")
          = Ok (true, l') /\
        leaf_holds l' (take 0 [] ++ Pair.mk (bytes "apple") (bytes "1") :: drop 0 []) /\
        Leaf.freeSpace l'
          = Ok (fs - (6 + len (bytes "apple") + len (bytes "1"))) /\
        Leaf.PrevPageID l' = Leaf.PrevPageID empty_leaf /\
        Leaf.NextPageID l' = Leaf.NextPageID empty_leaf.
Proof.
  apply (Leaf_Insert_holds empty_leaf [] 0 (bytes "apple") (bytes "1")).
  - exact leaf_holds_empty_leaf.
  - reflexivity.
  - vm_compute. congruence.
Defined.



(** X22. Insert and look up in a leaf.  On a leaf with strictly increasing
    keys, when [SearchSlotID] reports [key] missing and the leaf has room,
    [Insert] at the reported slot succeeds; afterwards the keys are still
    strictly increasing, [SearchSlotID] finds [key] at that slot, [PairAt]
    yields the inserted pair there, and every pair the leaf held is still
    found under its key. *)
Theorem Leaf_insert_then_search (l : list byte) (pairs : list Pair.t)
    (key value : list byte) (slotID fs : Z) :
  leaf_holds l pairs -> sorted_keys pairs ->
  Leaf.SearchSlotID l key = Ok (slotID, false) ->
  Leaf.freeSpace l = Ok fs -> 6 + len key + len value <= fs ->
  exists l' pairs',
    Leaf.Insert l slotID key value = Ok (true, l') /\
    leaf_holds l' pairs' /\ sorted_keys pairs' /\
    Leaf.SearchSlotID l' key = Ok (slotID, true) /\
    Leaf.PairAt l' slotID = Ok (Pair.mk key value) /\
    forall p, p ∈ pairs ->
      exists j : nat, Leaf.SearchSlotID l' (Pair.Key p) = Ok (Z.of_nat j, true) /\
                      Leaf.PairAt l' (Z.of_nat j) = Ok p.
Proof.
  intros Hh Hsorted Hsearch Hfs Hroom.
  destruct (SearchSlotID_spec l pairs key Hh Hsorted)
    as (i & found & Hr & Hi & Hspec).
  rewrite Hsearch in Hr. injection Hr as -> <-.
  destruct Hspec as [Hbelow Habove].
  destruct (Insert_room l pairs i key value fs Hh Hi Hfs Hroom)
    as (l' & HI & Hh' & _ & _).
  set (pairs' := take i pairs ++ Pair.mk key value :: drop i pairs) in *.
  assert (Hs' : sorted_keys pairs')
    by (apply sorted_keys_insert; assumption).
  assert (Hnew : pairs' !! i = Some (Pair.mk key value)).
  { unfold pairs'. rewrite lookup_insert_middle by exact Hi.
    rewrite decide_False by lia. rewrite decide_True by reflexivity. reflexivity. }
  exists l', pairs'. split; [exact HI|]. split; [exact Hh'|]. split; [exact Hs'|].
  split; [exact (SearchSlotID_found l' pairs' i _ Hh' Hs' Hnew)|].
  split; [exact (PairAt_holds l' pairs' i _ Hh' Hnew)|].
  intros p Hp. apply list_elem_of_lookup in Hp as [k Hk].
  assert (Hold : exists j, pairs' !! j = Some p).
  { destruct (decide (k < i)%nat) as [Hlt|Hge].
    - exists k. unfold pairs'. rewrite lookup_insert_middle by exact Hi.
      rewrite decide_True by exact Hlt. exact Hk.
    - exists (S k). unfold pairs'. rewrite lookup_insert_middle by exact Hi.
      rewrite decide_False by lia. rewrite decide_False by lia.
      rewrite <- Hk. f_equal. lia. }
  destruct Hold as [j Hj]. exists j. split.
  - exact (SearchSlotID_found l' pairs' j p Hh' Hs' Hj).
  - exact (PairAt_holds l' pairs' j p Hh' Hj).
Qed.

Lemma Leaf_insert_then_search_witness :
  exists l' pairs',
    Leaf.Insert empty_leaf 0 (bytes "apple") (bytes "1") = Ok (true, l') /\
    leaf_holds l' pairs' /\ sorted_keys pairs' /\
    Leaf.SearchSlotID l' (bytes "apple") = Ok (0, true) /\
    Leaf.PairAt l' 0 = Ok (Pair.mk (bytes "apple") (bytes "1")) /\
    forall p, p ∈ @nil Pair.t ->
      exists j : nat, Leaf.SearchSlotID l' (Pair.Key p) = Ok (Z.of_nat j, true) /\
                      Leaf.PairAt l' (Z.of_nat j) = Ok p.
Proof.
  apply (Leaf_insert_then_search empty_leaf [] (bytes "apple") (bytes "1") 0 4068).
  - exact leaf_holds_empty_leaf.
  - exact sorted_keys_nil.
  - vm_compute. reflexivity.
  - vm_compute. reflexivity.
  - vm_compute. congruence.
Defined.

(** * Leaf nodes: the split *)

Section LeafSplit.

Lemma pairs_size_nonneg (pairs : list Pair.t) : 0 <= pairs_size pairs.
Proof.
  induction pairs as [|p pairs IH]; cbn [pairs_size foldr]; [lia|].
  fold (pairs_size pairs).
  pose proof (len_nonneg (Pair.Key p)). pose proof (len_nonneg (Pair.Value p)). lia.
Qed.

Lemma insert_all_holds (pairs : list Pair.t) (l : list byte)
    (done : list Pair.t) (fs : Z) :
  leaf_holds l done -> Leaf.freeSpace l = Ok fs -> pairs_size pairs <= fs ->
  exists l', Leaf.insert_all l pairs (len done) = Ok l' /\
             leaf_holds l' (done ++ pairs) /\
             Leaf.freeSpace l' = Ok (fs - pairs_size pairs) /\
             same_except l l' 16 (len l).
Proof.
  revert l done fs. induction pairs as [|p pairs IH]; intros l done fs Hh Hfs Hroom.
  - exists l. cbn [Leaf.insert_all pairs_size foldr].
    rewrite app_nil_r, Z.sub_0_r.
    split; [reflexivity|]. split; [exact Hh|]. split; [exact Hfs|].
    apply same_except_refl.
  - cbn [pairs_size foldr] in Hroom. fold (pairs_size pairs) in Hroom.
    pose proof (pairs_size_nonneg pairs) as Hps.
    cbn [Leaf.insert_all].
    destruct (Insert_room l done (length done) (Pair.Key p) (Pair.Value p) fs)
      as (l1 & HI & Hh1 & Hfs1 & E1); [exact Hh|lia|exact Hfs|lia|].
    change (len done) with (Z.of_nat (length done)) at 1.
    rewrite HI. cbn [snd].
    rewrite take_ge, drop_ge in Hh1 by lia.
    replace {| Pair.Key := Pair.Key p; Pair.Value := Pair.Value p |} with p in Hh1
      by (destruct p; reflexivity).
    destruct (IH l1 (done ++ [p]) _ Hh1 Hfs1) as (l' & Hall & Hh' & Hfs' & E');
      [lia|].
    rewrite len_app in Hall. change (len [p]) with 1 in Hall.
    exists l'. split; [exact Hall|]. split; [|split].
    + rewrite <- app_assoc in Hh'. exact Hh'.
    + rewrite Hfs'. cbn [pairs_size foldr]. fold (pairs_size pairs). f_equal. lia.
    + pose proof (proj1 E1) as L1.
      apply (same_except_trans l l1 l' 16 (len l) 16 (len l1) 16 (len l));
        [exact E1|exact E'|lia..].
Qed.

Lemma leaf_holds_len (l : list byte) (pairs : list Pair.t) :
  leaf_holds l pairs -> 20 <= len l <= 65535.
Proof.
  intros (Hl & _ & fso & _ & Hb & _). pose proof (len_nonneg pairs). lia.
Qed.

Lemma Initialize_holds (l : list byte) :
  20 <= len l <= 65535 ->
  exists l', Leaf.Initialize l = Ok l' /\ leaf_holds l' [] /\
             Leaf.freeSpace l' = Ok (len l - 20) /\ len l' = len l /\
             Leaf.PrevPageID l' = Ok None /\ Leaf.NextPageID l' = Ok None.
Proof.
  intros Hlen.
  destruct (Initialize_spec l Hlen) as (l' & Hi & He & Hp & Hn & Hnum & Hfso).
  exists l'. split; [exact Hi|].
  split; [eapply leaf_holds_Initialize; eassumption|].
  split.
  { unfold Leaf.freeSpace, Leaf.NumPairs, Leaf.freeSpaceOffset,
      Leaf.LeafNumPairsOffset, Leaf.LeafFreeSpaceOffsetOffset.
    rewrite Hnum, Hfso. rewrite slotOffset_eq by lia.
    rewrite wint_small by (unfold max_int; lia). f_equal; lia. }
  split; [exact (proj1 He)|].
  unfold Leaf.PrevPageID, Leaf.NextPageID, Leaf.LeafPrevPageIDOffset,
    Leaf.LeafNextPageIDOffset.
  rewrite Hp, Hn. split; reflexivity.
Qed.

End LeafSplit.

Section LeafSplit2.

Lemma SplitInsert_unfold (l newLeaf : list byte) (pairs : list Pair.t)
    (key value : list byte) :
  leaf_holds l pairs ->
  Leaf.SplitInsert l newLeaf key value =
  (newLeaf <- Leaf.Initialize newLeaf ;;
   newLeaf <- Leaf.insert_all newLeaf
                (take (split_point (with_new_pair pairs key value))
                      (with_new_pair pairs key value)) 0 ;;
   l <- Leaf.Initialize l ;;
   l <- Leaf.insert_all l
          (drop (split_point (with_new_pair pairs key value))
                (with_new_pair pairs key value)) 0 ;;
   if Z.quot (len (with_new_pair pairs key value)) 2 - 1 <? 0 then Err Panic
   else match with_new_pair pairs key value
              !! Z.to_nat (Z.quot (len (with_new_pair pairs key value)) 2 - 1) with
        | Some p => Ok (l, newLeaf, Pair.Key p)
        | None => Err Panic
        end).
Proof.
  intros Hh. unfold Leaf.SplitInsert.
  rewrite (proj1 (proj2 Hh)).
  replace (Z.to_nat (len pairs)) with (length pairs) by (unfold len; lia).
  pose proof (collect_pairs_holds l pairs [] Hh) as Hc.
  change (len (@nil Pair.t)) with 0 in Hc. rewrite Hc. reflexivity.
Qed.

Lemma len_with_new_pair (pairs : list Pair.t) (key value : list byte) :
  len (with_new_pair pairs key value) = len pairs + 1.
Proof.
  unfold with_new_pair, len.
  rewrite !length_app, length_take, length_drop. cbn [length]. lia.
Qed.

End LeafSplit2.

(** X23. [SplitInsert] on a leaf that holds at least one pair, when each
    half fits its leaf: the pairs of the leaf and the new pair, in the
    order of the leaf with the new pair in front of the first key that is
    not smaller, are cut in the middle; the new leaf gets the lower half and
    the leaf keeps the upper half; the key returned is the last key of the
    lower half; and the leaf comes out without siblings, because it is
    initialized again. *)
Theorem SplitInsert_halves (l newLeaf : list byte) (pairs : list Pair.t)
    (key value : list byte) :
  leaf_holds l pairs -> pairs <> [] -> 20 <= len newLeaf <= 65535 ->
  pairs_size (take (split_point (with_new_pair pairs key value))
                   (with_new_pair pairs key value)) <= len newLeaf - 20 ->
  pairs_size (drop (split_point (with_new_pair pairs key value))
                   (with_new_pair pairs key value)) <= len l - 20 ->
  exists l' newLeaf' p,
    Leaf.SplitInsert l newLeaf key value = Ok (l', newLeaf', Pair.Key p) /\
    leaf_holds newLeaf' (take (split_point (with_new_pair pairs key value))
                              (with_new_pair pairs key value)) /\
    leaf_holds l' (drop (split_point (with_new_pair pairs key value))
                        (with_new_pair pairs key value)) /\
    last (take (split_point (with_new_pair pairs key value))
               (with_new_pair pairs key value)) = Some p /\
    Leaf.PrevPageID l' = Ok None /\ Leaf.NextPageID l' = Ok None.
Proof.
  intros Hh Hne Hnl Hlow Hhigh.
  rewrite (SplitInsert_unfold l newLeaf pairs key value Hh).
  set (all := with_new_pair pairs key value) in *.
  set (mid := split_point all) in *.
  assert (Hall : len all = len pairs + 1) by apply len_with_new_pair.
  assert (Hp1 : 1 <= len pairs).
  { destruct pairs; [congruence|]. unfold len. cbn [length]. lia. }
  assert (Hmid : 1 <= Z.quot (len all) 2 <= len all).
  { rewrite Z.quot_div_nonneg by lia. split.
    - apply Z.div_le_lower_bound; lia.
    - apply Z.div_le_upper_bound; lia. }
  assert (Hmidn : Z.of_nat mid = Z.quot (len all) 2)
    by (unfold mid, split_point; lia).
  destruct (Initialize_holds newLeaf Hnl) as (nl1 & Hi1 & Hh1 & Hfs1 & _).
  rewrite Hi1.
  destruct (insert_all_holds (take mid all) nl1 [] _ Hh1 Hfs1 Hlow)
    as (nl2 & Ha1 & Hh2 & _).
  change (len (@nil Pair.t)) with 0 in Ha1. rewrite Ha1.
  destruct (Initialize_holds l (leaf_holds_len l pairs Hh))
    as (l1 & Hi2 & Hh3 & Hfs3 & Hl1 & Hprev & Hnext).
  rewrite Hi2.
  destruct (insert_all_holds (drop mid all) l1 [] _ Hh3 Hfs3 Hhigh)
    as (l2 & Ha2 & Hh4 & _ & E).
  change (len (@nil Pair.t)) with 0 in Ha2. rewrite Ha2.
  replace (Z.quot (len all) 2 - 1 <? 0) with false
    by (symmetry; apply Z.ltb_ge; lia).
  destruct (all !! Z.to_nat (Z.quot (len all) 2 - 1)) as [p|] eqn:Hp.
  2:{ apply lookup_ge_None in Hp. unfold len in *. lia. }
  exists l2, nl2, p. split; [reflexivity|]. split; [exact Hh2|].
  split; [exact Hh4|]. split.
  - rewrite last_lookup, length_take, Nat.min_l by (unfold len in *; lia).
    rewrite lookup_take_lt by lia.
    rewrite <- Hp. f_equal. lia.
  - destruct (same_except_siblings l1 l2 (len l1) E) as [-> ->].
    split; assumption.
Qed.

(** X24. [SplitInsert] on a leaf that holds no pair panics: the middle of
    the one-element list is 0 and the key returned would be
    [pairs[mid-1]].  ([insertInternal] gets here when [Insert] finds an
    empty leaf too small for the pair.) *)
Theorem SplitInsert_empty_leaf_panics (l newLeaf key value : list byte) :
  leaf_holds l [] -> 20 <= len newLeaf <= 65535 ->
  6 + len key + len value <= max_int ->
  Leaf.SplitInsert l newLeaf key value = Err Panic.
Proof.
  intros Hh Hnl Hmax.
  rewrite (SplitInsert_unfold l newLeaf [] key value Hh).
  destruct (Initialize_holds newLeaf Hnl) as (nl1 & -> & _).
  change (split_point (with_new_pair [] key value)) with 0%nat.
  cbn [take Leaf.insert_all].
  destruct (Initialize_holds l (leaf_holds_len l [] Hh))
    as (l1 & -> & Hh1 & Hfs1 & _).
  cbn [drop with_new_pair Leaf.insert_pos take app Leaf.insert_all
       Pair.Key Pair.Value].
  destruct (Z_lt_le_dec (len l - 20) (6 + len key + len value)) as [Hlt|Hge].
  - rewrite (Insert_no_room l1 [] 0 key value _ Hfs1 Hmax Hlt). reflexivity.
  - destruct (Insert_room l1 [] 0 key value _ Hh1 (Nat.le_refl 0) Hfs1 Hge)
      as (l2 & HI & _).
    change (Z.of_nat 0) with 0 in HI. rewrite HI. reflexivity.
Qed.

Lemma SplitInsert_empty_leaf_panics_witness :
  Leaf.SplitInsert empty_leaf (make 4088) (bytes "apple") (bytes "1") = Err Panic.
Proof.
  apply (SplitInsert_empty_leaf_panics empty_leaf (make 4088)
           (bytes "apple") (bytes "1")).
  - exact leaf_holds_empty_leaf.
  - vm_compute. split; congruence.
  - vm_compute. congruence.
Defined.

(** X18. [Initialize] makes an empty leaf of any body of 20 to 65535
    bytes: it holds no pairs, has no siblings, all the space behind the
    20-byte header is free, and every key is reported missing, with slot 0
    as the place to insert it. *)
Theorem Leaf_Initialize_empty (l key : list byte) :
  20 <= len l <= 65535 ->
  exists l', Leaf.Initialize l = Ok l' /\
             leaf_holds l' [] /\
             Leaf.NumPairs l' = Ok 0 /\
             Leaf.PrevPageID l' = Ok None /\
             Leaf.NextPageID l' = Ok None /\
             Leaf.freeSpace l' = Ok (len l - 20) /\
             Leaf.SearchSlotID l' key = Ok (0, false).
Proof.
  intros Hlen.
  destruct (Initialize_holds l Hlen) as (l' & Hi & Hh & Hfs & _ & Hp & Hn).
  exists l'. split; [exact Hi|]. split; [exact Hh|].
  pose proof (proj1 (proj2 Hh)) as HN. change (len (@nil Pair.t)) with 0 in HN.
  split; [exact HN|]. split; [exact Hp|]. split; [exact Hn|].
  split; [exact Hfs|].
  unfold Leaf.SearchSlotID. rewrite HN. reflexivity.
Qed.

Lemma Leaf_Initialize_empty_witness :
  exists l', Leaf.Initialize body_of_ones = Ok l' /\
             leaf_holds l' [] /\
             Leaf.NumPairs l' = Ok 0 /\
             Leaf.PrevPageID l' = Ok None /\
             Leaf.NextPageID l' = Ok None /\
             Leaf.freeSpace l' = Ok (len body_of_ones - 20) /\
             Leaf.SearchSlotID l' (bytes "apple") = Ok (0, false).
Proof.
  apply (Leaf_Initialize_empty body_of_ones (bytes "apple")).
  vm_compute. split; congruence.
Defined.

(** * Branch nodes *)

Section BranchInit.

Lemma slice_read_at (s : list byte) (lo hi : Z) :
  0 <= lo -> lo <= hi -> hi <= len s ->
  slice s lo hi = Ok (read_at s lo (hi - lo)).
Proof.
  intros H0 H1 H2. unfold slice, read_at.
  replace (0 <=? lo) with true by (symmetry; apply Z.leb_le; lia).
  replace (lo <=? hi) with true by (symmetry; apply Z.leb_le; lia).
  replace (hi <=? len s) with true by (symmetry; apply Z.leb_le; lia).
  reflexivity.
Qed.

Lemma Branch_Initialize_spec (b key : list byte) (leftChild rightChild : Z) :
  222 + len key <= len b <= 65535 ->
  0 <= leftChild < 18446744073709551616 ->
  0 <= rightChild < 18446744073709551616 ->
  exists b',
    Branch.Initialize b key leftChild rightChild = Ok b' /\
    len b' = len b /\
    Branch.NumChildren b' = Ok 2 /\
    Branch.KeyAt b' 0 = Ok key /\
    Branch.ChildAt b' 0 = Ok leftChild /\
    Branch.ChildAt b' 1 = Ok rightChild.
Proof.
  intros Hlen Hleft Hright.
  pose proof (len_nonneg key) as Hk0.
  set (L := len b) in *.
  set (off := L - 2 - len key).
  set (b1 := write_at b 0 (le_encode 2 2)).
  assert (E1 : same_except b b1 0 2)
    by (apply (same_except_write_at b 0 (le_encode 2 2)); rewrite ?len_le_encode; lia).
  pose proof (proj1 E1) as L1. fold L in L1.
  set (b2 := write_at b1 2 (le_encode 2 L)).
  assert (E2 : same_except b1 b2 2 4)
    by (apply (same_except_write_at b1 2 (le_encode 2 L)); rewrite ?len_le_encode; lia).
  pose proof (proj1 E2) as L2.
  set (b3 := write_at b2 off (le_encode 2 (len key))).
  assert (E3 : same_except b2 b3 off (off + 2)).
  { apply (same_except_write_at b2 off (le_encode 2 (len key)));
      rewrite ?len_le_encode; unfold off; lia. }
  pose proof (proj1 E3) as L3.
  set (b4 := write_at b3 (off + 2) key).
  assert (E4 : same_except b3 b4 (off + 2) (off + 2 + len key)).
  { apply (same_except_write_at b3 (off + 2) key); unfold off; lia. }
  pose proof (proj1 E4) as L4.
  set (b5 := write_at b4 4 (le_encode 2 off)).
  assert (E5 : same_except b4 b5 4 6)
    by (apply (same_except_write_at b4 4 (le_encode 2 off)); rewrite ?len_le_encode; lia).
  pose proof (proj1 E5) as L5.
  set (b6 := write_at b5 2 (le_encode 2 off)).
  assert (E6 : same_except b5 b6 2 4)
    by (apply (same_except_write_at b5 2 (le_encode 2 off)); rewrite ?len_le_encode; lia).
  pose proof (proj1 E6) as L6.
  set (b7 := write_at b6 204 (le_encode 8 leftChild)).
  assert (E7 : same_except b6 b7 204 212)
    by (apply (same_except_write_at b6 204 (le_encode 8 leftChild));
        rewrite ?len_le_encode; lia).
  pose proof (proj1 E7) as L7.
  set (b8 := write_at b7 212 (le_encode 8 rightChild)).
  assert (E8 : same_except b7 b8 212 220)
    by (apply (same_except_write_at b7 212 (le_encode 8 rightChild));
        rewrite ?len_le_encode; lia).
  pose proof (proj1 E8) as L8.
  exists b8.
  assert (HI : Branch.Initialize b key leftChild rightChild = Ok b8).
  { unfold Branch.Initialize, Branch.setNumChildren, Branch.setFreeSpaceOffset,
      Branch.BranchNumChildrenOffset, Branch.BranchFreeSpaceOffsetOffset.
    rewrite writeUint16_eq by lia. fold b1.
    rewrite writeUint16_eq by lia.
    rewrite L1, (wrap16_small L) by lia. fold b2.
    unfold Branch.write_key, Branch.freeSpaceOffset,
      Branch.BranchFreeSpaceOffsetOffset.
    unfold b2 at 1. rewrite read16_write16 by lia.
    rewrite (wrap16_small L) by lia. fold b2.
    rewrite (wrap16_small (2 + len key)) by lia.
    replace (L - (2 + len key)) with off by (unfold off; lia).
    rewrite (wrap16_small off) by (unfold off; lia).
    rewrite (wrap16_small (len key)) by lia.
    change (with_slice_from b2 off (fun s => PutUint16 s (len key)))
      with (Leaf.writeUint16 b2 off (len key)).
    rewrite writeUint16_eq by (unfold off; lia). fold b3.
    rewrite (wrap16_small (off + 2)) by (unfold off; lia).
    rewrite copy_at_eq by (unfold off; lia). fold b4.
    unfold Branch.setKeySlot.
    change (Branch.keySlotOffset 0) with 4.
    rewrite writeUint16_eq by lia. fold b5.
    unfold Branch.setFreeSpaceOffset, Branch.BranchFreeSpaceOffsetOffset.
    rewrite writeUint16_eq by lia. fold b6.
    unfold Branch.setChild.
    change (Branch.childOffset 0) with 204. change (Branch.childOffset 1) with 212.
    rewrite writeUint64_eq by lia. fold b7.
    rewrite writeUint64_eq by lia. reflexivity. }
  split; [exact HI|]. split; [lia|]. split; [|split; [|split]].
  - unfold Branch.NumChildren, Branch.BranchNumChildrenOffset.
    rewrite (same_except_read16 b7 b8 _ _ 0 E8) by lia.
    rewrite (same_except_read16 b6 b7 _ _ 0 E7) by lia.
    rewrite (same_except_read16 b5 b6 _ _ 0 E6) by lia.
    rewrite (same_except_read16 b4 b5 _ _ 0 E5) by lia.
    rewrite (same_except_read16 b3 b4 _ _ 0 E4) by (unfold off; lia).
    rewrite (same_except_read16 b2 b3 _ _ 0 E3) by (unfold off; lia).
    rewrite (same_except_read16 b1 b2 _ _ 0 E2) by lia.
    unfold b1. rewrite read16_write16 by lia. reflexivity.
  - unfold Branch.KeyAt, Branch.getKeySlot.
    change (Branch.keySlotOffset 0) with 4.
    rewrite (same_except_read16 b7 b8 _ _ 4 E8) by lia.
    rewrite (same_except_read16 b6 b7 _ _ 4 E7) by lia.
    rewrite (same_except_read16 b5 b6 _ _ 4 E6) by lia.
    unfold b5 at 1. rewrite read16_write16 by lia.
    rewrite (wrap16_small off) by (unfold off; lia).
    rewrite (same_except_read16 b7 b8 _ _ off E8) by (unfold off; lia).
    rewrite (same_except_read16 b6 b7 _ _ off E7) by (unfold off; lia).
    rewrite (same_except_read16 b5 b6 _ _ off E6) by (unfold off; lia).
    rewrite (same_except_read16 b4 b5 _ _ off E5) by (unfold off; lia).
    rewrite (same_except_read16 b3 b4 _ _ off E4) by (unfold off; lia).
    unfold b3 at 1. rewrite read16_write16 by (unfold off; lia).
    rewrite (wrap16_small (len key)) by lia.
    rewrite (wrap16_small (off + 2)) by (unfold off; lia).
    rewrite (wrap16_small (off + 2 + len key)) by (unfold off; lia).
    rewrite slice_read_at by (unfold off; lia).
    replace (off + 2 + len key - (off + 2)) with (len key) by lia.
    rewrite (proj2 E8) by (unfold off; lia).
    rewrite (proj2 E7) by (unfold off; lia).
    rewrite (proj2 E6) by (unfold off; lia).
    rewrite (proj2 E5) by (unfold off; lia).
    unfold b4. rewrite read_at_write_at by (unfold off; lia). reflexivity.
  - unfold Branch.ChildAt. change (Branch.childOffset 0) with 204.
    rewrite (same_except_read64 b7 b8 _ _ 204 E8) by lia.
    unfold b7. rewrite read64_write64 by lia.
    rewrite wrap64_small by lia. reflexivity.
  - unfold Branch.ChildAt. change (Branch.childOffset 1) with 212.
    unfold b8. rewrite read64_write64 by lia.
    rewrite wrap64_small by lia. reflexivity.
Qed.

End BranchInit.

(** X25. [Branch.Initialize] makes a branch with one key and two
    children, and [SearchChild] routes by that key: a search key smaller
    than the separator goes to the left child, an equal or larger one to the
    right child. *)
Theorem Branch_Initialize_routes (b key k : list byte) (leftChild rightChild : Z) :
  222 + len key <= len b <= 65535 ->
  0 <= leftChild < 18446744073709551616 ->
  0 <= rightChild < 18446744073709551616 ->
  exists b',
    Branch.Initialize b key leftChild rightChild = Ok b' /\
    Branch.NumKeys b' = Ok 1 /\
    Branch.KeyAt b' 0 = Ok key /\
    Branch.ChildAt b' 0 = Ok leftChild /\
    Branch.ChildAt b' 1 = Ok rightChild /\
    Branch.SearchChild b' k = Ok (if key_lt k key then leftChild else rightChild).
Proof.
  intros Hlen Hleft Hright.
  destruct (Branch_Initialize_spec b key leftChild rightChild Hlen Hleft Hright)
    as (b' & HI & _ & Hn & Hkey & Hc0 & Hc1).
  exists b'. split; [exact HI|].
  assert (HK : Branch.NumKeys b' = Ok 1) by (unfold Branch.NumKeys; rewrite Hn; reflexivity).
  split; [exact HK|]. split; [exact Hkey|]. split; [exact Hc0|].
  split; [exact Hc1|].
  unfold Branch.SearchChild, Branch.SearchChildIdx. rewrite HK.
  change (Z.to_nat 1) with 1%nat. cbn [Branch.SearchChildIdx_loop].
  change (0 <? 1) with true. cbn match.
  change (Z.quot (wint (0 + 1)) 2) with 0. rewrite Hkey.
  unfold key_lt. rewrite (bytes_Compare_antisym key k).
  destruct (bytes_Compare key k); cbn [CompOpp].
  - change (wint (0 + 1)) with 1. change (1 <? 1) with false. cbn match. exact Hc1.
  - change (wint (0 + 1)) with 1. change (1 <? 1) with false. cbn match. exact Hc1.
  - change (0 <? 0) with false. cbn match. exact Hc0.
Qed.

(** * Trees that have not split *)

Section View.

Lemma pages_agree_trans m1 m2 m3 :
  pages_agree m1 m2 -> pages_agree m2 m3 -> pages_agree m1 m3.
Proof.
  intros [Ht1 H1] [Ht2 H2]. split; [congruence|].
  intros b f Hf. destruct (H1 b f Hf) as (f' & Hf' & Hp').
  destruct (H2 b f' Hf') as (f'' & Hf'' & Hp''). exists f''. split; congruence.
Qed.

Lemma cached_agree m m' pageID b page :
  pages_agree m m' -> cached m pageID b page -> cached m' pageID b page.
Proof.
  intros [Ht H] [Hl (f & Hf & Hp)]. split; [congruence|].
  destruct (H b f Hf) as (f' & Hf' & Hp'). exists f'. split; congruence.
Qed.

Lemma pages_agree_set_frame m b f f' :
  BufferPool.frame_at (BufferPoolManager.pool m) b = Ok f ->
  Buffer.Page (Frame.Buffer f') = Buffer.Page (Frame.Buffer f) ->
  pages_agree m
    (BufferPoolManager.set_pool m
       (BufferPool.set_frame (BufferPoolManager.pool m) b f')).
Proof.
  intros Hf Hp. split; [reflexivity|]. intros b' g Hg.
  cbn [BufferPoolManager.set_pool BufferPoolManager.pool].
  destruct (Z.eq_dec b' b) as [->|Hne].
  - exists f'. split; [eapply frame_at_set_frame; exact Hf|]. congruence.
  - exists g. split; [|reflexivity].
    rewrite frame_at_set_frame_ne; [exact Hg| | |congruence].
    + eapply frame_at_nonneg. exact Hf.
    + eapply frame_at_nonneg. exact Hg.
Qed.

Lemma FetchPage_hit m pageID b page :
  cached m pageID b page ->
  exists m', BufferPoolManager.FetchPage pageID m = (Ok b, m') /\
             pages_agree m m'.
Proof.
  intros [Hl (f & Hf & Hp)]. unfold BufferPoolManager.FetchPage.
  rewrite Hl, Hf. eexists. split; [reflexivity|].
  apply (pages_agree_set_frame m b f); [exact Hf|reflexivity].
Qed.

Lemma Page_of_cached m pageID b page :
  cached m pageID b page -> Page_of b m = (Ok page, m).
Proof.
  intros [_ (f & Hf & Hp)]. unfold Page_of, bindM, buffer_of, retM.
  rewrite Hf, Hp. reflexivity.
Qed.

Lemma mark_dirty_cached m pageID b page :
  cached m pageID b page ->
  exists m', mark_dirty b m = (Ok tt, m') /\ pages_agree m m'.
Proof.
  intros [_ (f & Hf & Hp)]. unfold mark_dirty, update_buffer. rewrite Hf.
  eexists. split; [reflexivity|].
  apply (pages_agree_set_frame m b f); [exact Hf|reflexivity].
Qed.

Lemma with_Page_cached m pageID b page page' g :
  cached m pageID b page -> g page = Ok page' ->
  exists m', with_Page b g m = (Ok tt, m') /\
             cached m' pageID b page' /\
             BufferPoolManager.pageTable m' = BufferPoolManager.pageTable m /\
             forall b' f, b' <> b ->
               BufferPool.frame_at (BufferPoolManager.pool m) b' = Ok f ->
               BufferPool.frame_at (BufferPoolManager.pool m') b' = Ok f.
Proof.
  intros Hc Hg. pose proof (Page_of_cached m pageID b page Hc) as HP.
  destruct Hc as [Hl (f & Hf & Hp)].
  unfold with_Page. rewrite (bindM_Ok _ _ _ _ _ HP).
  unfold liftM at 1. unfold bindM at 1. rewrite Hg.
  unfold update_buffer. rewrite Hf.
  eexists. split; [reflexivity|]. split; [|split; [reflexivity|]].
  - split; [exact Hl|]. eexists. split; [eapply frame_at_set_frame; exact Hf|].
    reflexivity.
  - intros b' f' Hne Hf'.
    cbn [BufferPoolManager.set_pool BufferPoolManager.pool].
    rewrite frame_at_set_frame_ne; [exact Hf'| | |congruence].
    + eapply frame_at_nonneg. exact Hf.
    + eapply frame_at_nonneg. exact Hf'.
Qed.

Lemma cached_other m m' pageID b page b0 :
  BufferPoolManager.pageTable m' = BufferPoolManager.pageTable m ->
  (forall b' f, b' <> b0 ->
     BufferPool.frame_at (BufferPoolManager.pool m) b' = Ok f ->
     BufferPool.frame_at (BufferPoolManager.pool m') b' = Ok f) ->
  b <> b0 -> cached m pageID b page -> cached m' pageID b page.
Proof.
  intros Ht H Hne [Hl (f & Hf & Hp)]. split; [congruence|].
  exists f. split; [apply H; assumption|exact Hp].
Qed.

(** A leaf page: its node type and its body. *)
Lemma leaf_page_NewNode (hdr body : list byte) :
  length hdr = 7%nat ->
  Node.NewNode (byte_of_Z Node.NodeTypeLeaf :: hdr ++ body)
    = Ok Node.NodeTypeLeaf /\
  Node.Body (byte_of_Z Node.NodeTypeLeaf :: hdr ++ body) = Ok body.
Proof.
  intros Hh.
  assert (Hb : slice_from (byte_of_Z Node.NodeTypeLeaf :: hdr ++ body)
                 Node.NodeHeaderSize = Ok body).
  { change (byte_of_Z Node.NodeTypeLeaf :: hdr ++ body)
      with ((byte_of_Z Node.NodeTypeLeaf :: hdr) ++ body).
    apply slice_from_app. unfold len. cbn [length]. rewrite Hh. reflexivity. }
  split; [|exact Hb]. unfold Node.NewNode. rewrite Hb. reflexivity.
Qed.

Lemma leaf_page_write (hdr body body' : list byte) :
  length hdr = 7%nat ->
  with_slice_from (byte_of_Z Node.NodeTypeLeaf :: hdr ++ body)
    Node.NodeHeaderSize (fun _ => Ok body')
  = Ok (byte_of_Z Node.NodeTypeLeaf :: hdr ++ body').
Proof.
  intros Hh.
  change (byte_of_Z Node.NodeTypeLeaf :: hdr ++ body)
    with ((byte_of_Z Node.NodeTypeLeaf :: hdr) ++ body).
  rewrite with_slice_from_app by (unfold len; cbn [length]; rewrite Hh; reflexivity).
  reflexivity.
Qed.

End View.

Section UnsplitTree.

Lemma root_leaf_agree tree m m' pairs br body :
  pages_agree m m' -> root_leaf tree m pairs br body ->
  root_leaf tree m' pairs br body.
Proof.
  intros Ha (bm & root & pageM & hdr & Hne & Hcm & Hmeta & Hcr & Hrest).
  exists bm, root, pageM, hdr. split; [exact Hne|].
  split; [eapply cached_agree; eassumption|]. split; [exact Hmeta|].
  split; [eapply cached_agree; eassumption|]. exact Hrest.
Qed.

Lemma Body_of_root tree m pairs br body :
  root_leaf tree m pairs br body ->
  (page <~ Page_of br ;; liftM (Node.NewNode page)) m = (Ok Node.NodeTypeLeaf, m) /\
  Body_of br m = (Ok body, m).
Proof.
  intros (bm & root & pageM & hdr & _ & _ & _ & Hcr & Hh & _).
  pose proof (Page_of_cached _ _ _ _ Hcr) as HP.
  destruct (leaf_page_NewNode hdr body Hh) as [Hn Hb].
  split.
  - rewrite (bindM_Ok _ _ _ _ _ HP). unfold liftM. rewrite Hn. reflexivity.
  - unfold Body_of. rewrite (bindM_Ok _ _ _ _ _ HP). unfold liftM.
    rewrite Hb. reflexivity.
Qed.

(** The descent that [Insert] and [Search] share: the meta page, the root
    page id in it, the root page. *)
Lemma fetch_root tree m pairs br body :
  root_leaf tree m pairs br body ->
  exists bm root m1 m2,
    BufferPoolManager.FetchPage (BTree.MetaPageID tree) m = (Ok bm, m1) /\
    (page <~ Page_of bm ;; liftM (Meta.NewMeta page)) m1 = (Ok root, m1) /\
    BufferPoolManager.FetchPage root m1 = (Ok br, m2) /\
    pages_agree m m2.
Proof.
  intros (bm & root & pageM & hdr & Hne & Hcm & Hmeta & Hcr & Hrest).
  destruct (FetchPage_hit m _ bm pageM Hcm) as (m1 & HF1 & Ha1).
  pose proof (cached_agree _ _ _ _ _ Ha1 Hcm) as Hcm1.
  pose proof (cached_agree _ _ _ _ _ Ha1 Hcr) as Hcr1.
  destruct (FetchPage_hit m1 _ br _ Hcr1) as (m2 & HF2 & Ha2).
  exists bm, root, m1, m2. split; [exact HF1|]. split; [|split; [exact HF2|]].
  - pose proof (Page_of_cached _ _ _ _ Hcm1) as HP.
    rewrite (bindM_Ok _ _ _ _ _ HP). unfold liftM. rewrite Hmeta. reflexivity.
  - eapply pages_agree_trans; eassumption.
Qed.

Lemma root_leaf_write tree m pairs br body pairs' body' :
  root_leaf tree m pairs br body ->
  len body' = 4088 -> leaf_holds body' pairs' -> sorted_keys pairs' ->
  Leaf.freeSpace body' = Ok (4068 - pairs_size pairs') ->
  Leaf.NextPageID body' = Ok None ->
  exists m', with_Body br (fun _ => Ok body') m = (Ok tt, m') /\
             root_leaf tree m' pairs' br body'.
Proof.
  intros (bm & root & pageM & hdr & Hne & Hcm & Hmeta & Hcr & Hh & _)
         Hlen Hh' Hs' Hfs' Hn'.
  destruct (with_Page_cached m root br _ _
              (fun page => with_slice_from page Node.NodeHeaderSize
                             (fun _ => Ok body'))
              Hcr (leaf_page_write hdr body body' Hh))
    as (m' & HW & Hcr' & Ht & Hother).
  exists m'. split; [exact HW|].
  exists bm, root, pageM, hdr. split; [exact Hne|].
  split; [eapply cached_other; eassumption|]. split; [exact Hmeta|].
  split; [exact Hcr'|]. auto 10.
Qed.

Lemma root_leaf_dirty tree m pairs br body :
  root_leaf tree m pairs br body ->
  exists m', mark_dirty br m = (Ok tt, m') /\ root_leaf tree m' pairs br body.
Proof.
  intros Hr. pose proof Hr as (bm & root & pageM & hdr & _ & _ & _ & Hcr & _).
  destruct (mark_dirty_cached m root br _ Hcr) as (m' & Hd & Ha).
  exists m'. split; [exact Hd|]. eapply root_leaf_agree; eassumption.
Qed.

Lemma pairs_size_insert (pairs : list Pair.t) (i : nat) (p : Pair.t) :
  pairs_size (take i pairs ++ p :: drop i pairs)
  = 6 + len (Pair.Key p) + len (Pair.Value p) + pairs_size pairs.
Proof.
  revert i. induction pairs as [|q pairs IH]; intros i.
  - rewrite take_nil, drop_nil. reflexivity.
  - destruct i as [|i]; [reflexivity|].
    cbn [take drop app pairs_size foldr]. fold (pairs_size pairs).
    fold (pairs_size (take i pairs ++ p :: drop i pairs)).
    rewrite IH. lia.
Qed.

End UnsplitTree.

Lemma Insert_new_key (fuel : nat) (tree : BTree.t)
    (m : BufferPoolManager.t) (pairs : list Pair.t) (key value : list byte) :
  unsplit_tree tree m pairs ->
  (forall p, p ∈ pairs -> Pair.Key p <> key) ->
  pairs_size pairs + 6 + len key + len value <= 4068 ->
  exists m' pairs',
    BTree.Insert (S fuel) tree key value m = (Ok tt, m') /\
    unsplit_tree tree m' pairs' /\
    pairs' ≡ₚ Pair.mk key value :: pairs.
Proof.
  intros (br & body & Hr) Hnew Hroom.
  destruct (fetch_root tree m pairs br body Hr)
    as (bm & root & m1 & m2 & HF1 & HM & HF2 & Ha).
  pose proof (root_leaf_agree _ _ _ _ _ _ Ha Hr) as Hr2.
  destruct (Body_of_root _ _ _ _ _ Hr2) as [Htype Hbody].
  pose proof Hr2 as (_ & _ & _ & _ & _ & _ & _ & _ & _ & Hlen & Hh & Hs & Hfs & Hnext).
  destruct (SearchSlotID_spec body pairs key Hh Hs) as (i & found & Hsr & Hi & Hspec).
  destruct found.
  { destruct Hspec as (p & Hp & Hk). exfalso. apply (Hnew p); [|exact Hk].
    eapply list_elem_of_lookup_2. exact Hp. }
  destruct Hspec as [Hbelow Habove].
  pose proof (pairs_size_nonneg pairs) as Hps.
  destruct (Insert_room body pairs i key value _ Hh Hi Hfs ltac:(lia))
    as (body' & HI & Hh' & Hfs' & E).
  set (pairs' := take i pairs ++ Pair.mk key value :: drop i pairs) in *.
  assert (Hs' : sorted_keys pairs') by (apply sorted_keys_insert; assumption).
  assert (Hsize : pairs_size pairs' = 6 + len key + len value + pairs_size pairs)
    by apply pairs_size_insert.
  destruct (root_leaf_write tree m2 pairs br body pairs' body' Hr2)
    as (m3 & HW & Hr3); [rewrite (proj1 E); exact Hlen|exact Hh'|exact Hs'| | |].
  { rewrite Hfs', Hsize. f_equal. lia. }
  { rewrite (proj2 (same_except_siblings body body' _ E)). exact Hnext. }
  destruct (root_leaf_dirty tree m3 pairs' br body' Hr3) as (m4 & HD & Hr4).
  exists m4, pairs'. split; [|split].
  - unfold BTree.Insert.
    rewrite (bindM_Ok _ _ _ _ _ HF1), (bindM_Ok _ _ _ _ _ HM),
      (bindM_Ok _ _ _ _ _ HF2).
    assert (HII : BTree.insertInternal (S fuel) br key value m2 = (Ok None, m4)).
    { cbn [BTree.insertInternal].
      rewrite (bindM_Ok _ _ _ _ _ Htype). rewrite Z.eqb_refl.
      rewrite (bindM_Ok _ _ _ _ _ Hbody).
      unfold liftM at 1. unfold bindM at 1. rewrite Hsr.
      unfold liftM at 1. unfold bindM at 1. rewrite HI. cbn [fst snd].
      rewrite (bindM_Ok _ _ _ _ _ HW), (bindM_Ok _ _ _ _ _ HD). reflexivity. }
    rewrite (bindM_Ok _ _ _ _ _ HII). reflexivity.
  - exists br, body'. exact Hr4.
  - unfold pairs'. rewrite <- Permutation_middle.
    rewrite take_drop. reflexivity.
Qed.

Lemma Insert_existing_key (fuel : nat) (tree : BTree.t)
    (m : BufferPoolManager.t) (pairs : list Pair.t) (p : Pair.t)
    (value : list byte) :
  unsplit_tree tree m pairs -> p ∈ pairs ->
  exists m',
    BTree.Insert (S fuel) tree (Pair.Key p) value m = (Err ErrDuplicateKey, m') /\
    unsplit_tree tree m' pairs.
Proof.
  intros (br & body & Hr) Hp.
  destruct (fetch_root tree m pairs br body Hr)
    as (bm & root & m1 & m2 & HF1 & HM & HF2 & Ha).
  pose proof (root_leaf_agree _ _ _ _ _ _ Ha Hr) as Hr2.
  destruct (Body_of_root _ _ _ _ _ Hr2) as [Htype Hbody].
  pose proof Hr2 as (_ & _ & _ & _ & _ & _ & _ & _ & _ & Hlen & Hh & Hs & Hfs & Hnext).
  apply list_elem_of_lookup in Hp as [i Hi].
  pose proof (SearchSlotID_found body pairs i p Hh Hs Hi) as Hsr.
  exists m2. split; [|exists br, body; exact Hr2].
  unfold BTree.Insert.
  rewrite (bindM_Ok _ _ _ _ _ HF1), (bindM_Ok _ _ _ _ _ HM),
    (bindM_Ok _ _ _ _ _ HF2).
  unfold bindM at 1. cbn [BTree.insertInternal].
  rewrite (bindM_Ok _ _ _ _ _ Htype). rewrite Z.eqb_refl.
  rewrite (bindM_Ok _ _ _ _ _ Hbody).
  unfold liftM at 1. unfold bindM at 1. rewrite Hsr. reflexivity.
Qed.

(** X27. [Insert] into a tree that has not split.  When the key is new
    and the root leaf has room for the pair, it returns nil and the tree is
    an unsplit tree that holds the pairs it held and the new one, in key
    order.  When the tree holds the key, it fails with [ErrDuplicateKey] and
    the tree holds the same pairs. *)
Theorem Insert_unsplit_tree (fuel : nat) (tree : BTree.t)
    (m : BufferPoolManager.t) (pairs : list Pair.t) (key value : list byte) :
  unsplit_tree tree m pairs ->
  ((forall p, p ∈ pairs -> Pair.Key p <> key) ->
   pairs_size pairs + 6 + len key + len value <= 4068 ->
   exists m' pairs',
     BTree.Insert (S fuel) tree key value m = (Ok tt, m') /\
     unsplit_tree tree m' pairs' /\
     pairs' ≡ₚ Pair.mk key value :: pairs) /\
  (forall p, p ∈ pairs -> Pair.Key p = key ->
   exists m',
     BTree.Insert (S fuel) tree key value m = (Err ErrDuplicateKey, m') /\
     unsplit_tree tree m' pairs).
Proof.
  intros Hu. split.
  - apply Insert_new_key. exact Hu.
  - intros p Hp <-. apply Insert_existing_key; assumption.
Qed.

Section Scan.

Lemma Next_root_leaf tree m pairs br body (slotID : Z) :
  root_leaf tree m pairs br body -> 0 <= slotID < max_int ->
  Iter.Next (Iter.mk br slotID) m
  = (Ok (pairs !! Z.to_nat slotID), Iter.mk br (slotID + 1), m).
Proof.
  intros Hr Hslot.
  destruct (Body_of_root _ _ _ _ _ Hr) as [_ Hbody].
  pose proof Hr as (_ & _ & _ & _ & _ & _ & _ & _ & _ & Hlen & Hh & Hs & Hfs & Hnext).
  pose proof (proj1 (proj2 Hh)) as Hn.
  pose proof (len_nonneg pairs) as Hn0.
  assert (Hget : Iter.get (Iter.mk br slotID) m
                 = (Ok (pairs !! Z.to_nat slotID), m)).
  { unfold Iter.get. cbn [Iter.buffer Iter.slotID].
    rewrite (bindM_Ok _ _ _ _ _ Hbody).
    unfold liftM at 1. unfold bindM at 1. rewrite Hn.
    destruct (slotID <? len pairs) eqn:Hlt.
    - apply Z.ltb_lt in Hlt.
      destruct (pairs !! Z.to_nat slotID) as [p|] eqn:Hp.
      2:{ apply lookup_ge_None in Hp. unfold len in *. lia. }
      pose proof (PairAt_holds body pairs _ p Hh Hp) as HP.
      rewrite Z2Nat.id in HP by lia.
      unfold liftM, bindM. rewrite HP. reflexivity.
    - apply Z.ltb_ge in Hlt. rewrite lookup_ge_None_2 by (unfold len in *; lia).
      reflexivity. }
  assert (Hadv : Iter.advance (Iter.mk br slotID) m
                 = (Ok tt, Iter.mk br (slotID + 1), m)).
  { unfold Iter.advance. cbn [Iter.buffer Iter.slotID].
    rewrite (wint_small (slotID + 1)) by (unfold max_int in *; lia).
    rewrite (bindM_Ok _ _ _ _ _ Hbody).
    unfold liftM at 1. unfold bindM at 1. rewrite Hn.
    destruct (slotID + 1 <? len pairs); [reflexivity|].
    unfold liftM, bindM. rewrite Hnext. reflexivity. }
  unfold Iter.Next. rewrite Hget, Hadv. reflexivity.
Qed.

Lemma drain_root_leaf tree m pairs br body (fuel s : nat) :
  root_leaf tree m pairs br body ->
  (length pairs - s < fuel)%nat -> Z.of_nat s + Z.of_nat fuel <= max_int ->
  drain fuel (Iter.mk br (Z.of_nat s)) m = Ok (drop s pairs).
Proof.
  intros Hr. revert s. induction fuel as [|fuel IH]; intros s Hf Hmax; [lia|].
  cbn [drain].
  rewrite (Next_root_leaf tree m pairs br body _ Hr) by lia.
  rewrite Nat2Z.id.
  destruct (pairs !! s) as [p|] eqn:Hp.
  - replace (Z.of_nat s + 1) with (Z.of_nat (S s)) by lia.
    rewrite IH by (apply lookup_lt_Some in Hp; lia).
    rewrite (drop_S pairs p s Hp). reflexivity.
  - apply lookup_ge_None in Hp. rewrite drop_ge by lia. reflexivity.
Qed.

Lemma filter_none {A} (f : A -> bool) (l : list A) :
  (forall x, x ∈ l -> f x = false) -> List.filter f l = [].
Proof.
  induction l as [|x l IH]; intros H; [reflexivity|].
  cbn [List.filter]. rewrite (H x) by left. apply IH.
  intros y Hy. apply H. right. exact Hy.
Qed.

Lemma filter_all {A} (f : A -> bool) (l : list A) :
  (forall x, x ∈ l -> f x = true) -> List.filter f l = l.
Proof.
  induction l as [|x l IH]; intros H; [reflexivity|].
  cbn [List.filter]. rewrite (H x) by left. f_equal. apply IH.
  intros y Hy. apply H. right. exact Hy.
Qed.

(** The slot at which a search starts, and what lies behind it. *)
Lemma tupleSlotID_root (search : Search.t) (body : list byte)
    (pairs : list Pair.t) :
  leaf_holds body pairs -> sorted_keys pairs ->
  exists (i : nat) (found : bool),
    Search.tupleSlotID search body = Ok (Z.of_nat i, found) /\
    (i <= length pairs)%nat /\
    drop i pairs = from_search search pairs.
Proof.
  intros Hh Hs. unfold Search.tupleSlotID, from_search.
  destruct (Search.Mode search).
  - exists 0%nat, false. split; [reflexivity|]. split; [lia|reflexivity].
  - destruct (SearchSlotID_spec body pairs (Search.Key search) Hh Hs)
      as (i & found & Hsr & Hi & Hspec).
    exists i, found. split; [exact Hsr|]. split; [exact Hi|].
    rewrite <- (take_drop i pairs) at 2. rewrite List.filter_app.
    assert (Hlow : forall p, p ∈ take i pairs ->
                     key_le (Search.Key search) (Pair.Key p) = false).
    { intros p Hp. apply list_elem_of_lookup in Hp as [j Hj].
      apply lookup_take_Some in Hj as [Hj Hji].
      assert (Hc : bytes_Compare (Pair.Key p) (Search.Key search) = Lt).
      { destruct found.
        - destruct Hspec as (q & Hq & Hk). rewrite <- Hk.
          apply (Hs j i p q Hji Hj Hq).
        - apply (proj1 Hspec j p Hji Hj). }
      unfold key_le. apply bytes_Compare_Gt in Hc. rewrite Hc. reflexivity. }
    assert (Hhigh : forall p, p ∈ drop i pairs ->
                      key_le (Search.Key search) (Pair.Key p) = true).
    { intros p Hp. apply list_elem_of_lookup in Hp as [j Hj].
      rewrite lookup_drop in Hj.
      unfold key_le. destruct found.
      - destruct Hspec as (q & Hq & Hk). rewrite <- Hk.
        destruct j as [|j].
        + rewrite Nat.add_0_r in Hj. rewrite Hq in Hj. injection Hj as <-.
          rewrite bytes_Compare_refl. reflexivity.
        + rewrite (Hs i (i + S j)%nat q p ltac:(lia) Hq Hj). reflexivity.
      - pose proof (proj2 Hspec (i + j)%nat p ltac:(lia) Hj) as Hc.
        apply bytes_Compare_Gt in Hc. rewrite Hc. reflexivity. }
    rewrite (filter_none _ _ Hlow), (filter_all _ _ Hhigh). reflexivity.
Qed.

End Scan.

Lemma Search_root_leaf (fuel : nat) (tree : BTree.t)
    (m : BufferPoolManager.t) (pairs : list Pair.t) (search : Search.t) :
  unsplit_tree tree m pairs ->
  exists it m',
    BTree.Search (S fuel) tree search m = (Ok it, m') /\
    unsplit_tree tree m' pairs /\
    drain (S (length pairs)) it m' = Ok (from_search search pairs).
Proof.
  intros (br & body & Hr).
  destruct (fetch_root tree m pairs br body Hr)
    as (bm & root & m1 & m2 & HF1 & HM & HF2 & Ha).
  pose proof (root_leaf_agree _ _ _ _ _ _ Ha Hr) as Hr2.
  destruct (Body_of_root _ _ _ _ _ Hr2) as [Htype Hbody].
  pose proof Hr2 as (_ & _ & _ & _ & _ & _ & _ & _ & _ & Hlen & Hh & Hs & Hfs & Hnext).
  pose proof (proj1 (proj2 Hh)) as Hn.
  assert (Hn32 : len pairs <= 32767).
  { destruct Hh as (Hl & _ & fso & _ & Hb & _). lia. }
  destruct (tupleSlotID_root search body pairs Hh Hs)
    as (i & found & Hts & Hi & Hfrom).
  set (slot := if len pairs =? Z.of_nat i then Z.of_nat i + 1 else Z.of_nat i).
  assert (HS : BTree.Search (S fuel) tree search m = (Ok (Iter.mk br slot), m2)).
  { unfold BTree.Search, BTree.fetchRootPage.
    unfold bindM at 1. unfold bindM at 1.
    rewrite HF1. rewrite (bindM_Ok _ _ _ _ _ HM). rewrite HF2.
    cbn [BTree.searchInternal].
    rewrite (bindM_Ok _ _ _ _ _ Htype). rewrite Z.eqb_refl.
    rewrite (bindM_Ok _ _ _ _ _ Hbody).
    unfold liftM at 1. unfold bindM at 1. rewrite Hts. cbn [fst].
    unfold liftM at 1. unfold bindM at 1. rewrite Hn.
    unfold slot. destruct (len pairs =? Z.of_nat i) eqn:Hrm; [|reflexivity].
    unfold Iter.advance. cbn [Iter.buffer Iter.slotID].
    rewrite (wint_small (Z.of_nat i + 1)) by (unfold max_int; unfold len in *; lia).
    rewrite (bindM_Ok _ _ _ _ _ Hbody).
    unfold liftM at 1. unfold bindM at 1. rewrite Hn.
    apply Z.eqb_eq in Hrm.
    replace (Z.of_nat i + 1 <? len pairs) with false
      by (symmetry; apply Z.ltb_ge; lia).
    unfold liftM, bindM. rewrite Hnext. reflexivity. }
  exists (Iter.mk br slot), m2. split; [exact HS|].
  split; [exists br, body; exact Hr2|].
  rewrite <- Hfrom. unfold slot.
  destruct (len pairs =? Z.of_nat i) eqn:Hrm.
  - apply Z.eqb_eq in Hrm.
    replace (Z.of_nat i + 1) with (Z.of_nat (S i)) by lia.
    rewrite (drain_root_leaf tree m2 pairs br body _ (S i) Hr2)
      by (unfold max_int; unfold len in *; lia).
    rewrite !drop_ge by (unfold len in *; lia). reflexivity.
  - apply (drain_root_leaf tree m2 pairs br body _ i Hr2);
      unfold max_int; unfold len in *; lia.
Qed.

(** X28. [Search] on a tree that has not split, followed by [Next] until
    it yields nil: [Search] succeeds and the scan yields, in key order, all
    the pairs of the tree for a search from the start, and the pairs whose
    key is not smaller than the search key for a search from a key; the
    tree is as it was. *)
Theorem Search_unsplit_tree (fuel : nat) (tree : BTree.t)
    (m : BufferPoolManager.t) (pairs : list Pair.t) (search : Search.t) :
  unsplit_tree tree m pairs ->
  exists it m',
    BTree.Search (S fuel) tree search m = (Ok it, m') /\
    unsplit_tree tree m' pairs /\
    drain (S (length pairs)) it m' = Ok (from_search search pairs).
Proof. apply Search_root_leaf. Qed.

(** * Tables *)

Section Table.

Lemma SplitTuple_nonneg (row : Tuple.t) (n : Z) :
  0 <= n ->
  Tuple.SplitTuple row n = Ok (take (Z.to_nat n) row, drop (Z.to_nat n) row).
Proof.
  intros Hn. destruct (Z_le_gt_dec n (len row)) as [Hle|Hgt].
  - apply SplitTuple_eq. lia.
  - unfold Tuple.SplitTuple.
    replace (len row <? n) with true by (symmetry; apply Z.ltb_lt; lia).
    rewrite take_ge, drop_ge by (unfold len in *; lia).
    rewrite <- (app_nil_r row) at 1.
    rewrite (slice_app2 row [] (len row)) by reflexivity.
    rewrite slice_from_all. reflexivity.
Qed.

Lemma Insert_row (fuel : nat) (table : SimpleTable.t) (row : Tuple.t)
    (m : BufferPoolManager.t) :
  0 <= SimpleTable.NumKeyElems table ->
  SimpleTable.Insert fuel table row m
  = BTree.Insert fuel (SimpleTable.btree table)
      (Pair.Key (row_pair (SimpleTable.NumKeyElems table) row))
      (Pair.Value (row_pair (SimpleTable.NumKeyElems table) row)) m.
Proof.
  intros Hn. unfold SimpleTable.Insert, liftM, bindM.
  rewrite SplitTuple_nonneg by exact Hn. cbn [fst snd].
  rewrite !Encode_eq. reflexivity.
Qed.

Lemma row_ok_take_drop (row : Tuple.t) (n : nat) :
  row_ok row -> row_ok (take n row) /\ row_ok (drop n row).
Proof.
  intros [Hl Hf]. unfold row_ok, len in *.
  rewrite length_take, length_drop.
  repeat split; try lia.
  - apply Forall_take. exact Hf.
  - apply Forall_drop. exact Hf.
Qed.

Lemma decode_row_pair (n : Z) (row : Tuple.t) :
  row_ok row ->
  (key <- Tuple.DecodeTuple (Pair.Key (row_pair n row)) ;;
   value <- Tuple.DecodeTuple (Pair.Value (row_pair n row)) ;;
   tuple <- Tuple.MergeTuple key value ;;
   Ok (Some tuple)) = Ok (Some row).
Proof.
  intros Hr. destruct (row_ok_take_drop row (Z.to_nat n) Hr) as [[Hk1 Hk2] [Hv1 Hv2]].
  cbn [row_pair Pair.Key Pair.Value].
  rewrite (DecodeTuple_tuple_bytes _ Hk1 Hk2), (DecodeTuple_tuple_bytes _ Hv1 Hv2).
  rewrite MergeTuple_eq, take_drop. reflexivity.
Qed.

Lemma table_drain_rows (fuel : nat) (n : Z) (rows : list Tuple.t)
    (it : Iter.t) (m : BufferPoolManager.t) :
  Forall row_ok rows ->
  drain fuel it m = Ok (map (row_pair n) rows) ->
  table_drain fuel (TableIter.mk it n) m = Ok rows.
Proof.
  revert rows it m. induction fuel as [|fuel IH]; intros rows it m Hok Hd;
    [discriminate|].
  cbn [drain table_drain] in *. unfold TableIter.Next.
  cbn [TableIter.btreeIter TableIter.numKeyElems].
  destruct (Iter.Next it m) as [[[[p|]|e] it'] m']; [| |discriminate].
  - destruct (drain fuel it' m') as [rest|e] eqn:Hrest; [|discriminate].
    injection Hd as Hd. destruct rows as [|row rows]; [discriminate|].
    cbn [map] in Hd. injection Hd as -> ->.
    apply Forall_cons in Hok as [Hrow Hok].
    rewrite (decode_row_pair n row Hrow).
    rewrite (IH rows it' m' Hok Hrest). reflexivity.
  - injection Hd as Hd. destruct rows; [reflexivity|discriminate].
Qed.

End Table.

Section Created.

Lemma unsplit_tree_created (tl : list Frame.t) :
  unsplit_tree (BTree.mk 0) (created tl) [].
Proof.
  exists 1, empty_leaf, 0, 1, (le_encode 8 1 ++ make 4088), (make 7).
  split; [lia|].
  split; [split; [reflexivity|eexists; split; reflexivity]|].
  split; [vm_compute; reflexivity|].
  split; [split; [reflexivity|eexists; split; reflexivity]|].
  split; [reflexivity|]. split; [vm_compute; reflexivity|].
  split; [exact leaf_holds_empty_leaf|]. split; [exact sorted_keys_nil|].
  split; vm_compute; reflexivity.
Qed.

Lemma Create_new_manager (poolSize : Z) :
  2 <= poolSize <= max_int ->
  exists m0 m1, new_manager poolSize = Ok m0 /\
                BTree.Create m0 = (Ok (BTree.mk 0), m1) /\
                unsplit_tree (BTree.mk 0) m1 [].
Proof.
  intros Hp. eexists _, _. split; [apply new_manager_eq; lia|]. split.
  - apply Create_manager2.
    + unfold len. rewrite repeat_length. lia.
    + apply Forall_forall. intros f Hf. apply list_elem_of_In, repeat_spec in Hf.
      subst f. cbn. lia.
  - apply unsplit_tree_created.
Qed.

End Created.

(** X26. [Create], of a tree and of a table, on a new heap file with a
    pool of at least two frames: it succeeds, and the tree is an unsplit
    tree that holds no pair. *)
Theorem Create_unsplit_tree (poolSize numKeyElems : Z) :
  2 <= poolSize <= max_int ->
  exists m0 tree m1,
    new_manager poolSize = Ok m0 /\
    BTree.Create m0 = (Ok tree, m1) /\
    SimpleTable.Create numKeyElems m0
      = (Ok (SimpleTable.mk (BTree.MetaPageID tree) numKeyElems), m1) /\
    unsplit_tree tree m1 [].
Proof.
  intros Hp. destruct (Create_new_manager poolSize Hp) as (m0 & m1 & H0 & HC & Hu).
  exists m0, (BTree.mk 0), m1. split; [exact H0|]. split; [exact HC|].
  split; [|exact Hu].
  unfold SimpleTable.Create. rewrite (bindM_Ok _ _ _ _ _ HC). reflexivity.
Qed.

Lemma Create_unsplit_tree_witness :
  exists m0 tree m1,
    new_manager 10 = Ok m0 /\
    BTree.Create m0 = (Ok tree, m1) /\
    SimpleTable.Create 1 m0
      = (Ok (SimpleTable.mk (BTree.MetaPageID tree) 1), m1) /\
    unsplit_tree tree m1 [].
Proof. apply (Create_unsplit_tree 10 1). unfold max_int. lia. Defined.

(** X29. [SimpleTable.Insert].  With a negative number of key elements it
    panics before it touches the pool.  Otherwise, on a table whose tree has
    not split, for a row whose key is new and whose pair fits the root leaf,
    it returns nil and the tree holds, besides the pairs it held, the pair
    made of the encoded key elements and the encoded other elements of the
    row. *)
Theorem Table_Insert_row (fuel : nat) (table : SimpleTable.t)
    (m : BufferPoolManager.t) (pairs : list Pair.t) (row : Tuple.t) :
  unsplit_tree (SimpleTable.btree table) m pairs ->
  (SimpleTable.NumKeyElems table < 0 ->
   SimpleTable.Insert (S fuel) table row m = (Err Panic, m)) /\
  (0 <= SimpleTable.NumKeyElems table ->
   (forall p, p ∈ pairs ->
      Pair.Key p <> Pair.Key (row_pair (SimpleTable.NumKeyElems table) row)) ->
   pairs_size (row_pair (SimpleTable.NumKeyElems table) row :: pairs) <= 4068 ->
   exists m' pairs',
     SimpleTable.Insert (S fuel) table row m = (Ok tt, m') /\
     unsplit_tree (SimpleTable.btree table) m' pairs' /\
     pairs' ≡ₚ row_pair (SimpleTable.NumKeyElems table) row :: pairs).
Proof.
  intros Hu. split.
  - intros Hn. unfold SimpleTable.Insert, liftM, bindM.
    rewrite (SplitTuple_negative row _ Hn). reflexivity.
  - intros Hn Hnew Hroom. rewrite Insert_row by exact Hn.
    cbn [pairs_size foldr] in Hroom. fold (pairs_size pairs) in Hroom.
    destruct (Insert_new_key fuel _ m pairs _
                (Pair.Value (row_pair (SimpleTable.NumKeyElems table) row))
                Hu Hnew ltac:(lia)) as (m' & pairs' & HI & Hu' & Hperm).
    exists m', pairs'. auto.
Qed.

Section TableScan.

Lemma filter_map_commute {A B} (f : B -> bool) (g : A -> B) (l : list A) :
  List.filter f (map g l) = map g (List.filter (fun x => f (g x)) l).
Proof.
  induction l as [|x l IH]; [reflexivity|].
  cbn [map List.filter]. destruct (f (g x)); cbn [map]; rewrite IH; reflexivity.
Qed.

Lemma Forall_filter_bool {A} (P : A -> Prop) (f : A -> bool) (l : list A) :
  Forall P l -> Forall P (List.filter f l).
Proof.
  induction 1 as [|x l Hx _ IH]; [constructor|].
  cbn [List.filter]. destruct (f x); [constructor; assumption|exact IH].
Qed.

Lemma Scan_rows (fuel : nat) (table : SimpleTable.t) (m : BufferPoolManager.t)
    (rows : list Tuple.t) (search : Search.t) :
  unsplit_tree (SimpleTable.btree table) m
    (map (row_pair (SimpleTable.NumKeyElems table)) rows) ->
  Forall row_ok rows ->
  exists it m',
    BTree.Search (S fuel) (SimpleTable.btree table) search m = (Ok it, m') /\
    unsplit_tree (SimpleTable.btree table) m'
      (map (row_pair (SimpleTable.NumKeyElems table)) rows) /\
    table_drain (S (length rows))
      (TableIter.mk it (SimpleTable.NumKeyElems table)) m'
    = Ok (match Search.Mode search with
          | Search.SearchModeStart => rows
          | Search.SearchModeKey =>
              List.filter
                (fun row => key_le (Search.Key search)
                              (Pair.Key (row_pair (SimpleTable.NumKeyElems table) row)))
                rows
          end).
Proof.
  intros Hu Hok.
  destruct (Search_root_leaf fuel _ m _ search Hu) as (it & m' & HS & Hu' & Hd).
  exists it, m'. split; [exact HS|]. split; [exact Hu'|].
  rewrite length_map in Hd.
  apply table_drain_rows.
  - destruct (Search.Mode search); [exact Hok|].
    apply Forall_filter_bool. exact Hok.
  - rewrite Hd. unfold from_search.
    destruct (Search.Mode search); [reflexivity|].
    rewrite filter_map_commute. reflexivity.
Qed.

End TableScan.

(** X30. [Scan] and [ScanFrom] on a table whose tree has not split and
    holds the pairs of [rows], followed by [Next] until it yields nil: [Scan]
    yields the rows, in the order of their encoded keys; [ScanFrom] yields
    those whose encoded key is not smaller than the encoded search key. *)
Theorem Table_Scan_rows (fuel : nat) (table : SimpleTable.t)
    (m : BufferPoolManager.t) (rows : list Tuple.t) (searchKey : Tuple.t) :
  unsplit_tree (SimpleTable.btree table) m
    (map (row_pair (SimpleTable.NumKeyElems table)) rows) ->
  Forall row_ok rows ->
  (exists it m',
     SimpleTable.Scan (S fuel) table m = (Ok it, m') /\
     table_drain (S (length rows)) it m' = Ok rows) /\
  (exists it m',
     SimpleTable.ScanFrom (S fuel) table searchKey m = (Ok it, m') /\
     table_drain (S (length rows)) it m'
     = Ok (List.filter
             (fun row =>
                key_le (tuple_bytes searchKey)
                  (Pair.Key (row_pair (SimpleTable.NumKeyElems table) row)))
             rows)).
Proof.
  intros Hu Hok. split.
  - destruct (Scan_rows fuel table m rows Search.NewSearchStart Hu Hok)
      as (it & m' & HS & _ & Hd).
    exists (TableIter.mk it (SimpleTable.NumKeyElems table)), m'.
    split; [|exact Hd].
    unfold SimpleTable.Scan. rewrite (bindM_Ok _ _ _ _ _ HS). reflexivity.
  - destruct (Scan_rows fuel table m rows
                (Search.NewSearchKey (tuple_bytes searchKey)) Hu Hok)
      as (it & m' & HS & _ & Hd).
    exists (TableIter.mk it (SimpleTable.NumKeyElems table)), m'.
    split; [|exact Hd].
    unfold SimpleTable.ScanFrom. unfold liftM at 1. unfold bindM at 1.
    rewrite Encode_eq. rewrite (bindM_Ok _ _ _ _ _ HS). reflexivity.
Qed.

Section Examples.

Lemma leaf_holds_banana_leaf : leaf_holds banana_leaf [banana_pair].
Proof.
  destruct (Insert_room empty_leaf [] 0 (bytes "banana") (bytes "2") 4068
              leaf_holds_empty_leaf (Nat.le_refl 0))
    as (l' & HI & Hh & _).
  - vm_compute. reflexivity.
  - vm_compute. congruence.
  - unfold banana_leaf. change (Z.of_nat 0) with 0 in HI. rewrite HI. exact Hh.
Qed.

Lemma no_key_in_nil (key : list byte) :
  forall p : Pair.t, p ∈ [] -> Pair.Key p <> key.
Proof. intros p Hp. apply elem_of_nil in Hp. destruct Hp. Qed.

Lemma unsplit_tree_apple_tree : unsplit_tree (BTree.mk 0) apple_tree [apple_pair].
Proof.
  destruct (Insert_new_key 0 (BTree.mk 0) (created []) [] (bytes "apple") (bytes "1")
              (unsplit_tree_created []) (no_key_in_nil _))
    as (m' & pairs' & HI & Hu & Hperm).
  - vm_compute. congruence.
  - apply Permutation_singleton_r in Hperm. subst pairs'.
    unfold apple_tree. rewrite HI. exact Hu.
Qed.

Lemma unsplit_tree_alice_table :
  unsplit_tree (SimpleTable.btree people) alice_table
    (map (row_pair (SimpleTable.NumKeyElems people)) [alice]).
Proof.
  assert (Hn : 0 <= SimpleTable.NumKeyElems people) by (cbn; lia).
  destruct (Insert_new_key 0 (SimpleTable.btree people) (created []) []
              (Pair.Key (row_pair 1 alice)) (Pair.Value (row_pair 1 alice))
              (unsplit_tree_created []) (no_key_in_nil _))
    as (m' & pairs' & HI & Hu & Hperm).
  - vm_compute. congruence.
  - apply Permutation_singleton_r in Hperm. subst pairs'.
    unfold alice_table. rewrite (Insert_row 1 people alice _ Hn).
    change (SimpleTable.NumKeyElems people) with 1.
    rewrite HI. exact Hu.
Qed.

End Examples.

Lemma SplitInsert_halves_witness :
  exists l' newLeaf' p,
    Leaf.SplitInsert banana_leaf (make 4088) (bytes "apple") (bytes "1")
      = Ok (l', newLeaf', Pair.Key p) /\
    leaf_holds newLeaf'
      (take (split_point (with_new_pair [banana_pair] (bytes "apple") (bytes "1")))
            (with_new_pair [banana_pair] (bytes "apple") (bytes "1"))) /\
    leaf_holds l'
      (drop (split_point (with_new_pair [banana_pair] (bytes "apple") (bytes "1")))
            (with_new_pair [banana_pair] (bytes "apple") (bytes "1"))) /\
    last (take (split_point (with_new_pair [banana_pair] (bytes "apple") (bytes "1")))
               (with_new_pair [banana_pair] (bytes "apple") (bytes "1"))) = Some p /\
    Leaf.PrevPageID l' = Ok None /\ Leaf.NextPageID l' = Ok None.
Proof.
  apply (SplitInsert_halves banana_leaf (make 4088) [banana_pair]
           (bytes "apple") (bytes "1")).
  - exact leaf_holds_banana_leaf.
  - congruence.
  - vm_compute. split; congruence.
  - vm_compute. congruence.
  - vm_compute. congruence.
Defined.

Lemma Insert_unsplit_tree_witness :
  (exists m' pairs',
     BTree.Insert 1 (BTree.mk 0) (bytes "banana") (bytes "2") apple_tree
       = (Ok tt, m') /\
     unsplit_tree (BTree.mk 0) m' pairs' /\
     pairs' ≡ₚ banana_pair :: [apple_pair]) /\
  (exists m',
     BTree.Insert 1 (BTree.mk 0) (bytes "apple") (bytes "3") apple_tree
       = (Err ErrDuplicateKey, m') /\
     unsplit_tree (BTree.mk 0) m' [apple_pair]).
Proof.
  split.
  - apply (proj1 (Insert_unsplit_tree 0 (BTree.mk 0) apple_tree [apple_pair]
                    (bytes "banana") (bytes "2") unsplit_tree_apple_tree)).
    + intros p Hp. apply list_elem_of_singleton in Hp. subst p.
      vm_compute. congruence.
    + vm_compute. congruence.
  - apply (proj2 (Insert_unsplit_tree 0 (BTree.mk 0) apple_tree [apple_pair]
                    (bytes "apple") (bytes "3") unsplit_tree_apple_tree)
             apple_pair).
    + apply list_elem_of_singleton. reflexivity.
    + reflexivity.
Defined.

Lemma Search_unsplit_tree_witness :
  exists it m',
    BTree.Search 1 (BTree.mk 0) (Search.NewSearchKey (bytes "apple")) apple_tree
      = (Ok it, m') /\
    unsplit_tree (BTree.mk 0) m' [apple_pair] /\
    drain (S (length [apple_pair])) it m'
      = Ok (from_search (Search.NewSearchKey (bytes "apple")) [apple_pair]).
Proof.
  apply (Search_unsplit_tree 0 (BTree.mk 0) apple_tree [apple_pair]
           (Search.NewSearchKey (bytes "apple"))).
  exact unsplit_tree_apple_tree.
Defined.

Lemma Table_Insert_row_witness :
  SimpleTable.Insert 1 (SimpleTable.mk 0 (-1)) bob (created []) = (Err Panic, created []) /\
  exists m' pairs',
    SimpleTable.Insert 1 people bob alice_table = (Ok tt, m') /\
    unsplit_tree (SimpleTable.btree people) m' pairs' /\
    pairs' ≡ₚ row_pair 1 bob :: map (row_pair 1) [alice].
Proof.
  split.
  - apply (proj1 (Table_Insert_row 0 (SimpleTable.mk 0 (-1)) (created []) [] bob
                    (unsplit_tree_created []))).
    cbn. lia.
  - apply (proj2 (Table_Insert_row 0 people alice_table _ bob
                    unsplit_tree_alice_table)).
    + cbn. lia.
    + intros p Hp. apply list_elem_of_singleton in Hp. subst p.
      vm_compute. congruence.
    + vm_compute. congruence.
Defined.

Lemma Table_Scan_rows_witness :
  (exists it m',
     SimpleTable.Scan 1 people alice_table = (Ok it, m') /\
     table_drain (S (length [alice])) it m' = Ok [alice]) /\
  (exists it m',
     SimpleTable.ScanFrom 1 people [bytes "1"] alice_table = (Ok it, m') /\
     table_drain (S (length [alice])) it m'
     = Ok (List.filter
             (fun row =>
                key_le (tuple_bytes [bytes "1"])
                  (Pair.Key (row_pair (SimpleTable.NumKeyElems people) row)))
             [alice])).
Proof.
  apply (Table_Scan_rows 0 people alice_table [alice] [bytes "1"]).
  - exact unsplit_tree_alice_table.
  - repeat constructor; vm_compute; reflexivity.
Defined.

Lemma Branch_Initialize_routes_witness :
  exists b',
    Branch.Initialize body_of_ones (bytes "m") 3 4 = Ok b' /\
    Branch.NumKeys b' = Ok 1 /\
    Branch.KeyAt b' 0 = Ok (bytes "m") /\
    Branch.ChildAt b' 0 = Ok 3 /\
    Branch.ChildAt b' 1 = Ok 4 /\
    Branch.SearchChild b' (bytes "m")
      = Ok (if key_lt (bytes "m") (bytes "m") then 3 else 4).
Proof.
  apply (Branch_Initialize_routes body_of_ones (bytes "m") (bytes "m") 3 4);
    [vm_compute; split; congruence | lia | lia].
Defined.
